(** * EOS: likelihood blocks, bootstrap p-value and the observable factory

    A shallow embedding of [eos/statistics/log-likelihood.cc] and of
    [Observable::make] in [eos/observable.cc].

    Modelling conventions.
    - A C++ [double] is idealised as a real number: rounding is outside the
      model, but for the one place where it decides between a number and a
      NaN, the cancellation in [AmorosoBlock::mode], whose outcome is the
      parameter [Rounding].  [std::exp], [std::log], [std::sqrt]
      and [std::fabs] are [exp], [ln], [sqrt] and [Rabs]; [std::pow] is
      [std_pow] on a non-negative base and [std_pow_checked] where the base
      may be negative: a NaN or an infinity that [std::pow] returns is no
      real number, and the call is then the failure [NotANumber] or
      [Infinite].  The statements below use [ln] on positive arguments only.
    - The one computation for which the claim is about the doubles
      themselves, [MixtureBlock::evaluate], is embedded a second time over
      IEEE 754 binary64 numbers, in [MixtureBlockDouble].
    - [unsigned] is a 32-bit integer, held in [Z] with its wrap-around.
    - The GSL library is an external collaborator: its functions are the
      fields of the class [GSL]; what a proof needs to know about them is a
      hypothesis of that proof.
    - Objects held through shared handles ([Parameters], [ObservableCache])
      live in a [Heap]; blocks and observables hold handles into it.
    - A C++ exception, a call of the GSL error handler, undefined behaviour,
      a NaN or an infinity, and an exhausted loop budget are the ways in which
      a [result] is not [Ok]. *)

From Stdlib Require Import PrimFloat.
From Stdlib Require Import Reals Lra Lia ZArith List String Ascii Bool Psatz.
Import ListNotations.

Local Open Scope R_scope.

(** A [double] is a real number. *)
Abbreviation double := R (only parsing).

(** ** Failures and the error monad *)

Inductive failure : Type :=
| InternalError (what : string)
| ObservableNameError (name : string)
| GslError (reason : string)
| UndefinedBehaviour
| OutOfFuel
| NotANumber
| Infinite.

Inductive result (A : Type) : Type :=
| Ok (a : A)
| Fail (f : failure).

Arguments Ok {A} a.
Arguments Fail {A} f.

Definition bind {A B : Type} (r : result A) (k : A -> result B) : result B :=
  match r with
  | Ok a => k a
  | Fail f => Fail f
  end.

Notation "x <- e ;; k" := (bind e (fun x => k))
  (at level 61, e at next level, right associativity).
Notation "' p <- e ;; k" := (bind e (fun p => k))
  (at level 61, p pattern, e at next level, right associativity).

Definition is_ok {A : Type} (r : result A) : Prop :=
  match r with Ok _ => True | Fail _ => False end.

Definition throws {A : Type} (r : result A) : Prop :=
  match r with
  | Fail (InternalError _) | Fail (ObservableNameError _) => True
  | _ => False
  end.

Fixpoint mapM {A B : Type} (f : A -> result B) (l : list A) : result (list B) :=
  match l with
  | [] => Ok []
  | x :: xs => y <- f x ;; ys <- mapM f xs ;; Ok (y :: ys)
  end.

(** ** Machine integers *)

Definition unsigned : Type := Z.

Definition UINT_MODULUS : Z := 2 ^ 32.

Definition wrap (z : Z) : unsigned := (z mod UINT_MODULUS)%Z.

(** [double(n)] for an unsigned [n]. *)
Definition to_double (n : unsigned) : double := IZR n.

(** [power_of<2>(x)] of eos/utils/power_of.hh. *)
Definition power_of_2 (x : double) : double := x * x.

(** [std::pow(x, y)]: [exp (y * ln x)] for a positive base, and [0] for a
    zero base with a positive exponent.  A negative base is outside the
    model. *)
Definition std_pow (x y : double) : double :=
  if Req_dec_T x 0
  then (if Rlt_dec 0 y then 0 else Rpower x y)
  else Rpower x y.

(** [std::pow(x, y)] for any base.  A negative base is raised to an integral
    exponent only: with any other exponent the result is a NaN.  A zero base
    with a negative exponent gives an infinity. *)
Definition std_pow_checked (x y : double) : result double :=
  if Rlt_dec x 0
  then if Req_dec_T y (IZR (Int_part y))
       then Ok (powerRZ x (Int_part y))
       else Fail NotANumber
  else if Req_dec_T x 0
       then if Rlt_dec y 0 then Fail Infinite else Ok (std_pow x y)
       else Ok (std_pow x y).

(** ** Rounding at a cancellation

    A difference that is zero over the reals can come out of the doubles
    with either sign.  For [beta = 1 / alpha] the doubles [alpha] and
    [1 / beta] are equal for some [alpha] and differ by a few units in the
    last place for others: [alpha - 1 / beta] is [-7.1e-15] for [alpha = 49].
    Which of the cases the program is in is a parameter of the model:
    [cancels_below x y], asked where [x - y] is zero over the reals, tells
    whether the double [x - y] is negative. *)
Class Rounding : Type := {
  cancels_below : double -> double -> bool
}.

(** ** Parameters (src/utils/parameters.cc)

    [Parameter] and [Parameters] are reserved words here, hence the prefix. *)

Module EosParameter.
Record Data : Type := {
    name : string;
    min : double;
    central : double;
    max : double;
    value : double
  }.
End EosParameter.

Module EosParameters.
  (** [Parameters::Data]: the vector shared by every holder of the set. *)
Definition Data : Type := list EosParameter.Data.
End EosParameters.

Definition Handle : Type := nat.

(** ** Observables and the observable cache *)

Module Observable.
  (** Modelled from the spec: the Observable contract of eos/observable.hh,
      "a capability object evaluating to a double given the current
      ParameterSet state"; [clone] produces "an equivalent observable bound to
      different parameter storage". *)
Record t : Type := {
    name : string;
    function : EosParameters.Data -> double;
    parameters : Handle
  }.

Definition clone (o : t) (p : Handle) : t :=
    {| name := name o; function := function o; parameters := p |}.
End Observable.

Module ObservableCache.
Definition Id : Type := nat.

  (** Modelled from the spec: the ObservableCache of
      eos/utils/observable_cache.hh.  [add] registers an observable and
      returns its id, [update] recomputes every registered observable in
      registration order, indexing returns the last computed value and never
      computes. *)
Record Data : Type := {
    parameters : Handle;
    observables : list Observable.t;
    predictions : list double
  }.

Definition add (c : Data) (o : Observable.t) : Id * Data :=
    (List.length (observables c),
     {| parameters := parameters c;
        observables := observables c ++ [o];
        predictions := predictions c |}).

Definition observable (c : Data) (id : Id) : option Observable.t :=
    nth_error (observables c) id.

Definition get (c : Data) (id : Id) : double :=
    nth id (predictions c) 0.
End ObservableCache.

(** The shared objects: parameter sets and caches, by handle. *)
Record Heap : Type := {
  parameters_at : Handle -> EosParameters.Data;
  cache_at : Handle -> ObservableCache.Data
}.

Definition set_cache (h : Heap) (c : Handle) (d : ObservableCache.Data) : Heap :=
  {| parameters_at := parameters_at h;
     cache_at := fun c' => if Nat.eqb c' c then d else cache_at h c' |}.

Definition observable_evaluate (h : Heap) (o : Observable.t) : double :=
  Observable.function o (parameters_at h (Observable.parameters o)).

(** [cache.update()] *)
Definition cache_update (h : Heap) (c : Handle) : Heap :=
  let d := cache_at h c in
  set_cache h c
    {| ObservableCache.parameters := ObservableCache.parameters d;
       ObservableCache.observables := ObservableCache.observables d;
       ObservableCache.predictions :=
         map (observable_evaluate h) (ObservableCache.observables d) |}.

(** [cache[id]] *)
Definition cache_get (h : Heap) (c : Handle) (id : ObservableCache.Id) : double :=
  ObservableCache.get (cache_at h c) id.

(** [cache.add(observable)] on the shared cache. *)
Definition cache_add (h : Heap) (c : Handle) (o : Observable.t)
  : ObservableCache.Id * Heap :=
  let '(id, d) := ObservableCache.add (cache_at h c) o in
  (id, set_cache h c d).

(** [this->cache.observable(id)->clone(cache.parameters())] followed by
    [cache.add(...)]: the step shared by the [clone] of every block. *)
Definition clone_observable (h : Heap) (source : Handle) (id : ObservableCache.Id)
    (target : Handle) : result (ObservableCache.Id * Heap) :=
  match ObservableCache.observable (cache_at h source) id with
  | None => Fail UndefinedBehaviour
  | Some o =>
      Ok (cache_add h target
            (Observable.clone o (ObservableCache.parameters (cache_at h target))))
  end.

(** ** GSL *)

Definition gsl_vector : Type := list double.

(** A matrix is the list of its rows. *)
Definition gsl_matrix : Type := list (list double).

Inductive gsl_status : Type := GSL_SUCCESS | GSL_CONTINUE | GSL_FAILURE | GSL_EDOM.

Class GSL : Type := {
  gsl_rng : Type;
  (** [gsl_rng_alloc(gsl_rng_mt19937)] followed by [gsl_rng_set(rng, seed)] *)
  gsl_rng_set : Z -> gsl_rng;
  gsl_rng_uniform : gsl_rng -> double * gsl_rng;
  gsl_ran_gamma : gsl_rng -> double -> double -> double * gsl_rng;
  gsl_ran_ugaussian : gsl_rng -> double * gsl_rng;
  gsl_cdf_gaussian_P : double -> double -> double;
  gsl_cdf_gaussian_Pinv : double -> double -> double;
  gsl_cdf_ugaussian_Pinv : double -> double;
  gsl_sf_lngamma : double -> double;
  gsl_sf_gamma_inc_Q : double -> double -> double;
  (** [gsl_sf_gamma_inc_Q_e(a, x, &result)]: the return code and [result.val] *)
  gsl_sf_gamma_inc_Q_e : double -> double -> gsl_status * double;
  gsl_linalg_cholesky_decomp : gsl_matrix -> gsl_matrix;
  (** the return code of [gsl_linalg_cholesky_decomp]: [GSL_EDOM] for a matrix
      that is not positive definite *)
  gsl_linalg_cholesky_decomp_status : gsl_matrix -> gsl_status;
  gsl_linalg_cholesky_invert : gsl_matrix -> gsl_matrix;
  gsl_linalg_LU_decomp : gsl_matrix -> gsl_matrix;
  gsl_linalg_LU_lndet : gsl_matrix -> double;
  gsl_root_fsolver : Type;
  (** [gsl_root_fsolver_alloc(gsl_root_fsolver_brent)] and [_set] *)
  gsl_root_fsolver_set : (double -> double) -> double -> double -> gsl_root_fsolver;
  gsl_root_fsolver_iterate : (double -> double) -> gsl_root_fsolver -> gsl_root_fsolver;
  gsl_root_fsolver_root : gsl_root_fsolver -> double;
  gsl_root_fsolver_x_lower : gsl_root_fsolver -> double;
  gsl_root_fsolver_x_upper : gsl_root_fsolver -> double;
  gsl_root_test_interval : double -> double -> double -> double -> gsl_status
}.

(** [gsl_sf_gamma_inc_Q(a, x)] is defined for [a >= 0] and [x >= 0]; with any
    other argument GSL reports a domain error to its error handler. *)
Definition gsl_sf_gamma_inc_Q_in_domain {gsl : GSL} (a x : double) : result double :=
  if Rlt_dec a 0 then Fail (GslError "domain error")
  else if Rlt_dec x 0 then Fail (GslError "domain error")
  else Ok (gsl_sf_gamma_inc_Q a x).

(** ** The Gaussian block *)

Module GaussianBlock.
Record t : Type := {
    cache : Handle;
    id : ObservableCache.Id;
    mode : double;
    sigma_lower : double;
    sigma_upper : double;
    c_upper : double;
    c_lower : double;
    norm : double;
    _number_of_observations : unsigned
  }.

  (** [GaussianBlock::GaussianBlock] *)
Definition make (cache : Handle) (id : ObservableCache.Id)
      (min central max : double) (number_of_observations : unsigned) : t :=
    let sigma_lower := central - min in
    let sigma_upper := max - central in
    let c_upper := 2 * sigma_upper / (sigma_upper + sigma_lower) in
    {| cache := cache;
       id := id;
       mode := central;
       sigma_lower := sigma_lower;
       sigma_upper := sigma_upper;
       c_upper := c_upper;
       c_lower := sigma_lower / sigma_upper * c_upper;
       norm := ln (sqrt (2 / PI) / (sigma_upper + sigma_lower));
       _number_of_observations := number_of_observations |}.

Definition evaluate (h : Heap) (b : t) : double :=
    let value := cache_get h (cache b) (id b) in
    let sigma := if Rgt_dec value (mode b) then sigma_upper b else sigma_lower b in
    let chi := (value - mode b) / sigma in
    norm b - power_of_2 chi / 2.

Definition number_of_observations (b : t) : unsigned :=
    _number_of_observations b.

Section Sampling.
Context {gsl : GSL}.

Definition sample (h : Heap) (b : t) (rng : gsl_rng) : double * gsl_rng :=
      let '(u, rng) := gsl_rng_uniform rng in
      let c_b := c_upper b in
      let a := sigma_lower b in
      let b' := sigma_upper b in
      let theory := cache_get h (cache b) (id b) in
      let '(obs, sigma) :=
        if Rlt_dec u (b' / (a + b'))
        then (gsl_cdf_gaussian_Pinv (u / c_b) b' + theory, b')
        else (gsl_cdf_gaussian_Pinv (u - 0.5 * c_b) a + theory, a) in
      let chi := (theory - obs) / sigma in
      (norm b - power_of_2 chi / 2, rng).
End Sampling.

Definition significance (h : Heap) (b : t) : double :=
    let value := cache_get h (cache b) (id b) in
    let sigma := if Rgt_dec value (mode b) then sigma_upper b else sigma_lower b in
    (mode b - value) / sigma.

Definition clone (h : Heap) (b : t) (target : Handle) : result (t * Heap) :=
    '(id', h') <- clone_observable h (cache b) (id b) target ;;
    Ok (make target id' (mode b - sigma_lower b) (mode b) (mode b + sigma_upper b)
          (_number_of_observations b), h').
End GaussianBlock.

(** ** The equation solver used by the fitting LogGamma constructor *)

Module EquationSolver.
(** Modelled from the spec: the EquationSolver of eos/utils/equation_solver.hh,
    "a constrained least-squares search".  A parameter is added with its
    initial value, its error and, when bounded, its range; [solve] minimises
    the constraint function and reports the minimum found. *)
Record Solution : Type := {
  valid : bool;
  value : double;
  parameters : list double
}.

Record FitParameter : Type := {
  name : string;
  initial : double;
  error : double;
  range : option (double * double)
}.

Class Solver : Type := {
  solve : list FitParameter -> (list double -> result double) -> result Solution
}.
End EquationSolver.

(** ** The LogGamma block *)

Module LogGammaBlock.
Record t : Type := {
  cache : Handle;
  id : ObservableCache.Id;
  central : double;
  sigma_lower : double;
  sigma_upper : double;
  nu : double;
  lambda : double;
  alpha : double;
  norm : double;
  _number_of_observations : unsigned
}.

Definition eps : double := 1e-4.

Definition one_sigma_coverage : double := 0.68268949213708585.

Section WithGSL.
Context {gsl : GSL}.

(** [LogGammaBlock::cdf] reads [nu], [lambda] and [alpha] only. *)
Definition cdf_of (nu lambda alpha x : double) : double :=
  let z := exp ((x - nu) / lambda) in
  if Rlt_dec lambda 0
  then gsl_sf_gamma_inc_Q alpha z
  else 1 - gsl_sf_gamma_inc_Q alpha z.

Definition cdf (b : t) (x : double) : double :=
  cdf_of (nu b) (lambda b) (alpha b) x.

(** [LogGammaBlock::constraint] *)
Definition constraint (parameters : list double) (sigma_plus sigma_minus : double)
  : result double :=
  match parameters with
  | [lambda; alpha] =>
      let nu := 0 - lambda * ln alpha in
      let z_plus := (sigma_plus - nu) / lambda in
      let z_minus := (- sigma_minus - nu) / lambda in
      let first := Rabs (alpha * z_plus - exp z_plus - alpha * z_minus + exp z_minus) in
      match gsl_sf_gamma_inc_Q_e alpha (exp z_plus) with
      | (GSL_SUCCESS, cdf_plus) =>
          match gsl_sf_gamma_inc_Q_e alpha (exp z_minus) with
          | (GSL_SUCCESS, cdf_minus) =>
              let second := Rabs ((cdf_plus - cdf_minus) - one_sigma_coverage) in
              Ok (first + second)
          | _ => Fail (InternalError "LogLikelihoodBlock::LogGamma: cannot evaluate cumulative")
          end
      | _ => Fail (InternalError "LogLikelihoodBlock::LogGamma: cannot evaluate cumulative")
      end
  | _ => Fail (InternalError "LogLikelihoodBlock::LogGamma.constraint: parameter dimension should be 2.")
  end.

(** The fitting constructor: [lambda] and [alpha] come out of the solver.
    Log messages are not part of the model. *)
Definition make_fitted {solver : EquationSolver.Solver}
    (cache : Handle) (id : ObservableCache.Id) (min central max : double)
    (number_of_observations : unsigned) : result t :=
  let sigma_lower := central - min in
  let sigma_upper := max - central in
  let sigma_plus :=
    if Rgt_dec sigma_upper sigma_lower
    then sigma_upper / sigma_lower else sigma_lower / sigma_upper in
  let sigma_minus := 1 in
  let lambda_scale_factor :=
    if Rgt_dec sigma_upper sigma_lower
    then sigma_lower / sigma_minus else -1 * sigma_upper / sigma_minus in
  let lambda_initial := -56 + 55 * gsl_cdf_gaussian_P (sigma_plus - 1) 0.05 in
  let alpha_initial := std_pow (1.13 / (sigma_plus - 1)) 1.3 in
  solution <- EquationSolver.solve
    [ {| EquationSolver.name := "lambda";
         EquationSolver.initial := lambda_initial;
         EquationSolver.error := lambda_initial / 10;
         EquationSolver.range := None |};
      {| EquationSolver.name := "alpha";
         EquationSolver.initial := alpha_initial;
         EquationSolver.error := alpha_initial / 5;
         EquationSolver.range := Some (0, 1000) |} ]
    (fun parameters => constraint parameters sigma_plus sigma_minus) ;;
  let lambda := lambda_scale_factor * nth 0 (EquationSolver.parameters solution) 0 in
  let alpha := nth 1 (EquationSolver.parameters solution) 0 in
  Ok {| cache := cache;
        id := id;
        central := central;
        sigma_lower := sigma_lower;
        sigma_upper := sigma_upper;
        nu := central - lambda * ln alpha;
        lambda := lambda;
        alpha := alpha;
        norm := -1 * gsl_sf_lngamma alpha - ln (Rabs lambda);
        _number_of_observations := number_of_observations |}.

(** The constructor with explicit [lambda] and [alpha]. *)
Definition make (cache : Handle) (id : ObservableCache.Id)
    (min central max lambda alpha : double) (number_of_observations : unsigned)
  : result t :=
  let sigma_lower := central - min in
  let sigma_upper := max - central in
  let nu := central - lambda * ln alpha in
  if Rgt_dec
       (Rabs (cdf_of nu lambda alpha (central + sigma_upper)
              - cdf_of nu lambda alpha (central - sigma_lower)
              - one_sigma_coverage)) eps
  then Fail (InternalError "LogLikelihoodBlock::LogGamma.ctor: For the current parameter values, the interval [lower, upper] doesn't contain approx. 68%")
  else
    let z_plus := (central + sigma_upper - nu) / lambda in
    let z_minus := (central - sigma_lower - nu) / lambda in
    if Rgt_dec
         (Rabs (alpha * z_plus - exp z_plus - alpha * z_minus + exp z_minus)) eps
    then Fail (InternalError "LogLikelihoodBlock::LogGamma.ctor: For the current parameter values, the probability density at lower is not equal to the probability density at upper")
    else
      Ok {| cache := cache;
            id := id;
            central := central;
            sigma_lower := sigma_lower;
            sigma_upper := sigma_upper;
            nu := nu;
            lambda := lambda;
            alpha := alpha;
            norm := -1 * gsl_sf_lngamma alpha - ln (Rabs lambda);
            _number_of_observations := number_of_observations |}.

Definition evaluate (h : Heap) (b : t) : double :=
  let value := (cache_get h (cache b) (id b) - nu b) / lambda b in
  norm b + alpha b * value - exp value.

Definition number_of_observations (b : t) : unsigned :=
  _number_of_observations b.

(** The rejection loop of [sample]: [while (true)] until a draw falls inside
    the three-sigma range. *)
Fixpoint sample_draw (fuel : nat) (b : t) (rng : gsl_rng)
  : result (double * gsl_rng) :=
  match fuel with
  | O => Fail OutOfFuel
  | S fuel' =>
      let range_min := central b - 3 * sigma_lower b in
      let range_max := central b + 3 * sigma_upper b in
      let '(g, rng') := gsl_ran_gamma rng (alpha b) 1 in
      let x := lambda b * ln g + nu b in
      if Rlt_dec range_min x
      then if Rlt_dec x range_max then Ok (x, rng') else sample_draw fuel' b rng'
      else sample_draw fuel' b rng'
  end.

Definition sample (fuel : nat) (b : t) (rng : gsl_rng) : result (double * gsl_rng) :=
  '(x, rng') <- sample_draw fuel b rng ;;
  let nu_pseudo := x - lambda b * ln (alpha b) in
  let value := (central b - nu_pseudo) / lambda b in
  Ok (norm b + alpha b * value - exp value, rng').

Definition clone (h : Heap) (b : t) (target : Handle) : result (t * Heap) :=
  '(id', h') <- clone_observable h (cache b) (id b) target ;;
  b' <- make target id' (central b - sigma_lower b) (central b)
          (central b + sigma_upper b) (lambda b) (alpha b)
          (_number_of_observations b) ;;
  Ok (b', h').
End WithGSL.
End LogGammaBlock.

(** ** The Amoroso block *)

(** [std::numeric_limits<double>::max()] *)
Definition DBL_MAX : double := (2 - / 2 ^ 52) * 2 ^ 1023.

Module AmorosoBlock.
Record t : Type := {
  cache : Handle;
  id : ObservableCache.Id;
  physical_limit : double;
  theta : double;
  alpha : double;
  beta : double;
  norm : double;
  _number_of_observations : unsigned
}.

Section WithGSL.
Context {gsl : GSL} {rounding : Rounding}.

(** [AmorosoBlock::AmorosoBlock] *)
Definition make (cache : Handle) (id : ObservableCache.Id)
    (physical_limit theta alpha beta : double) (number_of_observations : unsigned)
  : result t :=
  if Rle_dec theta 0
  then Fail (InternalError "LogLikelihoodBlock::Amoroso: scale parameter theta must be positive for an upper limit")
  else if Rle_dec alpha 0
  then Fail (InternalError "LogLikelihoodBlock::Amoroso: shape parameter alpha must be positive")
  else if Rle_dec beta 0
  then Fail (InternalError "LogLikelihoodBlock::Amoroso: shape parameter beta must be positive")
  else
    Ok {| cache := cache;
          id := id;
          physical_limit := physical_limit;
          theta := theta;
          alpha := alpha;
          beta := beta;
          norm := -1 * gsl_sf_lngamma alpha + ln (Rabs (beta / theta));
          _number_of_observations := number_of_observations |}.

(** [AmorosoBlock::cdf]: below the physical limit the base of the Weibull
    transform is negative. *)
Definition cdf (b : t) (x : double) : result double :=
  w <- std_pow_checked ((x - physical_limit b) / theta b) (beta b) ;;
  if Rlt_dec (beta b / theta b) 0
  then gsl_sf_gamma_inc_Q_in_domain (alpha b) w
  else q <- gsl_sf_gamma_inc_Q_in_domain (alpha b) w ;; Ok (1 - q).

Definition evaluate (h : Heap) (b : t) : double :=
  let z := (cache_get h (cache b) (id b) - physical_limit b) / theta b in
  norm b + (alpha b * beta b - 1) * ln z - std_pow z (beta b).

(** [AmorosoBlock::mode]: the base [alpha - 1 / beta] is negative for
    [alpha * beta < 1].  For [alpha * beta = 1] it is a cancellation: where
    the doubles leave it below zero, [std::pow] returns a NaN as it does for
    any negative base with an exponent that is not integral. *)
Definition mode (b : t) : result double :=
  let base := alpha b - 1 / beta b in
  p <- (if (if Req_dec_T base 0 then cancels_below (alpha b) (1 / beta b) else false)
        then Fail NotANumber
        else std_pow_checked base (1 / beta b)) ;;
  Ok (physical_limit b + theta b * p).

Definition number_of_observations (b : t) : unsigned :=
  _number_of_observations b.

Definition sample (b : t) (rng : gsl_rng) : double * gsl_rng :=
  let '(w, rng') := gsl_ran_gamma rng (alpha b) 1 in
  let z := std_pow w (1 / beta b) in
  (norm b + (alpha b * beta b - 1) * ln z - w, rng').

(** [AmorosoBlock::significance_function_f] *)
Definition significance_function_f (h : Heap) (a : t) (x : double) : double :=
  let zp := (cache_get h (cache a) (id a) - physical_limit a) / theta a in
  let zm := (x - physical_limit a) / theta a in
  if Req_dec_T zm 0
  then DBL_MAX
  else (alpha a * beta a - 1) * (ln zp - ln zm)
       + std_pow zm (beta a) - std_pow zp (beta a).

(** [while (significance_function_f(x_max) < 0) x_max *= 2;] *)
Fixpoint expand_bracket (fuel : nat) (h : Heap) (a : t) (x_max : double)
  : result double :=
  match fuel with
  | O => Fail OutOfFuel
  | S fuel' =>
      if Rlt_dec (significance_function_f h a x_max) 0
      then expand_bracket fuel' h a (x_max * 2)
      else Ok x_max
  end.

(** The [do ... while (status == GSL_CONTINUE && iter < max_iter)] loop: the
    body runs once and then at most [budget] more times. *)
Fixpoint brent_iterations (budget : nat) (f : double -> double)
    (solver : gsl_root_fsolver) : gsl_status * gsl_root_fsolver :=
  let solver' := gsl_root_fsolver_iterate f solver in
  let status :=
    gsl_root_test_interval (gsl_root_fsolver_x_lower solver')
      (gsl_root_fsolver_x_upper solver') 0 1e-7 in
  match budget with
  | O => (status, solver')
  | S budget' =>
      match status with
      | GSL_CONTINUE => brent_iterations budget' f solver'
      | _ => (status, solver')
      end
  end.

Definition max_iter : nat := 400.

Definition significance (fuel : nat) (h : Heap) (b : t) : result double :=
  let value := cache_get h (cache b) (id b) in
  if Rlt_dec (Rabs (alpha b * beta b - 1)) 1e-13
  then
    p <- cdf b value ;;
    Ok (gsl_cdf_ugaussian_Pinv ((p + 1) / 2))
  else
    mode_b <- mode b ;;
    '(x_min, x_max) <-
      (if Rgt_dec value mode_b
       then Ok (physical_limit b, mode_b)
       else
         x_max <- expand_bracket fuel h b (mode_b + (mode_b - value)) ;;
         Ok (mode_b, x_max)) ;;
    let f := significance_function_f h b in
    let '(status, solver) :=
      brent_iterations (max_iter - 1) f (gsl_root_fsolver_set f x_min x_max) in
    let estimate := gsl_root_fsolver_root solver in
    match status with
    | GSL_SUCCESS =>
        cdf_value <- cdf b value ;;
        cdf_estimate <- cdf b estimate ;;
        let p := Rabs (cdf_value - cdf_estimate) in
        let abs_significance := gsl_cdf_ugaussian_Pinv ((p + 1) / 2) in
        Ok ((if Rgt_dec mode_b value then 1 else -1) * abs_significance)
    | _ => Fail (InternalError "Could not find the mirror point")
    end.

Definition clone (h : Heap) (b : t) (target : Handle) : result (t * Heap) :=
  '(id', h') <- clone_observable h (cache b) (id b) target ;;
  b' <- make target id' (physical_limit b) (theta b) (alpha b) (beta b)
          (_number_of_observations b) ;;
  Ok (b', h').
End WithGSL.
End AmorosoBlock.

(** ** Vectors and matrices *)

Definition size1 (m : gsl_matrix) : nat := List.length m.

Definition size2 (m : gsl_matrix) : nat :=
  match m with
  | [] => O
  | row :: _ => List.length row
  end.

(** [gsl_vector_sub(a, b)]: [a <- a - b] *)
Definition gsl_vector_sub (a b : gsl_vector) : gsl_vector :=
  map (fun '(x, y) => x - y) (combine a b).

(** [gsl_blas_ddot(x, y, &result)] *)
Fixpoint gsl_blas_ddot (x y : gsl_vector) : double :=
  match x, y with
  | a :: x', b :: y' => a * b + gsl_blas_ddot x' y'
  | _, _ => 0
  end.

(** [gsl_blas_dgemv(CblasNoTrans, 1.0, A, x, 0.0, y)]: [y <- A x] *)
Definition gsl_blas_dgemv (A : gsl_matrix) (x : gsl_vector) : gsl_vector :=
  map (fun row => gsl_blas_ddot row x) A.

(** The loop of the constructor that keeps "only the lower and diagonal
    parts": entry [(i, j)] becomes [0.0] for [j > i]. *)
Definition zero_upper (m : gsl_matrix) : gsl_matrix :=
  map (fun '(i, row) =>
         map (fun '(j, x) => if Nat.ltb i j then 0 else x)
             (combine (seq 0 (List.length row)) row))
      (combine (seq 0 (List.length m)) m).

(** ** The multivariate Gaussian block *)

Module MultivariateGaussianBlock.
Record t : Type := {
  _cache : Handle;
  _ids : list ObservableCache.Id;
  _mean : gsl_vector;
  _covariance : gsl_matrix;
  _number_of_observations : unsigned;
  _norm : double;
  _chol : gsl_matrix;
  _covariance_inv : gsl_matrix
}.

Section WithGSL.
Context {gsl : GSL}.

(** [gsl_matrix_memcpy] into a [k] by [k] matrix calls the GSL error handler
    when the sizes differ. *)
Definition gsl_matrix_memcpy (k : nat) (src : gsl_matrix) : result gsl_matrix :=
  if (Nat.eqb (size1 src) k && Nat.eqb (size2 src) k)%bool
  then Ok src
  else Fail (GslError "matrix sizes are different").

Definition compute_norm (mean : gsl_vector) (covariance : gsl_matrix)
  : result double :=
  let k := List.length mean in
  M <- gsl_matrix_memcpy k covariance ;;
  let log_det := gsl_linalg_LU_lndet (gsl_linalg_LU_decomp M) in
  Ok (-0.5 * INR k * ln (2 * PI) - 0.5 * log_det).

(** [MultivariateGaussianBlock::MultivariateGaussianBlock]: [_norm] is
    initialised before the body checks the dimensions; [cholesky] calls the
    GSL error handler for a covariance that is not positive definite;
    [invert_covariance] copies the Cholesky factor before its upper part is
    zeroed. *)
Definition make (cache : Handle) (ids : list ObservableCache.Id)
    (mean : gsl_vector) (covariance : gsl_matrix)
    (number_of_observations : unsigned) : result t :=
  norm <- compute_norm mean covariance ;;
  let k := List.length ids in
  if negb (Nat.eqb k (List.length mean))
  then Fail (InternalError "MultivariateGaussianBlock: dimensions of observables and mean are not identical")
  else if negb (Nat.eqb (size1 covariance) (size2 covariance))
  then Fail (InternalError "MultivariateGaussianBlock: covariance matrix is not a square matrix")
  else if negb (Nat.eqb k (size1 covariance))
  then Fail (InternalError "MultivariateGaussianBlock: dimensions of observables and covariance matrix are not identical")
  else
    chol_in <- gsl_matrix_memcpy k covariance ;;
    match gsl_linalg_cholesky_decomp_status chol_in with
    | GSL_SUCCESS =>
        let chol := gsl_linalg_cholesky_decomp chol_in in
        let covariance_inv := gsl_linalg_cholesky_invert chol in
        Ok {| _cache := cache;
              _ids := ids;
              _mean := mean;
              _covariance := covariance;
              _number_of_observations := number_of_observations;
              _norm := norm;
              _chol := zero_upper chol;
              _covariance_inv := covariance_inv |}
    | _ => Fail (GslError "matrix must be positive definite")
    end.

Definition chi_square (h : Heap) (b : t) : double :=
  let observables :=
    map (fun i => cache_get h (_cache b) (nth i (_ids b) O))
        (seq 0 (List.length (_mean b))) in
  let observables := gsl_vector_sub observables (_mean b) in
  let observables_2 := gsl_blas_dgemv (_covariance_inv b) observables in
  gsl_blas_ddot observables observables_2.

Definition evaluate (h : Heap) (b : t) : double :=
  _norm b - 0.5 * chi_square h b.

Definition number_of_observations (b : t) : unsigned :=
  _number_of_observations b.

Fixpoint draw_ugaussian (k : nat) (rng : gsl_rng) : gsl_vector * gsl_rng :=
  match k with
  | O => ([], rng)
  | S k' =>
      let '(x, rng') := gsl_ran_ugaussian rng in
      let '(xs, rng'') := draw_ugaussian k' rng' in
      (x :: xs, rng'')
  end.

Definition sample (b : t) (rng : gsl_rng) : double * gsl_rng :=
  let k := List.length (_mean b) in
  let '(observables, rng') := draw_ugaussian k rng in
  let observables_2 := gsl_blas_dgemv (_chol b) observables in
  let observables := gsl_blas_dgemv (_covariance_inv b) observables_2 in
  let result := gsl_blas_ddot observables observables_2 in
  (result * -0.5 + _norm b, rng').

(** The loop of [clone] that re-registers the observables, in order. *)
Fixpoint clone_ids (h : Heap) (source : Handle) (ids : list ObservableCache.Id)
    (target : Handle) : result (list ObservableCache.Id * Heap) :=
  match ids with
  | [] => Ok ([], h)
  | i :: rest =>
      '(i', h') <- clone_observable h source i target ;;
      '(rest', h'') <- clone_ids h' source rest target ;;
      Ok (i' :: rest', h'')
  end.

Definition clone (h : Heap) (b : t) (target : Handle) : result (t * Heap) :=
  let k := List.length (_mean b) in
  '(ids, h') <- clone_ids h (_cache b) (firstn k (_ids b)) target ;;
  b' <- make target ids (_mean b) (_covariance b) (_number_of_observations b) ;;
  Ok (b', h').
End WithGSL.
End MultivariateGaussianBlock.

(** ** The block hierarchy *)

(** [LogLikelihoodBlockPtr]: the five implementations of
    [LogLikelihoodBlock].  A mixture holds its components and its weights;
    its scratch vector [temp] is rebuilt by every [evaluate]. *)
#[warning="-register-all"] Inductive LogLikelihoodBlockPtr : Type :=
| BGaussian (b : GaussianBlock.t)
| BLogGamma (b : LogGammaBlock.t)
| BAmoroso (b : AmorosoBlock.t)
| BMixture (components : list LogLikelihoodBlockPtr) (weights : list double)
| BMultivariateGaussian (b : MultivariateGaussianBlock.t).

Module MixtureBlock.
(** [std::max_element]: the first largest element, [None] for [end()] on an
    empty range. *)
Definition max_element (l : list double) : option double :=
  match l with
  | [] => None
  | x :: xs => Some (fold_left (fun m y => if Rlt_dec m y then y else m) xs x)
  end.

(** [temp] has [weights.size()] zeros; the first loop of [evaluate] stores
    the components' values from its start and must not run past its end. *)
Definition fill_temp (weights values : list double) : result (list double) :=
  if Nat.ltb (List.length weights) (List.length values)
  then Fail UndefinedBehaviour
  else Ok (values ++ repeat 0 (List.length weights - List.length values)).

(** The second loop of [evaluate] and its last line. *)
Definition log_sum_exp (weights temp : list double) : result double :=
  match max_element temp with
  | None => Fail UndefinedBehaviour
  | Some max_val =>
      let ret_val :=
        fold_left (fun acc '(w, v) => acc + w * exp (v - max_val))
                  (combine weights temp) 0 in
      Ok (ln ret_val + max_val)
  end.

Definition evaluate_values (weights values : list double) : result double :=
  temp <- fill_temp weights values ;;
  log_sum_exp weights temp.
End MixtureBlock.

(** ** The mixture over IEEE 754 doubles

    [std::exp] and [std::log] of doubles are functions of the C library: they
    are parameters, and what a proof needs to know about them is a hypothesis
    of that proof. *)

Module MixtureBlockDouble.
Section WithLibm.
Variables std_exp std_log : float -> float.

(** [std::max_element] with [operator<] of doubles. *)
Definition max_element (l : list float) : option float :=
  match l with
  | [] => None
  | x :: xs => Some (fold_left (fun m y => if (m <? y)%float then y else m) xs x)
  end.

(** The second loop of [MixtureBlock::evaluate] and its last line, once
    [temp] holds the components' values. *)
Definition evaluate_values (weights temp : list float) : option float :=
  match max_element temp with
  | None => None
  | Some max_val =>
      let ret_val :=
        fold_left (fun acc '(w, v) => (acc + w * std_exp (v - max_val))%float)
                  (combine weights temp) 0%float in
      Some (std_log ret_val + max_val)%float
  end.
End WithLibm.
End MixtureBlockDouble.

Module LogLikelihoodBlock.
Section WithGSL.
Context {gsl : GSL} {rounding : Rounding}.

Fixpoint evaluate (h : Heap) (b : LogLikelihoodBlockPtr) : result double :=
  match b with
  | BGaussian g => Ok (GaussianBlock.evaluate h g)
  | BLogGamma l => Ok (LogGammaBlock.evaluate h l)
  | BAmoroso a => Ok (AmorosoBlock.evaluate h a)
  | BMixture components weights =>
      values <- (fix each (cs : list LogLikelihoodBlockPtr) : result (list double) :=
                   match cs with
                   | [] => Ok []
                   | c :: cs' => v <- evaluate h c ;; vs <- each cs' ;; Ok (v :: vs)
                   end) components ;;
      MixtureBlock.evaluate_values weights values
  | BMultivariateGaussian m => Ok (MultivariateGaussianBlock.evaluate h m)
  end.

Fixpoint number_of_observations (b : LogLikelihoodBlockPtr) : unsigned :=
  match b with
  | BGaussian g => GaussianBlock.number_of_observations g
  | BLogGamma l => LogGammaBlock.number_of_observations l
  | BAmoroso a => AmorosoBlock.number_of_observations a
  | BMixture components _ =>
      fold_left (fun ret_val c => wrap (ret_val + number_of_observations c))
                components 0%Z
  | BMultivariateGaussian m => MultivariateGaussianBlock.number_of_observations m
  end.

Definition sample (fuel : nat) (h : Heap) (b : LogLikelihoodBlockPtr)
    (rng : gsl_rng) : result (double * gsl_rng) :=
  match b with
  | BGaussian g => Ok (GaussianBlock.sample h g rng)
  | BLogGamma l => LogGammaBlock.sample fuel l rng
  | BAmoroso a => Ok (AmorosoBlock.sample a rng)
  | BMixture _ _ =>
      Fail (InternalError "LogLikelihoodBlock::MixtureBlock::sample() not implemented yet")
  | BMultivariateGaussian m => Ok (MultivariateGaussianBlock.sample m rng)
  end.

Fixpoint clone (h : Heap) (b : LogLikelihoodBlockPtr) (target : Handle)
  : result (LogLikelihoodBlockPtr * Heap) :=
  match b with
  | BGaussian g =>
      '(g', h') <- GaussianBlock.clone h g target ;; Ok (BGaussian g', h')
  | BLogGamma l =>
      '(l', h') <- LogGammaBlock.clone h l target ;; Ok (BLogGamma l', h')
  | BAmoroso a =>
      '(a', h') <- AmorosoBlock.clone h a target ;; Ok (BAmoroso a', h')
  | BMixture components weights =>
      '(clones, h') <-
        (fix each (h : Heap) (cs : list LogLikelihoodBlockPtr)
           : result (list LogLikelihoodBlockPtr * Heap) :=
           match cs with
           | [] => Ok ([], h)
           | c :: cs' =>
               '(c', h') <- clone h c target ;;
               '(cs'', h'') <- each h' cs' ;;
               Ok (c' :: cs'', h'')
           end) h components ;;
      Ok (BMixture clones weights, h')
  | BMultivariateGaussian m =>
      '(m', h') <- MultivariateGaussianBlock.clone h m target ;;
      Ok (BMultivariateGaussian m', h')
  end.

(** *** The factory functions *)

(** [if (std::abs(a->mode() - mode) > 1e-4) throw ...]: a comparison with a
    NaN is false, so a NaN mode passes the check; an infinite one does not. *)
Definition mode_deviates (computed : result double) (mode : double) : result unit :=
  match computed with
  | Ok m =>
      if Rgt_dec (Rabs (m - mode)) 1e-4
      then Fail (InternalError "LogLikelihood::Amoroso.ctor: For the current parameter values, Amoroso::mode() deviates from mode supplied")
      else Ok tt
  | Fail NotANumber => Ok tt
  | Fail Infinite =>
      Fail (InternalError "LogLikelihood::Amoroso.ctor: For the current parameter values, Amoroso::mode() deviates from mode supplied")
  | Fail f => Fail f
  end.

Definition Gaussian (h : Heap) (cache : Handle) (observable : Observable.t)
    (min central max : double) (number_of_observations : unsigned)
  : result (LogLikelihoodBlockPtr * Heap) :=
  if Rge_dec min central
  then Fail (InternalError "LogLikelihoodBlock::Gaussian: min value >= central value")
  else if Rle_dec max central
  then Fail (InternalError "LogLikelihoodBlock::Gaussian: max value <= central value")
  else
    let '(index, h') := cache_add h cache observable in
    Ok (BGaussian (GaussianBlock.make cache index min central max number_of_observations), h').

Definition LogGamma_fitted {solver : EquationSolver.Solver}
    (h : Heap) (cache : Handle) (observable : Observable.t)
    (min central max : double) (number_of_observations : unsigned)
  : result (LogLikelihoodBlockPtr * Heap) :=
  if Rge_dec min central
  then Fail (InternalError "LogLikelihoodBlock::LogGamma: min value >= central value")
  else if Rle_dec max central
  then Fail (InternalError "LogLikelihoodBlock::LogGamma: max value <= central value")
  else
    let '(index, h') := cache_add h cache observable in
    b <- LogGammaBlock.make_fitted cache index min central max number_of_observations ;;
    Ok (BLogGamma b, h').

Definition LogGamma (h : Heap) (cache : Handle) (observable : Observable.t)
    (min central max lambda alpha : double) (number_of_observations : unsigned)
  : result (LogLikelihoodBlockPtr * Heap) :=
  if Rge_dec min central
  then Fail (InternalError "LogLikelihoodBlock::LogGamma: min value >= central value")
  else if Rle_dec max central
  then Fail (InternalError "LogLikelihoodBlock::LogGamma: max value <= central value")
  else if Rle_dec alpha 0
  then Fail (InternalError "LogLikelihoodBlock::LogGamma: shape parameter alpha must be positive")
  else
    let '(index, h') := cache_add h cache observable in
    b <- LogGammaBlock.make cache index min central max lambda alpha number_of_observations ;;
    Ok (BLogGamma b, h').

Definition AmorosoLimit (h : Heap) (cache : Handle) (observable : Observable.t)
    (physical_limit upper_limit_90 upper_limit_95 theta alpha : double)
    (number_of_observations : unsigned)
  : result (LogLikelihoodBlockPtr * Heap) :=
  if Rle_dec upper_limit_90 physical_limit
  then Fail (InternalError "LogLikelihoodBlock::AmorosoLimit: upper_limit_90 <= physical_limit")
  else if Rle_dec upper_limit_95 physical_limit
  then Fail (InternalError "LogLikelihoodBlock::AmorosoLimit: upper_limit_95 <= physical_limit")
  else if Rle_dec upper_limit_95 upper_limit_90
  then Fail (InternalError "LogLikelihoodBlock::AmorosoLimit: upper_limit_95 <= upper_limit_90")
  else
    let '(index, h') := cache_add h cache observable in
    a <- AmorosoBlock.make cache index physical_limit theta alpha (1 / alpha)
           number_of_observations ;;
    cdf_90 <- AmorosoBlock.cdf a upper_limit_90 ;;
    if Rgt_dec (Rabs (cdf_90 - 0.90)) 1e-4
    then Fail (InternalError "LogLikelihood::AmorosoLimit.ctor: For the current parameter values, cdf(x_90) deviates from 90%.")
    else
      cdf_95 <- AmorosoBlock.cdf a upper_limit_95 ;;
      if Rgt_dec (Rabs (cdf_95 - 0.95)) 1e-4
      then Fail (InternalError "LogLikelihood::AmorosoLimit.ctor: For the current parameter values, cdf(x_95) deviates from 95%.")
      else Ok (BAmoroso a, h').

Definition AmorosoMode (h : Heap) (cache : Handle) (observable : Observable.t)
    (physical_limit mode upper_limit_90 upper_limit_95 theta alpha beta : double)
    (number_of_observations : unsigned)
  : result (LogLikelihoodBlockPtr * Heap) :=
  if Rle_dec mode physical_limit
  then Fail (InternalError "LogLikelihoodBlock::AmorosoLimit: upper_limit_5 <= physical_limit")
  else if Rle_dec upper_limit_90 physical_limit
  then Fail (InternalError "LogLikelihoodBlock::AmorosoLimit: upper_limit_90 <= physical_limit")
  else if Rle_dec upper_limit_95 upper_limit_90
  then Fail (InternalError "LogLikelihoodBlock::AmorosoLimit: upper_limit_95 <= upper_limit_90")
  else
    let '(index, h') := cache_add h cache observable in
    a <- AmorosoBlock.make cache index physical_limit theta alpha beta
           number_of_observations ;;
    passed <- mode_deviates (AmorosoBlock.mode a) mode ;;
    cdf_90 <- AmorosoBlock.cdf a upper_limit_90 ;;
    if Rgt_dec (Rabs (cdf_90 - 0.90)) 1e-4
    then Fail (InternalError "LogLikelihood::Amoroso.ctor: For the current parameter values, cdf(x_90) deviates from 90%.")
    else
      cdf_95 <- AmorosoBlock.cdf a upper_limit_95 ;;
      if Rgt_dec (Rabs (cdf_95 - 0.95)) 1e-4
      then Fail (InternalError "LogLikelihood::Amoroso.ctor: For the current parameter values, cdf(x_95) deviates from 95%.")
      else Ok (BAmoroso a, h').

Definition Amoroso_quantiles (h : Heap) (cache : Handle) (observable : Observable.t)
    (physical_limit upper_limit_10 upper_limit_50 upper_limit_90 theta alpha beta : double)
    (number_of_observations : unsigned)
  : result (LogLikelihoodBlockPtr * Heap) :=
  if Rle_dec upper_limit_10 physical_limit
  then Fail (InternalError "LogLikelihoodBlock::AmorosoLimit: upper_limit_10 <= physical_limit")
  else if Rle_dec upper_limit_50 physical_limit
  then Fail (InternalError "LogLikelihoodBlock::AmorosoLimit: upper_limit_50 <= physical_limit")
  else if Rle_dec upper_limit_90 upper_limit_50
  then Fail (InternalError "LogLikelihoodBlock::AmorosoLimit: upper_limit_90 <= upper_limit_50")
  else
    let '(index, h') := cache_add h cache observable in
    a <- AmorosoBlock.make cache index physical_limit theta alpha beta
           number_of_observations ;;
    cdf_10 <- AmorosoBlock.cdf a upper_limit_10 ;;
    if Rgt_dec (Rabs (cdf_10 - 0.10)) 1e-4
    then Fail (InternalError "LogLikelihood::Amoroso.ctor: For the current parameter values, cdf(x_10) deviates from 10%.")
    else
      cdf_50 <- AmorosoBlock.cdf a upper_limit_50 ;;
      if Rgt_dec (Rabs (cdf_50 - 0.50)) 1e-4
      then Fail (InternalError "LogLikelihood::Amoroso.ctor: For the current parameter values, cdf(x_50) deviates from 50%.")
      else
        cdf_90 <- AmorosoBlock.cdf a upper_limit_90 ;;
        if Rgt_dec (Rabs (cdf_90 - 0.90)) 1e-4
        then Fail (InternalError "LogLikelihood::Amoroso.ctor: For the current parameter values, cdf(x_90) deviates from 90%.")
        else Ok (BAmoroso a, h').

Definition Amoroso (h : Heap) (cache : Handle) (observable : Observable.t)
    (physical_limit theta alpha beta : double) (number_of_observations : unsigned)
  : result (LogLikelihoodBlockPtr * Heap) :=
  let '(index, h') := cache_add h cache observable in
  a <- AmorosoBlock.make cache index physical_limit theta alpha beta
         number_of_observations ;;
  Ok (BAmoroso a, h').

Definition Mixture (components : list LogLikelihoodBlockPtr) (weights : list double)
  : result LogLikelihoodBlockPtr :=
  if negb (Nat.eqb (List.length components) (List.length weights))
  then Fail (InternalError "LogLikelihoodBlock::Mixture(): components and weights don't match")
  else
    let sum := fold_left (fun sum w => sum + w) weights 0 in
    let norm_weights := map (fun w => 1 / sum * w) weights in
    Ok (BMixture components norm_weights).

Definition MultivariateGaussian (h : Heap) (cache : Handle)
    (observables : list Observable.t) (mean : gsl_vector) (covariance : gsl_matrix)
    (number_of_observations : unsigned)
  : result (LogLikelihoodBlockPtr * Heap) :=
  let '(indices, h') :=
    fold_left (fun '(indices, h) o =>
                 let '(i, h') := cache_add h cache o in (indices ++ [i], h'))
              observables ([], h) in
  b <- MultivariateGaussianBlock.make cache indices mean covariance
         number_of_observations ;;
  Ok (BMultivariateGaussian b, h').
End WithGSL.
End LogLikelihoodBlock.

(** ** Constraints and the likelihood *)

Module Constraint.
(** Modelled from the spec: the Constraint of eos/constraint.hh, a "(name,
    observables, blocks) triple". *)
Record t : Type := {
  name : string;
  observables : list Observable.t;
  blocks : list LogLikelihoodBlockPtr
}.
End Constraint.

Fixpoint foldM {A S : Type} (f : S -> A -> result S) (l : list A) (s : S)
  : result S :=
  match l with
  | [] => Ok s
  | x :: xs => s' <- f s x ;; foldM f xs s'
  end.

Module LogLikelihood.
(** [Implementation<LogLikelihood>] *)
Record t : Type := {
  parameters : Handle;
  cache : Handle;
  constraints : list Constraint.t
}.

Section WithGSL.
Context {gsl : GSL}.

(** The first pair of loops of [bootstrap_p_value]: blocks without
    observations are skipped. *)
Definition observed_statistic (h : Heap) (constraints : list Constraint.t)
  : result double :=
  foldM (fun t_obs c =>
           foldM (fun t_obs b =>
                    if Z.eqb (LogLikelihoodBlock.number_of_observations b) 0
                    then Ok t_obs
                    else v <- LogLikelihoodBlock.evaluate h b ;; Ok (t_obs + v))
                 (Constraint.blocks c) t_obs)
        constraints 0.

(** The body of the sampling loop: one simulated value of the likelihood. *)
Definition simulated_statistic (fuel : nat) (h : Heap)
    (constraints : list Constraint.t) (rng : gsl_rng)
  : result (double * gsl_rng) :=
  foldM (fun '(t, rng) c =>
           foldM (fun '(t, rng) b =>
                    '(v, rng') <- LogLikelihoodBlock.sample fuel h b rng ;;
                    Ok (t + v, rng'))
                 (Constraint.blocks c) (t, rng))
        constraints (0, rng).

(** [for (unsigned i = 0 ; i < datasets ; ++i)], with [remaining] iterations
    to go. *)
Fixpoint collect_samples (fuel : nat) (h : Heap) (constraints : list Constraint.t)
    (t_obs : double) (remaining : nat) (rng : gsl_rng) (n_low : unsigned)
  : result unsigned :=
  match remaining with
  | O => Ok n_low
  | S remaining' =>
      '(t, rng') <- simulated_statistic fuel h constraints rng ;;
      collect_samples fuel h constraints t_obs remaining' rng'
        (if Rlt_dec t t_obs then wrap (n_low + 1) else n_low)
  end.

Definition bootstrap_p_value (fuel : nat) (h : Heap) (L : t) (datasets : unsigned)
  : result (double * double) :=
  t_obs <- observed_statistic h (constraints L) ;;
  let rng := gsl_rng_set datasets in
  n_low <- collect_samples fuel h (constraints L) t_obs (Z.to_nat datasets) rng 0%Z ;;
  let p := to_double n_low / to_double datasets in
  let p_expected := to_double (wrap (n_low + 1)) / to_double (wrap (datasets + 2)) in
  let uncertainty :=
    sqrt (p_expected * (1 - p_expected) / to_double (wrap (datasets + 3))) in
  Ok (p, uncertainty).

Definition log_likelihood (h : Heap) (L : t) : result double :=
  foldM (fun result c =>
           foldM (fun result b =>
                    v <- LogLikelihoodBlock.evaluate h b ;; Ok (result + v))
                 (Constraint.blocks c) result)
        (constraints L) 0.
End WithGSL.
End LogLikelihood.

(** ** The observable factory (eos/observable.cc) *)

(** [std::string] operations, on the list of characters. *)
Module StdString.
Definition t : Type := list ascii.

(** [s.find(c, pos)] *)
Fixpoint find (c : ascii) (s : t) (pos : nat) : option nat :=
  match pos, s with
  | S pos', _ :: s' => option_map S (find c s' pos')
  | S _, [] => None
  | O, [] => None
  | O, a :: s' =>
      if Ascii.eqb a c then Some O else option_map S (find c s' O)
  end.

(** [s.rfind(c)] *)
Fixpoint rfind (c : ascii) (s : t) : option nat :=
  match s with
  | [] => None
  | a :: s' =>
      match rfind c s' with
      | Some i => Some (S i)
      | None => if Ascii.eqb a c then Some O else None
      end
  end.

(** [s.substr(pos, len)] and [s.substr(pos)] *)
Definition substr (s : t) (pos len : nat) : t := firstn len (skipn pos s).

Definition substr_from (s : t) (pos : nat) : t := skipn pos s.

(** [s.erase(pos)] *)
Definition erase (s : t) (pos : nat) : t := firstn pos s.
End StdString.

Module Options.
(** Modelled from the spec: the Options of eos/utils/options.hh, a store of
    key=value "option overrides".  [set] replaces the value of a key that is
    present and adds the key otherwise; [merge] is [operator+], the entries
    of the right operand set onto the left one. *)
Definition t : Type := list (string * string).

Fixpoint set (o : t) (key value : string) : t :=
  match o with
  | [] => [(key, value)]
  | (k, v) :: o' =>
      if String.eqb k key then (k, value) :: o' else (k, v) :: set o' key value
  end.

Definition merge (lhs rhs : t) : t :=
  fold_left (fun o '(k, v) => set o k v) rhs lhs.
End Options.

Definition Kinematics : Type := list (string * double).

(** The keys of the static map [simple_observables], in source order. *)
Definition simple_observables : list string := [
  "B_q->ll::BR";
  "B->K::f_+(s)@BZ2004v2";
  "B->K::f_T(s)@BZ2004v2";
  "B->K::f_0(s)@BZ2004v2";
  "B->K::f_+(s)@BZ2004v2Split";
  "B->K::f_T(s)@BZ2004v2Split";
  "B->K::f_0(s)@BZ2004v2Split";
  "B->K::f_+(s)@KMPW2010";
  "B->K::f_T(s)@KMPW2010";
  "B->K::f_0(s)@KMPW2010";
  "B->K::f_+(s)@BFW2010";
  "B->K::f_T(s)@BFW2010";
  "B->K::f_0(s)@BFW2010";
  "B->K^*::V(s)@BZ2004";
  "B->K^*::A_0(s)@BZ2004";
  "B->K^*::A_1(s)@BZ2004";
  "B->K^*::A_2(s)@BZ2004";
  "B->K^*::V(s)@KMPW2010";
  "B->K^*::A_0(s)@KMPW2010";
  "B->K^*::A_1(s)@KMPW2010";
  "B->K^*::A_2(s)@KMPW2010";
  "B_s->phi::V(s)@BZ2004";
  "B_s->phi::A_0(s)@BZ2004";
  "B_s->phi::A_1(s)@BZ2004";
  "B_s->phi::A_2(s)@BZ2004";
  "B->K^*gamma::BR";
  "B->K^*gamma::BRavg";
  "B->K^*gamma::S_K^*gamma";
  "B->K^*gamma::C_K^*gamma";
  "B->Kll::dBR/ds@LargeRecoil";
  "B->Kll::F_H(s)@LargeRecoil";
  "B->Kll::R_K(s)@LargeRecoil";
  "B->Kll::BR@LargeRecoil";
  "B->Kll::BRavg@LargeRecoil";
  "B->Kll::F_H@LargeRecoil";
  "B->Kll::R_K@LargeRecoil";
  "B->Kll::a_l@LargeRecoil";
  "B->Kll::c_l@LargeRecoil";
  "B->Kll::dBR/ds@LowRecoil";
  "B->Kll::F_H(s)@LowRecoil";
  "B->Kll::R_K(s)@LowRecoil";
  "B->Kll::BR@LowRecoil";
  "B->Kll::BRavg@LowRecoil";
  "B->Kll::F_H@LowRecoil";
  "B->Kll::R_K@LowRecoil";
  "B->Kll::a_CP^1@LowRecoil";
  "B->Kll::a_l@LowRecoil";
  "B->Kll::c_l@LowRecoil";
  "B->Kll::Re{c9eff}@LowRecoil";
  "B->Kll::Im{c9eff}@LowRecoil";
  "B->Kll::Re{c7eff}@LowRecoil";
  "B->Kll::Im{c7eff}@LowRecoil";
  "B->K^*ll::dBR/ds@LargeRecoil";
  "B->K^*ll::A_FB(s)@LargeRecoil";
  "B->K^*ll::A_T^2(s)@LargeRecoil";
  "B->K^*ll::A_T^3(s)@LargeRecoil";
  "B->K^*ll::A_T^4(s)@LargeRecoil";
  "B->K^*ll::A_T^5(s)@LargeRecoil";
  "B->K^*ll::A_T^re(s)@LargeRecoil";
  "B->K^*ll::A_T^im(s)@LargeRecoil";
  "B->K^*ll::F_L(s)@LargeRecoil";
  "B->K^*ll::J_1s(s)@LargeRecoil";
  "B->K^*ll::J_1c(s)@LargeRecoil";
  "B->K^*ll::J_2s(s)@LargeRecoil";
  "B->K^*ll::J_2c(s)@LargeRecoil";
  "B->K^*ll::J_3(s)@LargeRecoil";
  "B->K^*ll::J_4(s)@LargeRecoil";
  "B->K^*ll::J_5(s)@LargeRecoil";
  "B->K^*ll::J_6s(s)@LargeRecoil";
  "B->K^*ll::J_6c(s)@LargeRecoil";
  "B->K^*ll::J_7(s)@LargeRecoil";
  "B->K^*ll::J_8(s)@LargeRecoil";
  "B->K^*ll::J_9(s)@LargeRecoil";
  "B->K^*ll::A_FB@LargeRecoil";
  "B->K^*ll::A_FBavg@LargeRecoil";
  "B->K^*ll::BR@LargeRecoil";
  "B->K^*ll::BRavg@LargeRecoil";
  "B->K^*ll::F_L@LargeRecoil";
  "B->K^*ll::F_Lavg@LargeRecoil";
  "B->K^*ll::A_T^2@LargeRecoil";
  "B->K^*ll::A_T^2avg@LargeRecoil";
  "B->K^*ll::A_T^re@LargeRecoil";
  "B->K^*ll::A_T^im@LargeRecoil";
  "B->K^*ll::H_T^1(s)@LargeRecoil";
  "B->K^*ll::H_T^2(s)@LargeRecoil";
  "B->K^*ll::H_T^3(s)@LargeRecoil";
  "B->K^*ll::H_T^4(s)@LargeRecoil";
  "B->K^*ll::H_T^5(s)@LargeRecoil";
  "B->K^*ll::H_T^1@LargeRecoil";
  "B->K^*ll::H_T^2@LargeRecoil";
  "B->K^*ll::H_T^3@LargeRecoil";
  "B->K^*ll::H_T^4@LargeRecoil";
  "B->K^*ll::H_T^5@LargeRecoil";
  "B->K^*ll::s_0^A_FB@LargeRecoil";
  "B->K^*ll::J_1s@LargeRecoil";
  "B->K^*ll::J_1c@LargeRecoil";
  "B->K^*ll::J_2s@LargeRecoil";
  "B->K^*ll::J_2c@LargeRecoil";
  "B->K^*ll::J_3@LargeRecoil";
  "B->K^*ll::J_4@LargeRecoil";
  "B->K^*ll::J_5@LargeRecoil";
  "B->K^*ll::J_6s@LargeRecoil";
  "B->K^*ll::J_6c@LargeRecoil";
  "B->K^*ll::J_7@LargeRecoil";
  "B->K^*ll::J_8@LargeRecoil";
  "B->K^*ll::J_9@LargeRecoil";
  "B->K^*ll::d^4Gamma@LowRecoil";
  "B->K^*ll::dBR/ds@LowRecoil";
  "B->K^*ll::A_FB(s)@LowRecoil";
  "B->K^*ll::A_T^2(s)@LowRecoil";
  "B->K^*ll::A_T^3(s)@LowRecoil";
  "B->K^*ll::A_T^4(s)@LowRecoil";
  "B->K^*ll::A_T^re(s)@LowRecoil";
  "B->K^*ll::A_T^im(s)@LowRecoil";
  "B->K^*ll::F_L(s)@LowRecoil";
  "B->K^*ll::H_T^1(s)@LowRecoil";
  "B->K^*ll::H_T^2(s)@LowRecoil";
  "B->K^*ll::H_T^3(s)@LowRecoil";
  "B->K^*ll::H_T^4(s)@LowRecoil";
  "B->K^*ll::H_T^5(s)@LowRecoil";
  "B->K^*ll::J_1s(s)@LowRecoil";
  "B->K^*ll::J_1c(s)@LowRecoil";
  "B->K^*ll::J_2s(s)@LowRecoil";
  "B->K^*ll::J_2c(s)@LowRecoil";
  "B->K^*ll::J_3(s)@LowRecoil";
  "B->K^*ll::J_4(s)@LowRecoil";
  "B->K^*ll::J_5(s)@LowRecoil";
  "B->K^*ll::J_6s(s)@LowRecoil";
  "B->K^*ll::J_6c(s)@LowRecoil";
  "B->K^*ll::J_7(s)@LowRecoil";
  "B->K^*ll::J_8(s)@LowRecoil";
  "B->K^*ll::J_9(s)@LowRecoil";
  "B->K^*ll::rho_1(s)@LowRecoil";
  "B->K^*ll::rho_2(s)@LowRecoil";
  "B->K^*ll::A_FB@LowRecoil";
  "B->K^*ll::A_FBavg@LowRecoil";
  "B->K^*ll::Abar_FB@LowRecoil";
  "B->K^*ll::nA_FB@LowRecoil";
  "B->K^*ll::BR@LowRecoil";
  "B->K^*ll::BRavg@LowRecoil";
  "B->K^*ll::F_L@LowRecoil";
  "B->K^*ll::F_Lavg@LowRecoil";
  "B->K^*ll::nF_L@LowRecoil";
  "B->K^*ll::A_T^2@LowRecoil";
  "B->K^*ll::A_T^2avg@LowRecoil";
  "B->K^*ll::nA_T^2@LowRecoil";
  "B->K^*ll::A_T^3@LowRecoil";
  "B->K^*ll::nA_T^3@LowRecoil";
  "B->K^*ll::A_T^4@LowRecoil";
  "B->K^*ll::nA_T^4@LowRecoil";
  "B->K^*ll::A_T^re@LowRecoil";
  "B->K^*ll::A_T^im@LowRecoil";
  "B->K^*ll::H_T^1@LowRecoil";
  "B->K^*ll::nH_T^1@LowRecoil";
  "B->K^*ll::H_T^2@LowRecoil";
  "B->K^*ll::nH_T^2@LowRecoil";
  "B->K^*ll::H_T^3@LowRecoil";
  "B->K^*ll::nH_T^3@LowRecoil";
  "B->K^*ll::H_T^4@LowRecoil";
  "B->K^*ll::H_T^5@LowRecoil";
  "B->K^*ll::Re{Y}(s)@LowRecoil";
  "B->K^*ll::Im{Y}(s)@LowRecoil";
  "B->K^*ll::Re{C_9^eff}(s)@LowRecoil";
  "B->K^*ll::Im{C_9^eff}(s)@LowRecoil";
  "B->K^*ll::a_CP^1(s)@LowRecoil";
  "B->K^*ll::a_CP^2(s)@LowRecoil";
  "B->K^*ll::a_CP^3(s)@LowRecoil";
  "B->K^*ll::a_CP^mix(s)@LowRecoil";
  "B->K^*ll::a_CP^1@LowRecoil";
  "B->K^*ll::a_CP^2@LowRecoil";
  "B->K^*ll::a_CP^3@LowRecoil";
  "B->K^*ll::Gamma+Gammabar@LowRecoil";
  "B->K^*ll::Gamma-Gammabar@LowRecoil";
  "B->K^*ll::J_1s@LowRecoil";
  "B->K^*ll::J_1c@LowRecoil";
  "B->K^*ll::J_2s@LowRecoil";
  "B->K^*ll::J_2c@LowRecoil";
  "B->K^*ll::J_3@LowRecoil";
  "B->K^*ll::J_4@LowRecoil";
  "B->K^*ll::J_5@LowRecoil";
  "B->K^*ll::J_6s@LowRecoil";
  "B->K^*ll::J_6c@LowRecoil";
  "B->K^*ll::J_7@LowRecoil";
  "B->K^*ll::J_8@LowRecoil";
  "B->K^*ll::J_9@LowRecoil";
  "B->X_sll::dBR/ds@HLMW2005";
  "B->X_sll::BR@HLMW2005";
  "B->X_sgamma::BR@Minimal"
]%string.

Module ObservableFactory.
(** Modelled from the spec: what [ObservableFactory::make] of
    eos/utils/concrete_observable.hh is called with; the observable built
    from it is opaque. *)
Record made : Type := {
  name : string;
  parameters : Handle;
  kinematics : Kinematics;
  options : Options.t
}.
End ObservableFactory.

Definition comma : ascii := ","%char.

Definition equals_sign : ascii := "="%char.

(** The [while] loop of [Observable::make]: each turn erases the last comma
    and what follows it, so [fuel] above the length of [name] is never
    exhausted. *)
Fixpoint strip_options (fuel : nat) (_name : string) (name : StdString.t)
    (options : Options.t) : result (StdString.t * Options.t) :=
  match StdString.rfind comma name with
  | None => Ok (name, options)
  | Some pos =>
      match fuel with
      | O => Fail OutOfFuel
      | S fuel' =>
          match StdString.find equals_sign name (pos + 1) with
          | None => Fail (ObservableNameError _name)
          | Some sep =>
              let key := StdString.substr name (pos + 1) (sep - pos - 1) in
              let value := StdString.substr_from name (sep + 1) in
              strip_options fuel' _name (StdString.erase name pos)
                (Options.set options (string_of_list_ascii key)
                   (string_of_list_ascii value))
          end
      end
  end.

(** [Observable::make]: [None] is the null [ObservablePtr]. *)
Definition Observable_make (_name : string) (parameters : Handle)
    (kinematics : Kinematics) (_options : Options.t)
  : result (option ObservableFactory.made) :=
  let name := list_ascii_of_string _name in
  '(name, options) <- strip_options (S (List.length name)) _name name [] ;;
  let name := string_of_list_ascii name in
  if existsb (String.eqb name) simple_observables
  then Ok (Some {| ObservableFactory.name := name;
                   ObservableFactory.parameters := parameters;
                   ObservableFactory.kinematics := kinematics;
                   ObservableFactory.options := Options.merge options _options |})
  else Ok None.

(** ** The rest of the blocks' interface *)

Module TestStatistic.
(** The two test statistics of eos/statistics/test-statistic.hh that the
    blocks return. *)
Inductive t : Type :=
| ChiSquare (value : double)
| Empty.
End TestStatistic.

(** [GaussianBlock::primary_test_statistic]; [pow(x, 2)] is [x * x]. *)
Definition GaussianBlock_primary_test_statistic (h : Heap) (b : GaussianBlock.t)
  : TestStatistic.t :=
  let s := GaussianBlock.significance h b in
  TestStatistic.ChiSquare (s * s).

(** ** The public interface of [LogLikelihood] *)

Module LogLikelihoodInterface.
Section WithGSL.
Context {gsl : GSL}.

(** [LogLikelihood::add(observable, min, central, max, number_of_observations)] *)
Definition add (h : Heap) (L : LogLikelihood.t) (observable : Observable.t)
    (min central max : double) (number_of_observations : unsigned)
  : result (LogLikelihood.t * Heap) :=
  '(b, h') <- LogLikelihoodBlock.Gaussian h (LogLikelihood.cache L) observable
                min central max number_of_observations ;;
  Ok ({| LogLikelihood.parameters := LogLikelihood.parameters L;
         LogLikelihood.cache := LogLikelihood.cache L;
         LogLikelihood.constraints :=
           LogLikelihood.constraints L
           ++ [ {| Constraint.name := Observable.name observable;
                   Constraint.observables := [observable];
                   Constraint.blocks := [b] |} ] |}, h').

(** [LogLikelihood::add(constraint)]: every block is cloned onto the cache of
    the likelihood. *)
Definition add_constraint (h : Heap) (L : LogLikelihood.t) (constraint : Constraint.t)
  : result (LogLikelihood.t * Heap) :=
  '(blocks, h') <-
    foldM (fun '(blocks, h) b =>
             '(b', h') <- LogLikelihoodBlock.clone h b (LogLikelihood.cache L) ;;
             Ok (blocks ++ [b'], h'))
          (Constraint.blocks constraint) ([], h) ;;
  let observables := Constraint.observables constraint in
  Ok ({| LogLikelihood.parameters := LogLikelihood.parameters L;
         LogLikelihood.cache := LogLikelihood.cache L;
         LogLikelihood.constraints :=
           LogLikelihood.constraints L
           ++ [ {| Constraint.name := Constraint.name constraint;
                   Constraint.observables := observables;
                   Constraint.blocks := blocks |} ] |}, h').

(** [LogLikelihood::number_of_observations] *)
Definition number_of_observations (L : LogLikelihood.t) : unsigned :=
  fold_left (fun result c =>
               fold_left (fun result b =>
                            wrap (result + LogLikelihoodBlock.number_of_observations b))
                         (Constraint.blocks c) result)
            (LogLikelihood.constraints L) 0%Z.

(** [LogLikelihood::operator()]: the cache is updated, then the blocks are
    summed. *)
Definition call (h : Heap) (L : LogLikelihood.t) : result (double * Heap) :=
  let h' := cache_update h (LogLikelihood.cache L) in
  v <- LogLikelihood.log_likelihood h' L ;;
  Ok (v, h').
End WithGSL.
End LogLikelihoodInterface.

(** ** The functions that [LogGammaBlock::significance] hands to the root
    solver *)

Module LogGammaSignificance.
(** [LogGammaBlock::significance_function_f] *)
Definition significance_function_f (h : Heap) (b : LogGammaBlock.t) (x : double)
  : double :=
  let zp := (cache_get h (LogGammaBlock.cache b) (LogGammaBlock.id b)
             - LogGammaBlock.nu b) / LogGammaBlock.lambda b in
  let zm := (x - LogGammaBlock.nu b) / LogGammaBlock.lambda b in
  LogGammaBlock.alpha b * (zp - zm) - exp zp + exp zm.

(** [LogGammaBlock::significance_function_df] *)
Definition significance_function_df (b : LogGammaBlock.t) (x : double) : double :=
  let zm := (x - LogGammaBlock.nu b) / LogGammaBlock.lambda b in
  (exp zm - LogGammaBlock.alpha b) / LogGammaBlock.lambda b.

(** [LogGammaBlock::significance_function_fdf]: the pair [( *f, *df )]. *)
Definition significance_function_fdf (h : Heap) (b : LogGammaBlock.t) (x : double)
  : double * double :=
  let zp := (cache_get h (LogGammaBlock.cache b) (LogGammaBlock.id b)
             - LogGammaBlock.nu b) / LogGammaBlock.lambda b in
  let zm := (x - LogGammaBlock.nu b) / LogGammaBlock.lambda b in
  let f := LogGammaBlock.alpha b * (zp - zm) - exp zp + exp zm in
  let df := (exp zm - LogGammaBlock.alpha b) / LogGammaBlock.lambda b in
  (f, df).
End LogGammaSignificance.

(** ** Parameters: the implementation in src/utils/parameters.cc *)

(** What a call does: it returns, or it throws. *)
Inductive outcome (E A : Type) : Type :=
| Returns (a : A)
| Throws (e : E).

Arguments Returns {E A} a.
Arguments Throws {E A} e.

Module ParameterTemplate.
(** [Parameter::Template] *)
Record t : Type := {
  name : string;
  min : double;
  central : double;
  max : double
}.
End ParameterTemplate.

Definition template (name : string) (min central max : double)
  : ParameterTemplate.t :=
  {| ParameterTemplate.name := name;
     ParameterTemplate.min := min;
     ParameterTemplate.central := central;
     ParameterTemplate.max := max |}.

Module ParametersImplementation.
(** [UnknownParameterError], and an index past the end of
    [std::vector::operator[]], which is undefined behaviour. *)
Inductive error : Type :=
| UnknownParameterError (name : string)
| OutOfRange.

(** [Parameter::Data(const Parameter::Template & t)]: [value(t.central)]. *)
Definition Data_of (t : ParameterTemplate.t) : EosParameter.Data :=
  {| EosParameter.name := ParameterTemplate.name t;
     EosParameter.min := ParameterTemplate.min t;
     EosParameter.central := ParameterTemplate.central t;
     EosParameter.max := ParameterTemplate.max t;
     EosParameter.value := ParameterTemplate.central t |}.

(** The free store of the [Parameters::Data] objects: [new] returns an
    address that is not in use. *)
Record Store : Type := {
  data_at : Handle -> EosParameters.Data;
  next_free : Handle
}.

Definition update (st : Store) (p : Handle) (d : EosParameters.Data) : Store :=
  {| data_at := fun q => if Nat.eqb q p then d else data_at st q;
     next_free := next_free st |}.

(** [new Parameters::Data(d)] *)
Definition new_Data (st : Store) (d : EosParameters.Data) : Handle * Store :=
  (next_free st,
   {| data_at := fun q => if Nat.eqb q (next_free st) then d else data_at st q;
      next_free := S (next_free st) |}).

(** [Parameter] (a reserved word here): the shared pointer to the data, and an
    index into it. *)
Record ParameterObject : Type := {
  _parameters_data : Handle;
  _index : nat
}.

(** [std::map<std::string, unsigned>]: [find], and [m[key] = idx]. *)
Definition map_t : Type := list (string * nat).

Fixpoint map_find (m : map_t) (key : string) : option nat :=
  match m with
  | [] => None
  | (k, i) :: m' => if String.eqb k key then Some i else map_find m' key
  end.

Fixpoint map_assign (m : map_t) (key : string) (idx : nat) : map_t :=
  match m with
  | [] => [(key, idx)]
  | (k, i) :: m' =>
      if String.eqb k key then (k, idx) :: m' else (k, i) :: map_assign m' key idx
  end.

(** [Implementation<Parameters>] *)
Record t : Type := {
  parameters_data : Handle;
  parameters_map : map_t;
  parameters : list ParameterObject
}.

(** The loop of the constructor from an initializer list, from [idx] on.  The
    counter is an [unsigned]; lists of [2^32] templates or more are outside
    the model. *)
Fixpoint make_loop (p : Handle) (list : list ParameterTemplate.t) (idx : nat)
    (st : Store) (m : map_t) (ps : Datatypes.list ParameterObject)
  : Store * map_t * Datatypes.list ParameterObject :=
  match list with
  | [] => (st, m, ps)
  | i :: rest =>
      make_loop p rest (S idx)
        (update st p (data_at st p ++ [Data_of i]))
        (map_assign m (ParameterTemplate.name i) idx)
        (ps ++ [ {| _parameters_data := p; _index := idx |} ])
  end.

(** [Implementation(const std::initializer_list<Parameter::Template> &)] *)
Definition make (st : Store) (list : list ParameterTemplate.t) : t * Store :=
  let '(p, st) := new_Data st [] in
  let '(st, m, ps) := make_loop p list O st [] [] in
  ({| parameters_data := p; parameters_map := m; parameters := ps |}, st).

(** The loop of the copy constructor,
    [for (unsigned i = 0 ; i != parameters.size() ; ++i)], on the vector
    that it fills; [None] when the budget of iterations is used up. *)
Fixpoint copy_loop (fuel : nat) (p : Handle) (i : nat) (ps : list ParameterObject)
  : option (list ParameterObject) :=
  match fuel with
  | O => None
  | S fuel' =>
      if Nat.eqb i (List.length ps)
      then Some ps
      else copy_loop fuel' p (S i)
             (ps ++ [ {| _parameters_data := p; _index := i |} ])
  end.

(** [Implementation(const Implementation & other)]: the data are copied into
    a new object, the map is copied, and the vector is empty when the loop
    starts ([reserve] does not change its size). *)
Definition copy (fuel : nat) (st : Store) (other : t) : option (t * Store) :=
  let '(p, st) := new_Data st (data_at st (parameters_data other)) in
  match copy_loop fuel p O [] with
  | None => None
  | Some ps =>
      Some ({| parameters_data := p;
               parameters_map := parameters_map other;
               parameters := ps |}, st)
  end.

(** [Parameters::clone] *)
Definition clone (fuel : nat) (st : Store) (imp : t) : option (t * Store) :=
  copy fuel st imp.

(** [Parameters::operator[]] *)
Definition lookup (imp : t) (name : string) : outcome error ParameterObject :=
  match map_find (parameters_map imp) name with
  | None => Throws (UnknownParameterError name)
  | Some i => Returns {| _parameters_data := parameters_data imp; _index := i |}
  end.

(** [data[index].value = value] *)
Definition set_value (st : Store) (p : Handle) (index : nat) (value : double)
  : outcome error Store :=
  match nth_error (data_at st p) index with
  | None => Throws OutOfRange
  | Some d =>
      Returns
        (update st p
           (firstn index (data_at st p)
            ++ {| EosParameter.name := EosParameter.name d;
                  EosParameter.min := EosParameter.min d;
                  EosParameter.central := EosParameter.central d;
                  EosParameter.max := EosParameter.max d;
                  EosParameter.value := value |}
               :: skipn (S index) (data_at st p)))
  end.

(** [Parameters::set] *)
Definition set (st : Store) (imp : t) (name : string) (value : double)
  : outcome error Store :=
  match map_find (parameters_map imp) name with
  | None => Throws (UnknownParameterError name)
  | Some i => set_value st (parameters_data imp) i value
  end.

(** The range from [Parameters::begin] to [Parameters::end]. *)
Definition range (imp : t) : list ParameterObject := parameters imp.

(** [_parameters_data->data[_index]] *)
Definition data (st : Store) (q : ParameterObject) : outcome error EosParameter.Data :=
  match nth_error (data_at st (_parameters_data q)) (_index q) with
  | None => Throws OutOfRange
  | Some d => Returns d
  end.

Definition field {A : Type} (f : EosParameter.Data -> A) (st : Store) (q : ParameterObject)
  : outcome error A :=
  match data st q with
  | Returns d => Returns (f d)
  | Throws e => Throws e
  end.

(** [Parameter::operator double] and [Parameter::operator()] *)
Definition value : Store -> ParameterObject -> outcome error double :=
  field EosParameter.value.

(** [Parameter::operator=] *)
Definition assign (st : Store) (q : ParameterObject) (value : double)
  : outcome error Store :=
  set_value st (_parameters_data q) (_index q) value.

(** [Parameter::central], [Parameter::max], [Parameter::min] and
    [Parameter::name] *)
Definition central : Store -> ParameterObject -> outcome error double :=
  field EosParameter.central.

Definition max : Store -> ParameterObject -> outcome error double :=
  field EosParameter.max.

Definition min : Store -> ParameterObject -> outcome error double :=
  field EosParameter.min.

Definition name : Store -> ParameterObject -> outcome error string :=
  field EosParameter.name.

Local Open Scope string_scope.

(** The table of [Parameters::Defaults]; [M_PI] is [PI]. *)
Definition defaults_table : list ParameterTemplate.t :=
  [
    template "c1" (- 0.32300000) (- 0.32300000) (- 0.32300000);
    template "c2" 1.00931000 1.00931000 1.00931000;
    template "c3" (- 0.00522869) (- 0.00522869) (- 0.00522869);
    template "c4" (- 0.08794730) (- 0.08794730) (- 0.08794730);
    template "c5" 0.00037476 0.00037476 0.00037476;
    template "c6" 0.00105859 0.00105859 0.00105859;
    template "Abs{c7}" 0.331 0.331 0.331;
    template "Arg{c7}" PI PI PI;
    template "c8" (- 0.181) (- 0.181) (- 0.181);
    template "Abs{c9}" 4.27 4.27 4.27;
    template "Arg{c9}" 0.00 0.00 0.00;
    template "Abs{c10}" 4.17 4.17 4.17;
    template "Arg{c10}" PI PI PI;
    template "c7prime" 0.0 0.0 0.0;
    template "c9prime" 0.0 0.0 0.0;
    template "c10prime" 0.0 0.0 0.0;
    template "mu" 2.4 4.2 9.6;
    template "CKM::A" 0.793 0.814 0.835;
    template "CKM::lambda" 0.2247 0.2257 0.2266;
    template "CKM::rhobar" 0.119 0.135 0.166;
    template "CKM::etabar" 0.332 0.349 0.364;
    template "CKM::|V_cb|" 0.0404 0.0417 0.0430;
    template "QCD::alpha_s(MZ)" 0.117620 0.117620 0.117620;
    template "QCD::mu_t" 170.0 170.0 170.0;
    template "QCD::mu_b" 4.2 4.2 4.2;
    template "QCD::mu_c" 1.0 1.0 1.0;
    template "QCD::Lambda" 0.5 0.5 0.5;
    template "mass::b(MSbar)" 4.13 4.20 4.37;
    template "mass::c" 1.16 1.27 1.34;
    template "mass::s" 0.00 0.00 0.00;
    template "mass::t" 169.1 171.2 173.3;
    template "mass::e" 5.10999e-4 5.10999e-4 5.10999e-4;
    template "mass::mu" 1.05658e-1 1.05658e-1 1.05658e-1;
    template "mass::tau" 1.77667 1.77684 1.77701;
    template "mass::B0" 5.27920 5.27953 5.27986;
    template "mass::K0" 0.49759 0.49761 0.49764;
    template "mass::K^*0" 0.89575 0.896 0.89625;
    template "mass::W" 80.373 80.398 80.423;
    template "mass::Z" 91.1855 91.1876 91.1897;
    template "formfactors::a0_uncertainty" 0.85 1.0 1.15;
    template "formfactors::a1_uncertainty" 0.85 1.0 1.15;
    template "formfactors::a2_uncertainty" 0.85 1.0 1.15;
    template "formfactors::v_uncertainty" 0.85 1.0 1.15;
    template "formfactors::xi_perp_uncertainty" 0.89 1.0 1.11;
    template "formfactors::xi_par_uncertainty" 0.86 1.0 1.14;
    template "formfactors::fp_uncertainty" 0.85 1.0 1.15;
    template "formfactors::f0_uncertainty" 0.85 1.0 1.15;
    template "formfactors::ft_uncertainty" 0.85 1.0 1.15;
    template "f_B" 0.17 0.20 0.23;
    template "lambda_B_p" 0.370 0.485 0.600;
    template "B->K^*::a_1_par" 0.03 0.1 0.17;
    template "B->K^*::a_2_par" 0.0 0.1 0.2;
    template "B->K^*::a_1_perp" 0.03 0.1 0.17;
    template "B->K^*::a_2_perp" 0.0 0.1 0.2;
    template "B->K^*::f_Kstar_par" 0.212 0.217 0.222;
    template "B->K^*::f_Kstar_perp@2GeV" 0.168 0.173 0.178;
    template "B->K^*ll::A_0^L_uncertainty@LargeRecoil" 0.95 1.0 1.05;
    template "B->K^*ll::A_0^R_uncertainty@LargeRecoil" 0.95 1.0 1.05;
    template "B->K^*ll::A_par^L_uncertainty@LargeRecoil" 0.95 1.0 1.05;
    template "B->K^*ll::A_par^R_uncertainty@LargeRecoil" 0.95 1.0 1.05;
    template "B->K^*ll::A_perp^L_uncertainty@LargeRecoil" 0.95 1.0 1.05;
    template "B->K^*ll::A_perp^R_uncertainty@LargeRecoil" 0.95 1.0 1.05;
    template "B->Vll::Lambda_0@LowRecoil" (- 0.5) 0.0 0.5;
    template "B->Vll::Lambda_pa@LowRecoil" (- 0.5) 0.0 0.5;
    template "B->Vll::Lambda_pp@LowRecoil" (- 0.5) 0.0 0.5;
    template "B->Vll::sl_phase_0@LowRecoil" (- PI / 2) 0.0 (PI / 2);
    template "B->Vll::sl_phase_pa@LowRecoil" (- PI / 2) 0.0 (PI / 2);
    template "B->Vll::sl_phase_pp@LowRecoil" (- PI / 2) 0.0 (PI / 2);
    template "B->X_s::lambda_1" (- 0.20) (- 0.20) (- 0.20);
    template "B->X_s::lambda_2" 0.12 0.12 0.12;
    template "B->X_sgamma::uncertainty" (- 1.0) 0.0 1.0;
    template "exp::BR(B->X_clnu)" 0.1042 0.1057 0.1072;
    template "exp::C(B->X_clnu, B->X_ulnu)" 0.57 0.58 0.59;
    template "exp::CKM(B->X_sll, B->X_clnu)" 0.975218 0.98549 0.995277
  ].

Local Close Scope string_scope.

(** [Parameters::Defaults] *)
Definition Defaults (st : Store) : t * Store := make st defaults_table.
End ParametersImplementation.

(** ** SwitchOption (eos/utils/options-impl.hh) *)

(** The queries of [Options] and the [join] of eos/utils/join.hh that
    [SwitchOption] calls; they are external to the file, as GSL is. *)
Class OptionsQueries : Type := {
  (** [options.has(key)] *)
  Options_has : Options.t -> string -> bool;
  (** [options[key]] *)
  Options_index : Options.t -> string -> string;
  (** [options.get(key, default_value)] *)
  Options_get : Options.t -> string -> string -> string;
  (** [join(first, last)] *)
  join : list string -> string
}.

Module SwitchOption.
Inductive error : Type :=
| InternalError (what : string)
| UnspecifiedOptionError (key allowed : string)
| InvalidOptionValueError (key value allowed : string).

(** [class SwitchOption] *)
Record t : Type := { _value : string }.

Section WithOptions.
Context {queries : OptionsQueries}.

(** [std::find(allowed_values.begin(), allowed_values.end(), v)
     == allowed_values.end()] *)
Definition not_found (allowed_values : list string) (v : string) : bool :=
  negb (existsb (String.eqb v) allowed_values).

(** [SwitchOption(options, key, allowed_values)] *)
Definition make (options : Options.t) (key : string) (allowed_values : list string)
  : outcome error t :=
  match allowed_values with
  | [] => Throws (InternalError "SwitchOption: The list of allowed_values is empty")
  | _ :: _ =>
      if negb (Options_has options key)
      then Throws (UnspecifiedOptionError key (join allowed_values))
      else
        let _value := Options_index options key in
        if not_found allowed_values _value
        then Throws (InvalidOptionValueError key _value (join allowed_values))
        else Returns {| _value := _value |}
  end.

(** [SwitchOption(options, key, allowed_values, default_value)] *)
Definition make_with_default (options : Options.t) (key : string)
    (allowed_values : list string) (default_value : string) : outcome error t :=
  let _value := Options_get options key default_value in
  match allowed_values with
  | [] => Throws (InternalError "SwitchOption: The list of allowed_values is empty")
  | _ :: _ =>
      if not_found allowed_values default_value
      then Throws (InternalError
                     ("SwitchOption: The default value '" ++ default_value
                      ++ "'is not in the list of allowed values: '"
                      ++ join allowed_values ++ "'"))
      else if not_found allowed_values _value
      then Throws (InvalidOptionValueError key _value (join allowed_values))
      else Returns {| _value := _value |}
  end.

(** [SwitchOption::value] *)
Definition value (s : t) : string := _value s.
End WithOptions.
End SwitchOption.

(** ** Reference definitions used by the statements *)

(** What a checking constructor promises: an [InternalError], or a result
    with the stated property. *)
Definition throws_or {A : Type} (P : A -> Prop) (r : result A) : Prop :=
  match r with
  | Ok a => P a
  | Fail (InternalError _) => True
  | Fail _ => False
  end.

(** The sum of a list of reals. *)
Definition Rsum (l : list R) : R := fold_right Rplus 0 l.

(** The mixture density "computed in plain arithmetic": the logarithm of the
    weighted sum of the exponentials of the components' log-densities. *)
Definition plain_mixture (weights values : list R) : R :=
  ln (Rsum (map (fun '(w, l) => w * exp l) (combine weights values))).

(** The same over doubles: the sum is accumulated from [0] in the order of
    the components, as a loop would. *)
Definition plain_sum_double (std_exp : float -> float)
    (weights values : list float) : float :=
  fold_left (fun acc '(w, l) => (acc + w * std_exp l)%float)
            (combine weights values) 0%float.

Definition plain_mixture_double (std_exp std_log : float -> float)
    (weights values : list float) : float :=
  std_log (plain_sum_double std_exp weights values).

(** The values that IEEE 754 and Annex F of the C standard give to [exp] and
    [log] at the four arguments of the example below: [exp(0) = 1],
    [log(1) = 0], [log(0) = -inf], and [exp(-800) = 0], the result being
    below half of the smallest positive double. *)
Definition ieee_values (std_exp std_log : float -> float) : Prop :=
  std_exp 0%float = 1%float
  /\ std_exp (-800)%float = 0%float
  /\ std_log 1%float = 0%float
  /\ std_log 0%float = neg_infinity.

(** The diagonal matrix with the given diagonal. *)
Fixpoint diag (d : list R) : gsl_matrix :=
  match d with
  | [] => []
  | x :: d' => (x :: repeat 0 (List.length d')) :: map (cons 0) (diag d')
  end.

(** A heap in which every cached prediction with id [0] is [x]. *)
Definition heap_with_value (x : R) : Heap :=
  {| parameters_at := fun _ => [];
     cache_at := fun _ =>
       {| ObservableCache.parameters := O;
          ObservableCache.observables := [];
          ObservableCache.predictions := [x] |} |}.

(** The log-density of the symmetric univariate Gaussian of mean [mu] and
    standard deviation [sigma] at [x]: what [GaussianBlock::evaluate] returns
    for the block built from [mu - sigma], [mu], [mu + sigma] when the cached
    value is [x]. *)
Definition univariate_gaussian (sigma mu x : R) : R :=
  GaussianBlock.evaluate (heap_with_value x)
    (GaussianBlock.make O O (mu - sigma) mu (mu + sigma) 1%Z).

(** *** Option suffixes of an observable name *)

Definition no_comma (s : list ascii) : Prop := ~ In comma s.

(** The name made of a base and of its clauses. *)
Definition join_clauses (base : list ascii) (clauses : list (list ascii))
  : list ascii :=
  base ++ List.concat (map (cons comma) clauses).

(** A name is a base followed by the clauses that its commas introduce. *)
Fixpoint split_at_commas (s : list ascii) : list ascii * list (list ascii) :=
  match s with
  | [] => ([], [])
  | a :: s' =>
      let '(base, clauses) := split_at_commas s' in
      if Ascii.eqb a comma then ([], base :: clauses) else (a :: base, clauses)
  end.

(** A clause [key=value] is cut at its first equals sign. *)
Fixpoint split_at_equals (c : list ascii) : option (list ascii * list ascii) :=
  match c with
  | [] => None
  | a :: c' =>
      if Ascii.eqb a equals_sign then Some ([], c')
      else match split_at_equals c' with
           | Some (key, value) => Some (a :: key, value)
           | None => None
           end
  end.

(** All clauses, or [None] when one of them has no equals sign. *)
Fixpoint parse_clauses (clauses : list (list ascii))
  : option (list (string * string)) :=
  match clauses with
  | [] => Some []
  | c :: rest =>
      match split_at_equals c, parse_clauses rest with
      | Some (key, value), Some kvs =>
          Some ((string_of_list_ascii key, string_of_list_ascii value) :: kvs)
      | _, _ => None
      end
  end.

(** Recording the clauses from the right to the left. *)
Definition record_right_to_left (kvs : list (string * string)) (o : Options.t)
  : Options.t :=
  fold_right (fun '(key, value) o => Options.set o key value) o kvs.

(** What the factory contract says of [Observable::make]. *)
Definition Observable_make_contract (_name : string) (parameters : Handle)
    (kinematics : Kinematics) (_options : Options.t)
  : result (option ObservableFactory.made) :=
  let '(base, clauses) := split_at_commas (list_ascii_of_string _name) in
  match parse_clauses clauses with
  | None => Fail (ObservableNameError _name)
  | Some kvs =>
      let name := string_of_list_ascii base in
      if existsb (String.eqb name) simple_observables
      then Ok (Some {| ObservableFactory.name := name;
                       ObservableFactory.parameters := parameters;
                       ObservableFactory.kinematics := kinematics;
                       ObservableFactory.options :=
                         Options.merge (record_right_to_left kvs []) _options |})
      else Ok None
  end.

(** *** The bootstrap, as the specification words it *)

Section Bootstrap.
Context {gsl : GSL}.

Definition all_blocks (L : LogLikelihood.t) : list LogLikelihoodBlockPtr :=
  flat_map Constraint.blocks (LogLikelihood.constraints L).

(** A block supports [sample()] when the call returns a value from every
    state of the generator. *)
Definition supports_sample (fuel : nat) (h : Heap) (b : LogLikelihoodBlockPtr)
  : Prop :=
  forall rng, is_ok (LogLikelihoodBlock.sample fuel h b rng).

Definition evaluate_value (h : Heap) (b : LogLikelihoodBlockPtr) : R :=
  match LogLikelihoodBlock.evaluate h b with
  | Ok v => v
  | Fail _ => 0
  end.

Definition sample_value (fuel : nat) (h : Heap) (b : LogLikelihoodBlockPtr)
    (rng : gsl_rng) : R * gsl_rng :=
  match LogLikelihoodBlock.sample fuel h b rng with
  | Ok r => r
  | Fail _ => (0, rng)
  end.

Definition has_observations (b : LogLikelihoodBlockPtr) : bool :=
  negb (Z.eqb (LogLikelihoodBlock.number_of_observations b) 0).

(** The sum of [evaluate()] over the blocks whose observation count is
    nonzero. *)
Definition observed_total (h : Heap) (blocks : list LogLikelihoodBlockPtr) : R :=
  Rsum (map (evaluate_value h) (filter has_observations blocks)).

(** One toy total: the sum of [sample()] over the blocks, the generator
    passing from one block to the next. *)
Fixpoint toy_total (fuel : nat) (h : Heap) (blocks : list LogLikelihoodBlockPtr)
    (rng : gsl_rng) : R * gsl_rng :=
  match blocks with
  | [] => (0, rng)
  | b :: blocks' =>
      let '(v, rng') := sample_value fuel h b rng in
      let '(t, rng'') := toy_total fuel h blocks' rng' in
      (v + t, rng'')
  end.

(** The [n] toy totals drawn one after the other. *)
Fixpoint toy_totals (fuel : nat) (h : Heap) (blocks : list LogLikelihoodBlockPtr)
    (n : nat) (rng : gsl_rng) : list R :=
  match n with
  | O => []
  | S n' =>
      let '(t, rng') := toy_total fuel h blocks rng in
      t :: toy_totals fuel h blocks n' rng'
  end.

(** How many totals are strictly below [t_obs]. *)
Definition count_below (t_obs : R) (totals : list R) : Z :=
  Z.of_nat (List.length
              (filter (fun t => if Rlt_dec t t_obs then true else false) totals)).
End Bootstrap.

(** *** Cloning: the states and the blocks it is stated for *)

(** The cache slots that a block reads. *)
Fixpoint block_slots (b : LogLikelihoodBlockPtr)
  : list (Handle * ObservableCache.Id) :=
  match b with
  | BGaussian g => [(GaussianBlock.cache g, GaussianBlock.id g)]
  | BLogGamma l => [(LogGammaBlock.cache l, LogGammaBlock.id l)]
  | BAmoroso a => [(AmorosoBlock.cache a, AmorosoBlock.id a)]
  | BMixture components _ => flat_map block_slots components
  | BMultivariateGaussian m =>
      map (pair (MultivariateGaussianBlock._cache m))
          (MultivariateGaussianBlock._ids m)
  end.

(** Every cache of [s] holds the observables it held in [h], in the same
    slots, and possibly more; it is bound to the same parameters. *)
Definition caches_extend (h s : Heap) : Prop :=
  forall c,
    ObservableCache.parameters (cache_at s c)
    = ObservableCache.parameters (cache_at h c)
    /\ exists extra,
         ObservableCache.observables (cache_at s c)
         = ObservableCache.observables (cache_at h c) ++ extra.

(** Every cache of [s] has been updated since the last change of a
    parameter or of the cache. *)
Definition up_to_date (s : Heap) : Prop :=
  forall c,
    ObservableCache.predictions (cache_at s c)
    = map (observable_evaluate s) (ObservableCache.observables (cache_at s c)).

(** The parameters that the observables of [b] are bound to hold the same
    values as the parameters of the cache [target]. *)
Definition identical_parameters (s : Heap) (b : LogLikelihoodBlockPtr)
    (target : Handle) : Prop :=
  forall c id o,
    In (c, id) (block_slots b) ->
    ObservableCache.observable (cache_at s c) id = Some o ->
    parameters_at s (Observable.parameters o)
    = parameters_at s (ObservableCache.parameters (cache_at s target)).

Section Constructed.
Context {gsl : GSL}.

Definition slot_registered (h : Heap) (c : Handle) (id : ObservableCache.Id)
  : Prop :=
  exists o, ObservableCache.observable (cache_at h c) id = Some o.

(** A block that passes the checks of its constructor: the constructor, given
    the fields of the block, accepts them and returns the block; and the
    observables of the block are registered in its cache.  For a LogGamma
    block the constructor is the one with explicit [lambda] and [alpha]: the
    fitting constructor checks nothing, and a block it returns after a failed
    fit is not [constructed]. *)
Fixpoint constructed (h : Heap) (b : LogLikelihoodBlockPtr) : Prop :=
  match b with
  | BGaussian g =>
      slot_registered h (GaussianBlock.cache g) (GaussianBlock.id g)
      /\ GaussianBlock.make (GaussianBlock.cache g) (GaussianBlock.id g)
           (GaussianBlock.mode g - GaussianBlock.sigma_lower g)
           (GaussianBlock.mode g)
           (GaussianBlock.mode g + GaussianBlock.sigma_upper g)
           (GaussianBlock._number_of_observations g) = g
  | BLogGamma l =>
      slot_registered h (LogGammaBlock.cache l) (LogGammaBlock.id l)
      /\ LogGammaBlock.make (LogGammaBlock.cache l) (LogGammaBlock.id l)
           (LogGammaBlock.central l - LogGammaBlock.sigma_lower l)
           (LogGammaBlock.central l)
           (LogGammaBlock.central l + LogGammaBlock.sigma_upper l)
           (LogGammaBlock.lambda l) (LogGammaBlock.alpha l)
           (LogGammaBlock._number_of_observations l) = Ok l
  | BAmoroso a =>
      slot_registered h (AmorosoBlock.cache a) (AmorosoBlock.id a)
      /\ AmorosoBlock.make (AmorosoBlock.cache a) (AmorosoBlock.id a)
           (AmorosoBlock.physical_limit a) (AmorosoBlock.theta a)
           (AmorosoBlock.alpha a) (AmorosoBlock.beta a)
           (AmorosoBlock._number_of_observations a) = Ok a
  | BMixture components _ =>
      (fix each (cs : list LogLikelihoodBlockPtr) : Prop :=
         match cs with
         | [] => True
         | c :: cs' => constructed h c /\ each cs'
         end) components
  | BMultivariateGaussian m =>
      Forall (slot_registered h (MultivariateGaussianBlock._cache m))
             (MultivariateGaussianBlock._ids m)
      /\ MultivariateGaussianBlock.make (MultivariateGaussianBlock._cache m)
           (MultivariateGaussianBlock._ids m) (MultivariateGaussianBlock._mean m)
           (MultivariateGaussianBlock._covariance m)
           (MultivariateGaussianBlock._number_of_observations m) = Ok m
  end.

(** What [clone] achieves for a block. *)
Definition clone_correct (h : Heap) (b : LogLikelihoodBlockPtr) (target : Handle)
  : Prop :=
  exists b' h',
    LogLikelihoodBlock.clone h b target = Ok (b', h')
    /\ caches_extend h h'
    /\ forall s,
         caches_extend h' s -> up_to_date s -> identical_parameters s b target ->
         LogLikelihoodBlock.evaluate s b' = LogLikelihoodBlock.evaluate s b.
End Constructed.

(** ** Further reference definitions *)

(** The name [name,key=value]. *)
Definition with_option (name key value : string) : string :=
  (name ++ "," ++ key ++ "=" ++ value)%string.

(** The index of the last template of the list that has the given name,
    counting from [idx]. *)
Fixpoint last_index (list : list ParameterTemplate.t) (name : string) (idx : nat)
  : option nat :=
  match list with
  | [] => None
  | t :: rest =>
      match last_index rest name (S idx) with
      | Some j => Some j
      | None => if String.eqb (ParameterTemplate.name t) name then Some idx else None
      end
  end.

(** Every index of the map of a parameter set is an index of its data. *)
Definition well_formed (st : ParametersImplementation.Store)
    (imp : ParametersImplementation.t) : Prop :=
  forall name i,
    ParametersImplementation.map_find
      (ParametersImplementation.parameters_map imp) name = Some i ->
    (i < List.length
           (ParametersImplementation.data_at st
              (ParametersImplementation.parameters_data imp)))%nat.

(** Whether the strings of a list are pairwise different. *)
Fixpoint distinct_strings (l : list string) : bool :=
  match l with
  | [] => true
  | x :: l' => negb (existsb (String.eqb x) l') && distinct_strings l'
  end.

(** ** Concrete inputs used by the examples below *)

Definition example_observable : Observable.t :=
  {| Observable.name := "B_q->ll::BR";
     Observable.function := fun _ => 1;
     Observable.parameters := O |}.

Definition empty_cache : ObservableCache.Data :=
  {| ObservableCache.parameters := O;
     ObservableCache.observables := [];
     ObservableCache.predictions := [] |}.

Definition example_heap : Heap :=
  {| parameters_at := fun _ => [];
     cache_at := fun _ => empty_cache |}.

(** The diagonal of a square matrix. *)
Definition diagonal_of (m : gsl_matrix) : list double :=
  map (fun '(i, row) => nth i row 0) (combine (seq 0 (List.length m)) m).

Definition all_positive (l : list double) : bool :=
  forallb (fun x => if Rlt_dec 0 x then true else false) l.

(** An instance of the GSL interface that is exact where the examples use it:
    [Q(a, x) = exp (- x)] is the regularized incomplete gamma function at
    [a = 1], and the linear algebra is that of diagonal matrices. *)
Definition example_gsl : GSL :=
  {| gsl_rng := nat;
     gsl_rng_set := Z.to_nat;
     gsl_rng_uniform := fun n => (/ 2, S n);
     gsl_ran_gamma := fun n a b => (a * b, S n);
     gsl_ran_ugaussian := fun n => (0, S n);
     gsl_cdf_gaussian_P := fun _ _ => / 2;
     gsl_cdf_gaussian_Pinv := fun _ _ => 0;
     gsl_cdf_ugaussian_Pinv := fun p => p - / 2;
     gsl_sf_lngamma := fun _ => 0;
     gsl_sf_gamma_inc_Q := fun _ x => exp (- x);
     gsl_sf_gamma_inc_Q_e := fun _ x => (GSL_SUCCESS, exp (- x));
     gsl_linalg_cholesky_decomp := map (map sqrt);
     gsl_linalg_cholesky_decomp_status :=
       fun m => if all_positive (diagonal_of m) then GSL_SUCCESS else GSL_EDOM;
     gsl_linalg_cholesky_invert := map (map (fun x => / (x * x)));
     gsl_linalg_LU_decomp := fun m => m;
     gsl_linalg_LU_lndet :=
       fun m => ln (Rabs (fold_right Rmult 1 (diagonal_of m)));
     gsl_root_fsolver := (R * R)%type;
     gsl_root_fsolver_set := fun _ a b => (a, b);
     gsl_root_fsolver_iterate := fun _ s => s;
     gsl_root_fsolver_root := fun s => (fst s + snd s) / 2;
     gsl_root_fsolver_x_lower := fst;
     gsl_root_fsolver_x_upper := snd;
     gsl_root_test_interval := fun _ _ _ _ => GSL_SUCCESS |}.

(** Doubles in which the cancellations asked about come out as zero. *)
Definition example_rounding : Rounding :=
  {| cancels_below := fun _ _ => false |}.

(** A solver whose search stops at the point [(lambda, alpha)] without
    converging: the solution is not valid, and its value is the constraint
    function at that point. *)
Definition stalled_solver (lambda alpha : double) : EquationSolver.Solver :=
  {| EquationSolver.solve := fun _ constraint =>
       value <- constraint [lambda; alpha] ;;
       Ok {| EquationSolver.valid := false;
             EquationSolver.value := value;
             EquationSolver.parameters := [lambda; alpha] |} |}.

Definition example_gaussian : GaussianBlock.t :=
  GaussianBlock.make O O 0.9 1 1.2 1%Z.

Definition example_components : list LogLikelihoodBlockPtr :=
  [BGaussian example_gaussian; BGaussian example_gaussian].

Definition example_sigmas : list R := [1; 2].

Definition example_mean : list R := [0; 3].

(** A likelihood with one constraint, made of one Gaussian block. *)
Definition example_constraint : Constraint.t :=
  {| Constraint.name := "B_q->ll::BR";
     Constraint.observables := [example_observable];
     Constraint.blocks := [BGaussian example_gaussian] |}.

Definition example_likelihood : LogLikelihood.t :=
  {| LogLikelihood.parameters := O;
     LogLikelihood.cache := O;
     LogLikelihood.constraints := [example_constraint] |}.

(** The example heap after the registration of [example_observable] on the
    cache [0], with the caches up to date. *)
Definition registered_heap : Heap :=
  {| parameters_at := fun _ => [];
     cache_at := fun _ =>
       {| ObservableCache.parameters := O;
          ObservableCache.observables := [example_observable];
          ObservableCache.predictions := [1] |} |}.

(** A likelihood whose only block is a mixture. *)
Definition example_mixture_likelihood : LogLikelihood.t :=
  {| LogLikelihood.parameters := O;
     LogLikelihood.cache := O;
     LogLikelihood.constraints :=
       [ {| Constraint.name := "B_q->ll::BR";
            Constraint.observables := [example_observable];
            Constraint.blocks := [BMixture example_components [/ 4; 3 / 4]] |} ] |}.

(** A LogGamma block with [nu = central - lambda * ln alpha], as both
    constructors set it. *)
Definition example_loggamma : LogGammaBlock.t :=
  {| LogGammaBlock.cache := O;
     LogGammaBlock.id := O;
     LogGammaBlock.central := 1;
     LogGammaBlock.sigma_lower := 1;
     LogGammaBlock.sigma_upper := 2;
     LogGammaBlock.nu := 1 - 1 * ln 1;
     LogGammaBlock.lambda := 1;
     LogGammaBlock.alpha := 1;
     LogGammaBlock.norm := 0;
     LogGammaBlock._number_of_observations := 1%Z |}.

(** A store in which nothing is allocated, and a set of two parameters. *)
Definition empty_store : ParametersImplementation.Store :=
  {| ParametersImplementation.data_at := fun _ => [];
     ParametersImplementation.next_free := O |}.

Definition example_templates : list ParameterTemplate.t :=
  [template "mu" 2.4 4.2 9.6; template "mass::c" 1.16 1.27 1.34].

Definition example_parameters : ParametersImplementation.t :=
  fst (ParametersImplementation.make empty_store example_templates).

Definition example_store : ParametersImplementation.Store :=
  snd (ParametersImplementation.make empty_store example_templates).

(** * Properties *)

(** ** The Gaussian block *)

Lemma Gaussian_factory_ok h cache observable min central max n :
  min < central -> central < max ->
  LogLikelihoodBlock.Gaussian h cache observable min central max n =
  Ok (BGaussian
        (GaussianBlock.make cache
           (List.length (ObservableCache.observables (cache_at h cache)))
           min central max n),
      snd (cache_add h cache observable)).
Proof.
  intros Hlo Hhi. unfold LogLikelihoodBlock.Gaussian.
  destruct (Rge_dec min central) as [Hge | _]; [lra |].
  destruct (Rle_dec max central) as [Hle | _]; [lra |].
  reflexivity.
Qed.

(** C4. A Gaussian block built with [min < central < max] evaluates to
    [norm - chi^2 / 2] with [chi = (value - mode) / sigma], where [sigma] is
    [sigma_upper] when the cached value exceeds the mode and [sigma_lower]
    otherwise; at [value = mode] the result is [norm] itself. *)
Theorem Gaussian_evaluate_spec h cache observable min central max n :
  min < central -> central < max ->
  exists g h',
    LogLikelihoodBlock.Gaussian h cache observable min central max n
    = Ok (BGaussian g, h')
    /\ GaussianBlock.mode g = central
    /\ GaussianBlock.sigma_lower g = central - min
    /\ GaussianBlock.sigma_upper g = max - central
    /\ forall s : Heap,
         let value := cache_get s (GaussianBlock.cache g) (GaussianBlock.id g) in
         let chi sigma := (value - GaussianBlock.mode g) / sigma in
         (value > GaussianBlock.mode g ->
          LogLikelihoodBlock.evaluate s (BGaussian g)
          = Ok (GaussianBlock.norm g
                - power_of_2 (chi (GaussianBlock.sigma_upper g)) / 2))
         /\ (value <= GaussianBlock.mode g ->
             LogLikelihoodBlock.evaluate s (BGaussian g)
             = Ok (GaussianBlock.norm g
                   - power_of_2 (chi (GaussianBlock.sigma_lower g)) / 2))
         /\ (value = GaussianBlock.mode g ->
             LogLikelihoodBlock.evaluate s (BGaussian g)
             = Ok (GaussianBlock.norm g)).
Proof.
  intros Hlo Hhi.
  eexists. eexists.
  split; [apply Gaussian_factory_ok; assumption |].
  repeat split; intros; simpl; unfold GaussianBlock.evaluate; simpl.
  - destruct (Rgt_dec _ central) as [_ | Hn]; [reflexivity | contradiction].
  - destruct (Rgt_dec _ central) as [Hgt | _]; [| reflexivity].
    exfalso. simpl in *. lra.
  - simpl in H. rewrite H.
    replace (central - central) with 0 by ring.
    destruct (Rgt_dec central central) as [Hgt | _]; [lra |].
    f_equal. unfold power_of_2. unfold Rdiv. ring.
Qed.

Lemma Gaussian_evaluate_spec_witness :
  exists g h',
    LogLikelihoodBlock.Gaussian example_heap O example_observable 0.9 1 1.2 1%Z
    = Ok (BGaussian g, h')
    /\ GaussianBlock.mode g = 1
    /\ GaussianBlock.sigma_lower g = 1 - 0.9
    /\ GaussianBlock.sigma_upper g = 1.2 - 1
    /\ forall s : Heap,
         let value := cache_get s (GaussianBlock.cache g) (GaussianBlock.id g) in
         let chi sigma := (value - GaussianBlock.mode g) / sigma in
         (value > GaussianBlock.mode g ->
          LogLikelihoodBlock.evaluate s (BGaussian g)
          = Ok (GaussianBlock.norm g
                - power_of_2 (chi (GaussianBlock.sigma_upper g)) / 2))
         /\ (value <= GaussianBlock.mode g ->
             LogLikelihoodBlock.evaluate s (BGaussian g)
             = Ok (GaussianBlock.norm g
                   - power_of_2 (chi (GaussianBlock.sigma_lower g)) / 2))
         /\ (value = GaussianBlock.mode g ->
             LogLikelihoodBlock.evaluate s (BGaussian g)
             = Ok (GaussianBlock.norm g)).
Proof.
  apply (Gaussian_evaluate_spec example_heap O example_observable 0.9 1 1.2 1%Z); lra.
Defined.

(** ** Construction checks *)

Ltac case_guards :=
  repeat match goal with
         | |- context [if ?c then _ else _] => destruct c
         end.

Lemma Amoroso_make_inv {gsl : GSL} cache id pl theta alpha beta n b :
  AmorosoBlock.make cache id pl theta alpha beta n = Ok b ->
  0 < theta /\ 0 < alpha /\ 0 < beta
  /\ AmorosoBlock.cache b = cache /\ AmorosoBlock.id b = id
  /\ AmorosoBlock.physical_limit b = pl /\ AmorosoBlock.theta b = theta
  /\ AmorosoBlock.alpha b = alpha /\ AmorosoBlock.beta b = beta
  /\ AmorosoBlock._number_of_observations b = n.
Proof.
  unfold AmorosoBlock.make.
  destruct (Rle_dec theta 0); [discriminate |].
  destruct (Rle_dec alpha 0); [discriminate |].
  destruct (Rle_dec beta 0); [discriminate |].
  intros H. injection H as <-. simpl. repeat split; lra.
Qed.

Lemma throws_or_bind {A B : Type} (P : B -> Prop) (r : result A) (k : A -> result B) :
  throws_or (fun _ => True) r ->
  (forall a, r = Ok a -> throws_or P (k a)) ->
  throws_or P (bind r k).
Proof.
  destruct r as [a | f]; simpl; intros Hr Hk.
  - apply Hk. reflexivity.
  - destruct f; simpl in *; auto.
Qed.

Lemma Amoroso_make_throws_or {gsl : GSL} cache id pl theta alpha beta n :
  throws_or (fun _ => True) (AmorosoBlock.make cache id pl theta alpha beta n).
Proof. unfold AmorosoBlock.make. case_guards; simpl; exact I. Qed.

Lemma std_pow_checked_pos x y : 0 < x -> std_pow_checked x y = Ok (Rpower x y).
Proof.
  intros Hx. unfold std_pow_checked, std_pow.
  destruct (Rlt_dec x 0); [lra |].
  destruct (Req_dec_T x 0); [lra | reflexivity].
Qed.

Lemma gsl_sf_gamma_inc_Q_in_domain_ok {gsl : GSL} a x :
  0 <= a -> 0 <= x ->
  gsl_sf_gamma_inc_Q_in_domain a x = Ok (gsl_sf_gamma_inc_Q a x).
Proof.
  intros Ha Hx. unfold gsl_sf_gamma_inc_Q_in_domain.
  destruct (Rlt_dec a 0); [lra |].
  destruct (Rlt_dec x 0); [lra | reflexivity].
Qed.

(** Above the physical limit, for positive [theta], [alpha] and [beta], the
    Weibull transform has a positive base and [cdf] is computed. *)
Lemma Amoroso_cdf_above_limit {gsl : GSL} (b : AmorosoBlock.t) x :
  0 < AmorosoBlock.theta b -> 0 < AmorosoBlock.alpha b -> 0 < AmorosoBlock.beta b ->
  AmorosoBlock.physical_limit b < x ->
  AmorosoBlock.cdf b x
  = Ok (1 - gsl_sf_gamma_inc_Q (AmorosoBlock.alpha b)
              (Rpower ((x - AmorosoBlock.physical_limit b) / AmorosoBlock.theta b)
                      (AmorosoBlock.beta b))).
Proof.
  intros Ht Ha Hb Hx. unfold AmorosoBlock.cdf.
  assert (Hbase : 0 < (x - AmorosoBlock.physical_limit b) / AmorosoBlock.theta b)
    by (apply Rdiv_lt_0_compat; lra).
  rewrite std_pow_checked_pos by exact Hbase. cbn [bind].
  assert (Hratio : 0 < AmorosoBlock.beta b / AmorosoBlock.theta b)
    by (apply Rdiv_lt_0_compat; assumption).
  destruct (Rlt_dec _ 0); [lra |].
  rewrite gsl_sf_gamma_inc_Q_in_domain_ok;
    [reflexivity | lra | unfold Rpower; left; apply exp_pos].
Qed.

Lemma Amoroso_cdf_above_limit_made {gsl : GSL} cache id pl theta alpha beta n a x :
  AmorosoBlock.make cache id pl theta alpha beta n = Ok a ->
  pl < x ->
  AmorosoBlock.cdf a x
  = Ok (1 - gsl_sf_gamma_inc_Q alpha (Rpower ((x - pl) / theta) beta)).
Proof.
  intros Hmake Hx.
  destruct (Amoroso_make_inv _ _ _ _ _ _ _ _ Hmake)
    as (Ht & Ha & Hb & _ & _ & Hpl & Htheta & Halpha & Hbeta & _).
  rewrite Amoroso_cdf_above_limit; rewrite ?Hpl, ?Htheta, ?Halpha, ?Hbeta;
    try assumption.
  reflexivity.
Qed.

(** What the mode check of [AmorosoMode] can do: pass, or throw. *)
Lemma mode_deviates_throws_or {rounding : Rounding} (a : AmorosoBlock.t) (mode : R) :
  throws_or (fun _ => True)
    (LogLikelihoodBlock.mode_deviates (AmorosoBlock.mode a) mode).
Proof.
  unfold AmorosoBlock.mode, std_pow_checked, LogLikelihoodBlock.mode_deviates.
  case_guards; simpl; case_guards; simpl; exact I.
Qed.

(** C2. Every calibrated constructor either throws or returns a block whose
    [cdf] is computed at each supplied quantile and meets it within [1e-4]:
    [AmorosoLimit] at the 90% and 95% limits, the [LogGamma] constructor with
    explicit [lambda] and [alpha] on the interval
    [central - sigma_lower, central + sigma_upper], and likewise
    [AmorosoMode] (90%, 95%) and the three-quantile [Amoroso]
    (10%, 50%, 90%). *)
Theorem calibrated_constructors_meet_quantiles {gsl : GSL} {rounding : Rounding} :
  (forall h cache o pl ul90 ul95 theta alpha n,
      throws_or
        (fun r => exists a c90 c95,
                  fst r = BAmoroso a
                  /\ AmorosoBlock.cdf a ul90 = Ok c90
                  /\ AmorosoBlock.cdf a ul95 = Ok c95
                  /\ Rabs (c90 - 0.90) <= 1e-4
                  /\ Rabs (c95 - 0.95) <= 1e-4)
        (LogLikelihoodBlock.AmorosoLimit h cache o pl ul90 ul95 theta alpha n))
  /\ (forall h cache o min central max lambda alpha n,
      throws_or
        (fun r => exists b, fst r = BLogGamma b
                  /\ LogGammaBlock.central b = central
                  /\ LogGammaBlock.sigma_lower b = central - min
                  /\ LogGammaBlock.sigma_upper b = max - central
                  /\ Rabs (LogGammaBlock.cdf b (LogGammaBlock.central b + LogGammaBlock.sigma_upper b)
                           - LogGammaBlock.cdf b (LogGammaBlock.central b - LogGammaBlock.sigma_lower b)
                           - 0.68268949213708585) <= 1e-4)
        (LogLikelihoodBlock.LogGamma h cache o min central max lambda alpha n))
  /\ (forall h cache o pl mode ul90 ul95 theta alpha beta n,
      throws_or
        (fun r => exists a c90 c95,
                  fst r = BAmoroso a
                  /\ AmorosoBlock.cdf a ul90 = Ok c90
                  /\ AmorosoBlock.cdf a ul95 = Ok c95
                  /\ Rabs (c90 - 0.90) <= 1e-4
                  /\ Rabs (c95 - 0.95) <= 1e-4)
        (LogLikelihoodBlock.AmorosoMode h cache o pl mode ul90 ul95 theta alpha beta n))
  /\ (forall h cache o pl ul10 ul50 ul90 theta alpha beta n,
      throws_or
        (fun r => exists a c10 c50 c90,
                  fst r = BAmoroso a
                  /\ AmorosoBlock.cdf a ul10 = Ok c10
                  /\ AmorosoBlock.cdf a ul50 = Ok c50
                  /\ AmorosoBlock.cdf a ul90 = Ok c90
                  /\ Rabs (c10 - 0.10) <= 1e-4
                  /\ Rabs (c50 - 0.50) <= 1e-4
                  /\ Rabs (c90 - 0.90) <= 1e-4)
        (LogLikelihoodBlock.Amoroso_quantiles h cache o pl ul10 ul50 ul90 theta alpha beta n)).
Proof.
  repeat split; intros.
  - unfold LogLikelihoodBlock.AmorosoLimit.
    destruct (Rle_dec ul90 pl); [exact I |].
    destruct (Rle_dec ul95 pl); [exact I |].
    destruct (Rle_dec ul95 ul90); [exact I |].
    destruct (cache_add h cache o) as [index h'].
    apply throws_or_bind; [apply Amoroso_make_throws_or |].
    intros a Hmake.
    pose proof (Amoroso_cdf_above_limit_made _ _ _ _ _ _ _ _ ul90 Hmake) as E90.
    pose proof (Amoroso_cdf_above_limit_made _ _ _ _ _ _ _ _ ul95 Hmake) as E95.
    rewrite E90 by lra. cbn [bind].
    destruct (Rgt_dec _ _) as [| H90]; [exact I |].
    rewrite E95 by lra. cbn [bind].
    destruct (Rgt_dec _ _) as [| H95]; [exact I |].
    simpl. exists a. eexists. eexists.
    split; [reflexivity |].
    split; [apply E90; lra |]. split; [apply E95; lra |].
    split; lra.
  - unfold LogLikelihoodBlock.LogGamma.
    destruct (Rge_dec min central); [exact I |].
    destruct (Rle_dec max central); [exact I |].
    destruct (Rle_dec alpha 0); [exact I |].
    destruct (cache_add h cache o) as [index h'].
    unfold LogGammaBlock.make.
    destruct (Rgt_dec _ _) as [| H68]; [exact I |].
    destruct (Rgt_dec _ _) as [| Hpdf]; [exact I |].
    simpl. eexists. split; [reflexivity |].
    unfold LogGammaBlock.cdf. simpl.
    unfold LogGammaBlock.one_sigma_coverage, LogGammaBlock.eps in H68.
    repeat split; lra.
  - unfold LogLikelihoodBlock.AmorosoMode.
    destruct (Rle_dec mode pl); [exact I |].
    destruct (Rle_dec ul90 pl); [exact I |].
    destruct (Rle_dec ul95 ul90); [exact I |].
    destruct (cache_add h cache o) as [index h'].
    apply throws_or_bind; [apply Amoroso_make_throws_or |].
    intros a Hmake.
    apply throws_or_bind; [apply mode_deviates_throws_or |].
    intros passed _.
    pose proof (Amoroso_cdf_above_limit_made _ _ _ _ _ _ _ _ ul90 Hmake) as E90.
    pose proof (Amoroso_cdf_above_limit_made _ _ _ _ _ _ _ _ ul95 Hmake) as E95.
    rewrite E90 by lra. cbn [bind].
    destruct (Rgt_dec _ _) as [| H90]; [exact I |].
    rewrite E95 by lra. cbn [bind].
    destruct (Rgt_dec _ _) as [| H95]; [exact I |].
    simpl. exists a. eexists. eexists.
    split; [reflexivity |].
    split; [apply E90; lra |]. split; [apply E95; lra |].
    split; lra.
  - unfold LogLikelihoodBlock.Amoroso_quantiles.
    destruct (Rle_dec ul10 pl); [exact I |].
    destruct (Rle_dec ul50 pl); [exact I |].
    destruct (Rle_dec ul90 ul50); [exact I |].
    destruct (cache_add h cache o) as [index h'].
    apply throws_or_bind; [apply Amoroso_make_throws_or |].
    intros a Hmake.
    pose proof (Amoroso_cdf_above_limit_made _ _ _ _ _ _ _ _ ul10 Hmake) as E10.
    pose proof (Amoroso_cdf_above_limit_made _ _ _ _ _ _ _ _ ul50 Hmake) as E50.
    pose proof (Amoroso_cdf_above_limit_made _ _ _ _ _ _ _ _ ul90 Hmake) as E90.
    rewrite E10 by lra. cbn [bind].
    destruct (Rgt_dec _ _) as [| H10]; [exact I |].
    rewrite E50 by lra. cbn [bind].
    destruct (Rgt_dec _ _) as [| H50]; [exact I |].
    rewrite E90 by lra. cbn [bind].
    destruct (Rgt_dec _ _) as [| H90]; [exact I |].
    simpl. exists a. eexists. eexists. eexists.
    split; [reflexivity |].
    split; [apply E10; lra |]. split; [apply E50; lra |]. split; [apply E90; lra |].
    repeat split; lra.
Qed.

(** ** Construction of a mixture *)

Lemma Mixture_factory_unfold components weights :
  LogLikelihoodBlock.Mixture components weights =
  if Nat.eqb (List.length components) (List.length weights)
  then Ok (BMixture components
             (map (fun w => 1 / fold_left Rplus weights 0 * w) weights))
  else Fail (InternalError "LogLikelihoodBlock::Mixture(): components and weights don't match").
Proof.
  unfold LogLikelihoodBlock.Mixture.
  destruct (Nat.eqb _ _); reflexivity.
Qed.

(** C3, as the code has it: [Mixture] throws exactly when the numbers of
    components and of weights differ; otherwise the block is built with
    every weight multiplied by [1 / sum], whatever the components and the
    sum are. *)
Theorem Mixture_factory_spec components weights :
  LogLikelihoodBlock.Mixture components weights =
  if Nat.eqb (List.length components) (List.length weights)
  then Ok (BMixture components
             (map (fun w => 1 / fold_left Rplus weights 0 * w) weights))
  else Fail (InternalError "LogLikelihoodBlock::Mixture(): components and weights don't match").
Proof. apply Mixture_factory_unfold. Qed.

(** C3 fails as stated: an empty mixture and a mixture whose weights sum to
    zero are both constructed without an error; and [evaluate] of the empty
    mixture dereferences [end()], which is no configuration error either. *)
Lemma Mixture_accepts_empty_and_zero_weights :
  LogLikelihoodBlock.Mixture [] [] = Ok (BMixture [] [])
  /\ ~ throws (LogLikelihoodBlock.Mixture [] [])
  /\ (forall h, LogLikelihoodBlock.evaluate h (BMixture [] [])
                = Fail UndefinedBehaviour)
  /\ (forall g : GaussianBlock.t,
        is_ok (LogLikelihoodBlock.Mixture [BGaussian g] [0])
        /\ ~ throws (LogLikelihoodBlock.Mixture [BGaussian g] [0])).
Proof.
  repeat split; simpl; auto.
Qed.

(** ** The Amoroso block *)

Lemma std_pow_pos x y : 0 < x -> std_pow x y = Rpower x y.
Proof.
  intros Hx. unfold std_pow.
  destruct (Req_dec_T x 0) as [E | _]; [lra | reflexivity].
Qed.


Lemma std_pow_pos_pos x y : 0 < x -> 0 < std_pow x y.
Proof.
  intros Hx. rewrite std_pow_pos by assumption. unfold Rpower. apply exp_pos.
Qed.

Lemma std_pow_monotone x x' y :
  0 < y -> 0 < x <= x' -> std_pow x y <= std_pow x' y.
Proof.
  intros Hy [Hx Hxx'].
  rewrite !std_pow_pos by lra.
  apply Rle_Rpower_l; lra.
Qed.

(** C9. A constructed Amoroso block has [theta > 0] and [beta > 0], so
    [beta / theta < 0] never holds; above the physical limit its [cdf] is
    computed and is [1 - Q(alpha, ((x - physical_limit) / theta) ^ beta)],
    and it is non-decreasing there as soon as [Q(alpha, .)] is
    non-increasing, as the regularized upper incomplete gamma function is. *)
Theorem Amoroso_cdf_is_lower_incomplete_gamma {gsl : GSL}
    cache id pl theta alpha beta n b :
  AmorosoBlock.make cache id pl theta alpha beta n = Ok b ->
  (forall a u v, 0 < a -> 0 < u <= v ->
                 gsl_sf_gamma_inc_Q a v <= gsl_sf_gamma_inc_Q a u) ->
  ~ (AmorosoBlock.beta b / AmorosoBlock.theta b < 0)
  /\ (forall x, AmorosoBlock.physical_limit b < x ->
        AmorosoBlock.cdf b x
        = Ok (1 - gsl_sf_gamma_inc_Q (AmorosoBlock.alpha b)
                    (Rpower ((x - AmorosoBlock.physical_limit b) / AmorosoBlock.theta b)
                            (AmorosoBlock.beta b))))
  /\ (forall x y, AmorosoBlock.physical_limit b < x -> x <= y ->
        exists cdf_x cdf_y,
          AmorosoBlock.cdf b x = Ok cdf_x
          /\ AmorosoBlock.cdf b y = Ok cdf_y
          /\ cdf_x <= cdf_y).
Proof.
  intros Hmake HQ.
  destruct (Amoroso_make_inv _ _ _ _ _ _ _ _ Hmake)
    as (Ht & Ha & Hb & _ & _ & Hpl & Htheta & Halpha & Hbeta & _).
  assert (Hcdf : forall x, AmorosoBlock.physical_limit b < x ->
            AmorosoBlock.cdf b x
            = Ok (1 - gsl_sf_gamma_inc_Q (AmorosoBlock.alpha b)
                        (Rpower ((x - AmorosoBlock.physical_limit b)
                                 / AmorosoBlock.theta b)
                                (AmorosoBlock.beta b)))).
  { intros x Hx. apply Amoroso_cdf_above_limit;
      rewrite ?Htheta, ?Halpha, ?Hbeta; assumption. }
  rewrite Hpl, Htheta, Halpha, Hbeta in *.
  assert (Hratio : 0 < beta / theta) by (apply Rdiv_lt_0_compat; assumption).
  split; [lra |].
  assert (Hbase : forall x, pl < x -> 0 < (x - pl) / theta).
  { intros x Hx. apply Rdiv_lt_0_compat; lra. }
  split; [exact Hcdf |].
  intros x y Hx Hxy.
  eexists. eexists.
  split; [apply Hcdf; exact Hx |].
  split; [apply Hcdf; lra |].
  apply Rplus_le_compat_l, Ropp_le_contravar, HQ; [assumption |].
  split; [unfold Rpower; apply exp_pos |].
  apply Rle_Rpower_l; [lra |].
  split; [auto |].
  unfold Rdiv. apply Rmult_le_compat_r; [left; apply Rinv_0_lt_compat; assumption | lra].
Qed.

Lemma example_Q_antitone a u v :
  0 < a -> 0 < u <= v ->
  @gsl_sf_gamma_inc_Q example_gsl a v <= @gsl_sf_gamma_inc_Q example_gsl a u.
Proof.
  intros _ [_ Huv]. simpl.
  destruct (Req_dec_T u v) as [-> | Hne]; [lra |].
  left. apply exp_increasing. lra.
Qed.

Lemma Amoroso_cdf_is_lower_incomplete_gamma_witness :
  let b := {| AmorosoBlock.cache := O; AmorosoBlock.id := O;
              AmorosoBlock.physical_limit := 0; AmorosoBlock.theta := 1;
              AmorosoBlock.alpha := 1; AmorosoBlock.beta := 1;
              AmorosoBlock.norm :=
                -1 * @gsl_sf_lngamma example_gsl 1 + ln (Rabs (1 / 1));
              AmorosoBlock._number_of_observations := 1%Z |} in
  ~ (AmorosoBlock.beta b / AmorosoBlock.theta b < 0)
  /\ (forall x, AmorosoBlock.physical_limit b < x ->
        @AmorosoBlock.cdf example_gsl b x
        = Ok (1 - @gsl_sf_gamma_inc_Q example_gsl (AmorosoBlock.alpha b)
                    (Rpower ((x - AmorosoBlock.physical_limit b) / AmorosoBlock.theta b)
                            (AmorosoBlock.beta b))))
  /\ (forall x y, AmorosoBlock.physical_limit b < x -> x <= y ->
        exists cdf_x cdf_y,
          @AmorosoBlock.cdf example_gsl b x = Ok cdf_x
          /\ @AmorosoBlock.cdf example_gsl b y = Ok cdf_y
          /\ cdf_x <= cdf_y).
Proof.
  intros b.
  apply (@Amoroso_cdf_is_lower_incomplete_gamma example_gsl O O 0 1 1 1 1%Z b).
  - unfold AmorosoBlock.make.
    destruct (Rle_dec 1 0); [lra |]. reflexivity.
  - exact example_Q_antitone.
Defined.



Lemma AmorosoLimit_inv {gsl : GSL} h cache o pl ul90 ul95 theta alpha n blk h' :
  LogLikelihoodBlock.AmorosoLimit h cache o pl ul90 ul95 theta alpha n = Ok (blk, h') ->
  exists a,
    blk = BAmoroso a
    /\ AmorosoBlock.make cache (fst (cache_add h cache o)) pl theta alpha (1 / alpha) n
       = Ok a.
Proof.
  unfold LogLikelihoodBlock.AmorosoLimit.
  destruct (Rle_dec ul90 pl); [discriminate |].
  destruct (Rle_dec ul95 pl); [discriminate |].
  destruct (Rle_dec ul95 ul90); [discriminate |].
  destruct (cache_add h cache o) as [index h0]. simpl.
  destruct (AmorosoBlock.make cache index pl theta alpha (1 / alpha) n) as [a | f];
    simpl; [| discriminate].
  destruct (AmorosoBlock.cdf a ul90) as [c90 |]; simpl; [| discriminate].
  destruct (Rgt_dec _ _); [discriminate |].
  destruct (AmorosoBlock.cdf a ul95) as [c95 |]; simpl; [| discriminate].
  destruct (Rgt_dec _ _); [discriminate |].
  intros H. injection H as <- _. exists a. split; reflexivity.
Qed.










(** ** Evaluation of a mixture *)

Lemma fold_left_Rplus_acc (l : list R) (a : R) :
  fold_left Rplus l a = a + Rsum l.
Proof.
  revert a. induction l as [| x l IH]; intros a; simpl.
  - lra.
  - rewrite IH. unfold Rsum. simpl. lra.
Qed.

Lemma fold_left_Rplus_Rsum (l : list R) : fold_left Rplus l 0 = Rsum l.
Proof. rewrite fold_left_Rplus_acc. lra. Qed.

Lemma Rsum_scale (c : R) (l : list R) :
  Rsum (map (fun w => c * w) l) = c * Rsum l.
Proof.
  induction l as [| x l IH]; unfold Rsum in *; simpl; [lra |].
  rewrite IH. lra.
Qed.

Lemma mapM_length {A B : Type} (f : A -> result B) l l' :
  mapM f l = Ok l' -> List.length l' = List.length l.
Proof.
  revert l'. induction l as [| x l IH]; intros l' H; simpl in H.
  - injection H as <-. reflexivity.
  - destruct (f x); simpl in H; [| discriminate].
    destruct (mapM f l) as [ys |]; simpl in H; [| discriminate].
    injection H as <-. simpl. f_equal. apply IH. reflexivity.
Qed.

Lemma evaluate_mixture h components weights :
  LogLikelihoodBlock.evaluate h (BMixture components weights)
  = bind (mapM (LogLikelihoodBlock.evaluate h) components)
         (MixtureBlock.evaluate_values weights).
Proof.
  simpl. f_equal.
  induction components as [| c cs IH]; simpl; [reflexivity |].
  rewrite IH. reflexivity.
Qed.

Lemma fill_temp_same_length weights values :
  List.length values = List.length weights ->
  MixtureBlock.fill_temp weights values = Ok values.
Proof.
  intros Hlen. unfold MixtureBlock.fill_temp.
  rewrite Hlen, Nat.ltb_irrefl, Nat.sub_diag. simpl.
  rewrite app_nil_r. reflexivity.
Qed.

(** The accumulation loop, against the sum it computes. *)
Lemma weighted_sum_shifted (m : R) (wv : list (R * R)) (acc : R) :
  fold_left (fun acc '(w, v) => acc + w * exp (v - m)) wv acc
  = acc + exp (- m) * Rsum (map (fun '(w, l) => w * exp l) wv).
Proof.
  revert acc. induction wv as [| [w v] wv IH]; intros acc; simpl.
  - unfold Rsum. simpl. lra.
  - rewrite IH. unfold Rsum. simpl.
    unfold Rminus. rewrite exp_plus. lra.
Qed.

Lemma weighted_exp_nonneg (ws vs : list R) :
  Forall (fun w => 0 <= w) ws ->
  0 <= Rsum (map (fun '(w, l) => w * exp l) (combine ws vs)).
Proof.
  intros Hws. revert vs.
  induction Hws as [| w ws Hw Hws IH]; intros vs; [simpl; unfold Rsum; simpl; lra |].
  destruct vs as [| v vs]; [unfold Rsum; simpl; lra |].
  unfold Rsum in *. simpl.
  specialize (IH vs). pose proof (exp_pos v). nra.
Qed.

Lemma weighted_exp_pos (ws vs : list R) :
  Forall (fun w => 0 <= w) ws ->
  0 < Rsum ws ->
  List.length vs = List.length ws ->
  0 < Rsum (map (fun '(w, l) => w * exp l) (combine ws vs)).
Proof.
  intros Hws. revert vs.
  induction Hws as [| w ws Hw Hws IH]; intros vs Hpos Hlen.
  - unfold Rsum in Hpos. simpl in Hpos. lra.
  - destruct vs as [| v vs]; [discriminate |].
    simpl in Hlen. injection Hlen as Hlen.
    unfold Rsum in *. simpl in *.
    pose proof (exp_pos v) as Hv.
    pose proof (weighted_exp_nonneg ws vs Hws) as Hrest. unfold Rsum in Hrest.
    destruct (Rle_lt_dec w 0) as [Hw0 | Hwpos].
    + assert (w = 0) by lra. subst w.
      specialize (IH vs). rewrite Rmult_0_l, Rplus_0_l.
      apply IH; [lra | assumption].
    + nra.
Qed.

Lemma log_sum_exp_plain (ws vs : list R) :
  Forall (fun w => 0 <= w) ws ->
  0 < Rsum ws ->
  List.length vs = List.length ws ->
  MixtureBlock.log_sum_exp ws vs = Ok (plain_mixture ws vs).
Proof.
  intros Hws Hpos Hlen.
  unfold MixtureBlock.log_sum_exp.
  destruct vs as [| v vs].
  { destruct ws; [| discriminate]. unfold Rsum in Hpos. simpl in Hpos. lra. }
  unfold MixtureBlock.max_element.
  set (m := fold_left _ vs v).
  rewrite weighted_sum_shifted, Rplus_0_l.
  pose proof (weighted_exp_pos ws (v :: vs) Hws Hpos Hlen) as HS.
  unfold plain_mixture.
  rewrite ln_mult by (auto using exp_pos).
  rewrite ln_exp. f_equal. lra.
Qed.

Lemma fold_left_shifted_acc (m : R) (wv : list (R * R)) (acc : R) :
  fold_left (fun acc '(w, v) => acc + w * exp (v - m)) wv acc
  = acc + Rsum (map (fun '(w, l) => w * exp (l - m)) wv).
Proof.
  revert acc. induction wv as [| [w v] wv IH]; intros acc; simpl.
  - unfold Rsum. simpl. lra.
  - rewrite IH. unfold Rsum. simpl. lra.
Qed.

Lemma fold_left_Rplus_shifted (m : R) (wv : list (R * R)) :
  fold_left (fun acc '(w, v) => acc + w * exp (v - m)) wv 0
  = Rsum (map (fun '(w, l) => w * exp (l - m)) wv).
Proof. rewrite fold_left_shifted_acc. lra. Qed.

(** [std::max_element] returns an element that no element exceeds. *)
Lemma max_element_fold_spec (xs : list R) (x : R) :
  let m := fold_left (fun m y => if Rlt_dec m y then y else m) xs x in
  (m = x \/ In m xs) /\ x <= m /\ Forall (fun l => l <= m) xs.
Proof.
  revert x. induction xs as [| y xs IH]; intros x; simpl.
  - split; [left; reflexivity |]. split; [lra | constructor].
  - destruct (Rlt_dec x y) as [Hlt | Hge].
    + destruct (IH y) as (Hin & Hle & Hall).
      split; [destruct Hin as [-> | Hin]; right; [left; reflexivity | right; exact Hin] |].
      split; [lra |]. constructor; assumption.
    + destruct (IH x) as (Hin & Hle & Hall).
      split; [destruct Hin as [Hm | Hin]; [left; exact Hm | right; right; exact Hin] |].
      split; [exact Hle |]. constructor; [lra | exact Hall].
Qed.

Lemma max_element_spec (l : list R) (m : R) :
  MixtureBlock.max_element l = Some m ->
  In m l /\ Forall (fun v => v - m <= 0) l.
Proof.
  destruct l as [| x xs]; simpl; [discriminate |].
  intros H. injection H as <-.
  destruct (max_element_fold_spec xs x) as (Hin & Hle & Hall).
  split.
  - destruct Hin as [-> | Hin]; [left; reflexivity | right; exact Hin].
  - constructor; [lra |].
    eapply Forall_impl; [| exact Hall]. simpl. intros v Hv. lra.
Qed.

(** C5, as the code has it.  For a mixture built by the factory from
    non-negative weights with a positive sum, the stored weights are
    non-negative and sum to 1; [evaluate] subtracts the largest of the
    components' values [l_i] before it exponentiates, so that every exponent
    is at most [0]; and over the reals the value it returns,
    [ln (sum_i w_i * exp (l_i - max)) + max], is [ln (sum_i w_i * exp l_i)]. *)
Theorem Mixture_evaluate_is_plain_log_sum
    (h : Heap) (components : list LogLikelihoodBlockPtr)
    (raw_weights values : list R) (blk : LogLikelihoodBlockPtr) :
  LogLikelihoodBlock.Mixture components raw_weights = Ok blk ->
  Forall (fun w => 0 <= w) raw_weights ->
  0 < Rsum raw_weights ->
  mapM (LogLikelihoodBlock.evaluate h) components = Ok values ->
  exists weights max_val,
    blk = BMixture components weights
    /\ Forall (fun w => 0 <= w) weights
    /\ Rsum weights = 1
    /\ MixtureBlock.max_element values = Some max_val
    /\ In max_val values
    /\ Forall (fun l => l - max_val <= 0) values
    /\ MixtureBlock.evaluate_values weights values
       = Ok (ln (Rsum (map (fun '(w, l) => w * exp (l - max_val))
                           (combine weights values)))
             + max_val)
    /\ LogLikelihoodBlock.evaluate h blk = Ok (plain_mixture weights values).
Proof.
  intros Hbuilt Hnonneg Hpos Hvalues.
  rewrite Mixture_factory_unfold in Hbuilt.
  destruct (Nat.eqb _ _) eqn:Hlen; [| discriminate].
  apply Nat.eqb_eq in Hlen.
  injection Hbuilt as <-.
  rewrite fold_left_Rplus_Rsum.
  set (weights := map (fun w => 1 / Rsum raw_weights * w) raw_weights).
  assert (Hc : 0 < 1 / Rsum raw_weights) by (apply Rdiv_lt_0_compat; lra).
  assert (Hw : Forall (fun w => 0 <= w) weights).
  { unfold weights. apply Forall_map.
    eapply Forall_impl; [| exact Hnonneg]. simpl. intros w Hw0. nra. }
  assert (Hsum : Rsum weights = 1).
  { unfold weights. rewrite Rsum_scale. field. lra. }
  assert (Hl : List.length values = List.length weights).
  { unfold weights. rewrite length_map, <- Hlen. eapply mapM_length; eassumption. }
  destruct (MixtureBlock.max_element values) as [max_val |] eqn:Hmax.
  2:{ destruct values; [| discriminate].
      destruct weights; [| discriminate].
      unfold Rsum in Hsum. simpl in Hsum. lra. }
  destruct (max_element_spec values max_val Hmax) as [Hin Hall].
  exists weights, max_val.
  split; [reflexivity |]. split; [exact Hw |]. split; [exact Hsum |].
  split; [reflexivity |]. split; [exact Hin |]. split; [exact Hall |].
  split.
  - unfold MixtureBlock.evaluate_values.
    rewrite fill_temp_same_length by assumption. cbn [bind].
    unfold MixtureBlock.log_sum_exp. rewrite Hmax.
    rewrite fold_left_Rplus_shifted. reflexivity.
  - rewrite evaluate_mixture, Hvalues. simpl.
    unfold MixtureBlock.evaluate_values.
    rewrite fill_temp_same_length by assumption. simpl.
    apply log_sum_exp_plain; [assumption | lra | assumption].
Qed.

Lemma Mixture_evaluate_is_plain_log_sum_witness :
  exists weights max_val,
    BMixture example_components
      (map (fun w => 1 / fold_left Rplus [1; 3] 0 * w) [1; 3])
    = BMixture example_components weights
    /\ Forall (fun w => 0 <= w) weights
    /\ Rsum weights = 1
    /\ MixtureBlock.max_element
         [GaussianBlock.evaluate example_heap example_gaussian;
          GaussianBlock.evaluate example_heap example_gaussian] = Some max_val
    /\ In max_val
         [GaussianBlock.evaluate example_heap example_gaussian;
          GaussianBlock.evaluate example_heap example_gaussian]
    /\ Forall (fun l => l - max_val <= 0)
         [GaussianBlock.evaluate example_heap example_gaussian;
          GaussianBlock.evaluate example_heap example_gaussian]
    /\ MixtureBlock.evaluate_values weights
         [GaussianBlock.evaluate example_heap example_gaussian;
          GaussianBlock.evaluate example_heap example_gaussian]
       = Ok (ln (Rsum (map (fun '(w, l) => w * exp (l - max_val))
                           (combine weights
                              [GaussianBlock.evaluate example_heap example_gaussian;
                               GaussianBlock.evaluate example_heap example_gaussian])))
             + max_val)
    /\ LogLikelihoodBlock.evaluate example_heap
         (BMixture example_components
            (map (fun w => 1 / fold_left Rplus [1; 3] 0 * w) [1; 3]))
       = Ok (plain_mixture weights
               [GaussianBlock.evaluate example_heap example_gaussian;
                GaussianBlock.evaluate example_heap example_gaussian]).
Proof.
  apply (Mixture_evaluate_is_plain_log_sum example_heap example_components [1; 3]).
  - reflexivity.
  - repeat constructor; lra.
  - unfold Rsum. simpl. lra.
  - reflexivity.
Defined.

(** C5 fails as stated for the doubles that the program computes with.  With
    the weights [(1/2, 1/2)] and the component values [(-800, -800)] the plain
    computation does not overflow: [exp(-800)] underflows to [0], the sum is
    [0] and its logarithm is [-inf]; the code shifts by the largest value and
    returns [log(1) + -800 = -800].  This holds for every [exp] and [log] that
    have the values of IEEE 754 at the four arguments involved, and such
    functions exist. *)
Lemma Mixture_evaluate_differs_from_plain_in_doubles :
  (forall std_exp std_log : float -> float,
      ieee_values std_exp std_log ->
      plain_sum_double std_exp [0.5; 0.5]%float [-800; -800]%float = 0%float
      /\ plain_mixture_double std_exp std_log [0.5; 0.5]%float [-800; -800]%float
         = neg_infinity
      /\ MixtureBlockDouble.evaluate_values std_exp std_log
           [0.5; 0.5]%float [-800; -800]%float = Some (-800)%float)
  /\ (exists std_exp std_log : float -> float, ieee_values std_exp std_log)
  /\ (-800)%float <> neg_infinity.
Proof.
  split; [| split].
  - intros std_exp std_log (Hexp0 & Hexp800 & Hlog1 & Hlog0).
    assert (Hsum : plain_sum_double std_exp [0.5; 0.5]%float [-800; -800]%float
                   = 0%float).
    { unfold plain_sum_double. cbn [combine fold_left].
      rewrite Hexp800. vm_compute. reflexivity. }
    split; [exact Hsum |]. split.
    + unfold plain_mixture_double. rewrite Hsum. exact Hlog0.
    + unfold MixtureBlockDouble.evaluate_values, MixtureBlockDouble.max_element.
      cbn [fold_left combine].
      replace (-800 <? -800)%float with false by (vm_compute; reflexivity).
      replace (-800 - -800)%float with 0%float by (vm_compute; reflexivity).
      rewrite Hexp0.
      replace (0 + 0.5 * 1 + 0.5 * 1)%float with 1%float by (vm_compute; reflexivity).
      rewrite Hlog1. vm_compute. reflexivity.
  - exists (fun x => if (x =? 0)%float then 1%float else 0%float).
    exists (fun x => if (x =? 0)%float then neg_infinity else 0%float).
    unfold ieee_values. repeat split; vm_compute; reflexivity.
  - intros H. apply (f_equal classify) in H. vm_compute in H. discriminate.
Qed.

(** ** The multivariate Gaussian block with a diagonal covariance *)

Lemma ln_sqrt x : 0 < x -> ln (sqrt x) = ln x / 2.
Proof.
  intros Hx. rewrite <- Rpower_sqrt by assumption.
  rewrite ln_Rpower. lra.
Qed.

Lemma ln_gaussian_norm sigma :
  0 < sigma ->
  ln (sqrt (2 / PI) / (sigma + sigma))
  = -0.5 * ln (2 * PI) - 0.5 * ln (sigma * sigma).
Proof.
  intros Hs. pose proof PI_RGT_0 as Hpi.
  assert (H2pi : 0 < 2 / PI) by (apply Rdiv_lt_0_compat; lra).
  unfold Rdiv at 1.
  rewrite ln_mult; [| apply sqrt_lt_R0; assumption | apply Rinv_0_lt_compat; lra].
  rewrite ln_Rinv by lra.
  rewrite ln_sqrt by assumption.
  unfold Rdiv at 2. rewrite ln_mult by (try apply Rinv_0_lt_compat; lra).
  rewrite ln_Rinv by assumption.
  replace (sigma + sigma) with (2 * sigma) by ring.
  rewrite !ln_mult by lra. lra.
Qed.

Lemma univariate_gaussian_closed_form sigma mu x :
  0 < sigma ->
  univariate_gaussian sigma mu x
  = -0.5 * ln (2 * PI) - 0.5 * ln (sigma * sigma)
    - 0.5 * ((x - mu) * (/ (sigma * sigma) * (x - mu))).
Proof.
  intros Hs.
  unfold univariate_gaussian, GaussianBlock.evaluate, cache_get, ObservableCache.get.
  simpl.
  replace (mu + sigma - mu + (mu - (mu - sigma))) with (sigma + sigma) by ring.
  rewrite ln_gaussian_norm by assumption.
  unfold power_of_2.
  assert (Hhalf : 0.5 = / 2) by lra. rewrite Hhalf.
  destruct (Rgt_dec x mu); field; lra.
Qed.

Lemma gsl_blas_ddot_zeros n v : gsl_blas_ddot (repeat 0 n) v = 0.
Proof.
  revert v. induction n as [| n IH]; intros v; simpl; [reflexivity |].
  destruct v; [reflexivity |]. rewrite IH. lra.
Qed.

Lemma gsl_blas_dgemv_cons_zero (m : gsl_matrix) x v :
  gsl_blas_dgemv (map (cons 0) m) (x :: v) = gsl_blas_dgemv m v.
Proof.
  unfold gsl_blas_dgemv. rewrite map_map. apply map_ext.
  intros row. simpl. lra.
Qed.

Lemma gsl_blas_dgemv_diag (e v : list R) :
  List.length e = List.length v ->
  gsl_blas_dgemv (diag e) v = map (fun '(a, x) => a * x) (combine e v).
Proof.
  revert v. induction e as [| a e IH]; intros v Hlen; [reflexivity |].
  destruct v as [| x v]; [discriminate |].
  simpl in Hlen. injection Hlen as Hlen.
  simpl diag. unfold gsl_blas_dgemv at 1. simpl map.
  fold (gsl_blas_dgemv (map (cons 0) (diag e)) (x :: v)).
  rewrite gsl_blas_dgemv_cons_zero, IH by assumption.
  simpl. rewrite gsl_blas_ddot_zeros. f_equal. lra.
Qed.

Lemma map_nth_seq {A B : Type} (f : A -> B) (l : list A) (d : A) :
  map (fun i => f (nth i l d)) (seq 0 (List.length l)) = map f l.
Proof.
  induction l as [| a l IH]; [reflexivity |].
  simpl. f_equal. rewrite <- seq_shift, map_map. exact IH.
Qed.

Lemma size1_diag d : size1 (diag d) = List.length d.
Proof.
  unfold size1. induction d as [| x d IH]; simpl; [reflexivity |].
  rewrite length_map, IH. reflexivity.
Qed.

Lemma size2_diag d : size2 (diag d) = List.length d.
Proof. destruct d; simpl; [reflexivity |]. rewrite repeat_length. reflexivity. Qed.

Lemma ln_product_of_squares (sigmas : list R) :
  Forall (fun s => 0 < s) sigmas ->
  0 < fold_right Rmult 1 (map (fun s => s * s) sigmas)
  /\ ln (fold_right Rmult 1 (map (fun s => s * s) sigmas))
     = Rsum (map (fun s => ln (s * s)) sigmas).
Proof.
  induction 1 as [| s sigmas Hs _ [IHpos IHln]]; simpl.
  - unfold Rsum. simpl. split; [lra | apply ln_1].
  - assert (0 < s * s) by nra.
    split; [apply Rmult_lt_0_compat; assumption |].
    rewrite ln_mult by assumption. rewrite IHln. unfold Rsum. simpl. reflexivity.
Qed.

(** The quadratic form and the normalisation, summed coordinate by
    coordinate. *)
Lemma diagonal_density_sum (sigmas mean xs : list R) :
  Forall (fun s => 0 < s) sigmas ->
  List.length mean = List.length sigmas ->
  List.length xs = List.length sigmas ->
  let centred := gsl_vector_sub xs mean in
  -0.5 * INR (List.length mean) * ln (2 * PI)
  - 0.5 * Rsum (map (fun s => ln (s * s)) sigmas)
  - 0.5 * gsl_blas_ddot centred
            (map (fun '(a, x) => a * x)
                 (combine (map Rinv (map (fun s => s * s) sigmas)) centred))
  = Rsum (map (fun '(sigma, mu, x) => univariate_gaussian sigma mu x)
              (combine (combine sigmas mean) xs)).
Proof.
  intros Hs. revert mean xs.
  induction Hs as [| s sigmas Hs Hrest IH]; intros mean xs Hm Hx.
  - destruct mean; [| discriminate]. destruct xs; [| discriminate].
    unfold Rsum. simpl. lra.
  - destruct mean as [| mu mean]; [discriminate |].
    destruct xs as [| x xs]; [discriminate |].
    simpl in Hm, Hx. injection Hm as Hm. injection Hx as Hx.
    specialize (IH mean xs Hm Hx). simpl in IH.
    cbn [combine map List.length gsl_vector_sub gsl_blas_ddot].
    unfold gsl_vector_sub in *. cbn [combine map gsl_blas_ddot].
    unfold Rsum in *. cbn [fold_right].
    rewrite <- IH, univariate_gaussian_closed_form by assumption.
    rewrite S_INR. lra.
Qed.

Lemma MultivariateGaussian_make_inv {gsl : GSL} cache ids mean covariance n b :
  MultivariateGaussianBlock.make cache ids mean covariance n = Ok b ->
  List.length ids = List.length mean
  /\ size1 covariance = List.length mean
  /\ size2 covariance = List.length mean
  /\ b = {| MultivariateGaussianBlock._cache := cache;
            MultivariateGaussianBlock._ids := ids;
            MultivariateGaussianBlock._mean := mean;
            MultivariateGaussianBlock._covariance := covariance;
            MultivariateGaussianBlock._number_of_observations := n;
            MultivariateGaussianBlock._norm :=
              -0.5 * INR (List.length mean) * ln (2 * PI)
              - 0.5 * gsl_linalg_LU_lndet (gsl_linalg_LU_decomp covariance);
            MultivariateGaussianBlock._chol :=
              zero_upper (gsl_linalg_cholesky_decomp covariance);
            MultivariateGaussianBlock._covariance_inv :=
              gsl_linalg_cholesky_invert (gsl_linalg_cholesky_decomp covariance) |}.
Proof.
  unfold MultivariateGaussianBlock.make, MultivariateGaussianBlock.compute_norm,
    MultivariateGaussianBlock.gsl_matrix_memcpy.
  destruct (Nat.eqb (size1 covariance) (List.length mean)) eqn:E1; simpl; [| discriminate].
  destruct (Nat.eqb (size2 covariance) (List.length mean)) eqn:E2; simpl; [| discriminate].
  apply Nat.eqb_eq in E1, E2.
  destruct (Nat.eqb (List.length ids) (List.length mean)) eqn:E3; simpl; [| discriminate].
  apply Nat.eqb_eq in E3.
  destruct (Nat.eqb (size1 covariance) (size2 covariance)) eqn:E4; simpl; [| discriminate].
  destruct (Nat.eqb (List.length ids) (size1 covariance)) eqn:E5; simpl; [| discriminate].
  apply Nat.eqb_eq in E5.
  rewrite E1, E2. rewrite <- E3. rewrite Nat.eqb_refl. simpl.
  destruct (gsl_linalg_cholesky_decomp_status covariance); try discriminate.
  intros H. injection H as <-. rewrite E3. repeat split; assumption.
Qed.

(** A block exists only when the Cholesky decomposition of its covariance
    succeeded. *)
Lemma MultivariateGaussian_make_cholesky {gsl : GSL} cache ids mean covariance n b :
  MultivariateGaussianBlock.make cache ids mean covariance n = Ok b ->
  gsl_linalg_cholesky_decomp_status covariance = GSL_SUCCESS.
Proof.
  unfold MultivariateGaussianBlock.make, MultivariateGaussianBlock.compute_norm,
    MultivariateGaussianBlock.gsl_matrix_memcpy.
  destruct (Nat.eqb (size1 covariance) (List.length mean)) eqn:E1; simpl; [| discriminate].
  destruct (Nat.eqb (size2 covariance) (List.length mean)) eqn:E2; simpl; [| discriminate].
  apply Nat.eqb_eq in E1, E2.
  destruct (Nat.eqb (List.length ids) (List.length mean)) eqn:E3; simpl; [| discriminate].
  apply Nat.eqb_eq in E3.
  destruct (Nat.eqb (size1 covariance) (size2 covariance)) eqn:E4; simpl; [| discriminate].
  destruct (Nat.eqb (List.length ids) (size1 covariance)) eqn:E5; simpl; [| discriminate].
  rewrite E1, E2. rewrite <- E3. rewrite Nat.eqb_refl. simpl.
  destruct (gsl_linalg_cholesky_decomp_status covariance); try discriminate.
  reflexivity.
Qed.

Lemma example_cholesky_accepts (m : gsl_matrix) :
  Forall (fun x => 0 < x) (diagonal_of m) ->
  @gsl_linalg_cholesky_decomp_status example_gsl m = GSL_SUCCESS.
Proof.
  intros Hpos. simpl.
  assert (Hall : all_positive (diagonal_of m) = true).
  { unfold all_positive. apply forallb_forall. intros x Hx.
    rewrite Forall_forall in Hpos. specialize (Hpos x Hx).
    destruct (Rlt_dec 0 x); [reflexivity | contradiction]. }
  rewrite Hall. reflexivity.
Qed.

(** C6. With the covariance [diag (sigma_i ^ 2)], for which GSL returns
    the inverse [diag (1 / sigma_i ^ 2)] and the log-determinant
    [ln |prod_i sigma_i ^ 2|], [evaluate] is the sum over [i] of the
    univariate symmetric-Gaussian log-density of standard deviation
    [sigma_i] at the [i]-th cached value against the [i]-th mean, in every
    state of the cache. *)
Theorem MultivariateGaussian_diagonal_is_sum_of_univariate {gsl : GSL}
    (cache : Handle) (ids : list ObservableCache.Id) (sigmas mean : list R)
    (n : unsigned) (b : MultivariateGaussianBlock.t) :
  let variances := map (fun s => s * s) sigmas in
  Forall (fun s => 0 < s) sigmas ->
  gsl_linalg_cholesky_invert (gsl_linalg_cholesky_decomp (diag variances))
  = diag (map Rinv variances) ->
  gsl_linalg_LU_lndet (gsl_linalg_LU_decomp (diag variances))
  = ln (Rabs (fold_right Rmult 1 variances)) ->
  MultivariateGaussianBlock.make cache ids mean (diag variances) n = Ok b ->
  forall s : Heap,
    LogLikelihoodBlock.evaluate s (BMultivariateGaussian b)
    = Ok (Rsum (map (fun '(sigma, mu, id) =>
                       univariate_gaussian sigma mu (cache_get s cache id))
                    (combine (combine sigmas mean) ids))).
Proof.
  intros variances Hs Hinv Hdet Hmake s.
  destruct (MultivariateGaussian_make_inv _ _ _ _ _ _ Hmake)
    as (Hids & Hsize & _ & ->).
  unfold variances in Hsize. rewrite size1_diag, length_map in Hsize.
  simpl. f_equal.
  unfold MultivariateGaussianBlock.evaluate, MultivariateGaussianBlock.chi_square.
  simpl. fold variances.
  rewrite Hinv, Hdet.
  destruct (ln_product_of_squares sigmas Hs) as [Hprod Hln].
  fold variances in Hprod, Hln.
  rewrite Rabs_pos_eq by lra. rewrite Hln.
  rewrite <- Hids, map_nth_seq.
  set (xs := map (cache_get s cache) ids).
  assert (Hxs : List.length xs = List.length sigmas).
  { unfold xs. rewrite length_map. lia. }
  rewrite gsl_blas_dgemv_diag.
  2:{ unfold variances, gsl_vector_sub.
      rewrite !length_map, length_combine. lia. }
  rewrite Hids. unfold variances.
  rewrite (diagonal_density_sum sigmas mean xs Hs) by lia.
  unfold xs. clear. revert mean ids.
  induction sigmas as [| sg sigmas IH]; intros mean ids; [reflexivity |].
  destruct mean as [| mu mean]; [reflexivity |].
  destruct ids as [| i ids]; [reflexivity |].
  simpl. unfold Rsum in *. simpl. f_equal. apply IH.
Qed.

Lemma example_MultivariateGaussian_make :
  exists b,
    @MultivariateGaussianBlock.make example_gsl O [O; 1%nat] example_mean
      (diag (map (fun s => s * s) example_sigmas)) 2%Z = Ok b.
Proof.
  unfold MultivariateGaussianBlock.make, MultivariateGaussianBlock.compute_norm,
    MultivariateGaussianBlock.gsl_matrix_memcpy.
  cbn [example_mean example_sigmas map diag List.length size1 size2 repeat
       Nat.eqb andb negb bind].
  rewrite example_cholesky_accepts.
  - eexists. reflexivity.
  - unfold diagonal_of. simpl. repeat constructor; lra.
Qed.

Lemma MultivariateGaussian_diagonal_is_sum_of_univariate_witness :
  exists b,
    @MultivariateGaussianBlock.make example_gsl O [O; 1%nat] example_mean
      (diag (map (fun s => s * s) example_sigmas)) 2%Z = Ok b
    /\ forall s : Heap,
         LogLikelihoodBlock.evaluate s (BMultivariateGaussian b)
         = Ok (Rsum (map (fun '(sigma, mu, id) =>
                            univariate_gaussian sigma mu (cache_get s O id))
                         (combine (combine example_sigmas example_mean)
                                  [O; 1%nat]))).
Proof.
  destruct example_MultivariateGaussian_make as [b Hmake].
  exists b. split; [exact Hmake |].
  apply (@MultivariateGaussian_diagonal_is_sum_of_univariate example_gsl
           O [O; 1%nat] example_sigmas example_mean 2%Z).
  - repeat constructor; lra.
  - simpl. rewrite !sqrt_sqrt by lra. rewrite Rinv_0. reflexivity.
  - reflexivity.
  - exact Hmake.
Defined.

(** ** The observable factory *)

Lemma split_at_commas_join (s : list ascii) :
  let '(base, clauses) := split_at_commas s in
  s = join_clauses base clauses
  /\ no_comma base
  /\ Forall no_comma clauses
  /\ (List.length clauses <= List.length s)%nat.
Proof.
  unfold join_clauses, no_comma.
  induction s as [| a s IH]; simpl.
  - repeat split; auto.
  - destruct (split_at_commas s) as [base clauses].
    destruct IH as (Hs & Hb & Hcs & Hlen).
    destruct (Ascii.eqb a comma) eqn:E.
    + apply Ascii.eqb_eq in E. subst a. simpl.
      split; [f_equal; exact Hs |].
      split; [tauto |].
      split; [constructor; assumption | lia].
    + apply Ascii.eqb_neq in E. simpl.
      split; [f_equal; exact Hs |].
      split; [intros [H | H]; [congruence | contradiction] |].
      split; [assumption | lia].
Qed.

Lemma rfind_none c s : ~ In c s -> StdString.rfind c s = None.
Proof.
  induction s as [| a s IH]; simpl; intros H; [reflexivity |].
  rewrite IH by tauto.
  destruct (Ascii.eqb a c) eqn:E; [| reflexivity].
  apply Ascii.eqb_eq in E. subst. tauto.
Qed.

Lemma rfind_last c s t :
  ~ In c t -> StdString.rfind c (s ++ c :: t) = Some (List.length s).
Proof.
  intros Ht. induction s as [| a s IH]; simpl.
  - rewrite rfind_none by assumption. rewrite Ascii.eqb_refl. reflexivity.
  - rewrite IH. reflexivity.
Qed.

Lemma find_skip c s t n :
  StdString.find c (s ++ t) (List.length s + n)
  = option_map (Nat.add (List.length s)) (StdString.find c t n).
Proof.
  induction s as [| a s IH]; simpl.
  - destruct (StdString.find c t n); reflexivity.
  - rewrite IH. destruct (StdString.find c t n); reflexivity.
Qed.

Lemma find_split_at_equals (c : list ascii) :
  match split_at_equals c with
  | Some (key, value) =>
      StdString.find equals_sign c 0 = Some (List.length key)
      /\ c = key ++ equals_sign :: value
  | None => StdString.find equals_sign c 0 = None
  end.
Proof.
  induction c as [| a c IH]; simpl; [reflexivity |].
  destruct (Ascii.eqb a equals_sign) eqn:E.
  - apply Ascii.eqb_eq in E. subst. split; reflexivity.
  - destruct (split_at_equals c) as [[key value] |].
    + destruct IH as [Hf Hc]. rewrite Hf. simpl. split; [reflexivity | f_equal; exact Hc].
    + rewrite IH. reflexivity.
Qed.

Lemma skipn_app_length {A : Type} (l1 l2 : list A) :
  skipn (List.length l1) (l1 ++ l2) = l2.
Proof. induction l1; simpl; auto. Qed.

Lemma firstn_app_length {A : Type} (l1 l2 : list A) :
  firstn (List.length l1) (l1 ++ l2) = l1.
Proof. induction l1; simpl; [reflexivity | f_equal; assumption]. Qed.

(** One turn of the loop on a name that ends with the clause [c]. *)
Lemma strip_options_last fuel _name (front c : list ascii) options :
  no_comma c ->
  strip_options (S fuel) _name (front ++ comma :: c) options
  = match split_at_equals c with
    | None => Fail (ObservableNameError _name)
    | Some (key, value) =>
        strip_options fuel _name front
          (Options.set options (string_of_list_ascii key)
             (string_of_list_ascii value))
    end.
Proof.
  intros Hc. cbn [strip_options].
  rewrite rfind_last by exact Hc.
  replace (front ++ comma :: c) with ((front ++ [comma]) ++ c)
    by (rewrite <- app_assoc; reflexivity).
  replace (List.length front + 1)%nat with (List.length (front ++ [comma]) + 0)%nat
    by (rewrite length_app; simpl; lia).
  rewrite find_skip.
  pose proof (find_split_at_equals c) as Hsplit.
  destruct (split_at_equals c) as [[key value] |].
  - destruct Hsplit as [Hfind ->]. rewrite Hfind. cbn [option_map].
    unfold StdString.substr, StdString.substr_from, StdString.erase.
    rewrite length_app. cbn [List.length].
    replace (List.length front + 1 + List.length key - List.length front - 1)%nat
      with (List.length key) by lia.
    assert (Hskip : skipn (List.length front + 1) ((front ++ [comma]) ++ key ++ equals_sign :: value)
                    = key ++ equals_sign :: value).
    { replace (List.length front + 1)%nat with (List.length (front ++ [comma]))
        by (rewrite length_app; simpl; lia).
      apply skipn_app_length. }
    replace (List.length front + 1 + 0)%nat with (List.length front + 1)%nat by lia.
    rewrite Hskip.
    rewrite firstn_app_length.
    assert (Hvalue : skipn (List.length front + 1 + List.length key + 1)
                       ((front ++ [comma]) ++ key ++ equals_sign :: value) = value).
    { replace (List.length front + 1 + List.length key + 1)%nat
        with (List.length ((front ++ [comma]) ++ key ++ [equals_sign]))
        by (rewrite !length_app; simpl; lia).
      replace ((front ++ [comma]) ++ key ++ equals_sign :: value)
        with (((front ++ [comma]) ++ key ++ [equals_sign]) ++ value)
        by (rewrite <- !app_assoc; reflexivity).
      apply skipn_app_length. }
    rewrite Hvalue.
    rewrite <- app_assoc. rewrite firstn_app_length. reflexivity.
  - rewrite Hsplit. reflexivity.
Qed.

Lemma parse_clauses_snoc cs c :
  parse_clauses (cs ++ [c])
  = match parse_clauses cs, split_at_equals c with
    | Some kvs, Some (key, value) =>
        Some (kvs ++ [(string_of_list_ascii key, string_of_list_ascii value)])
    | _, _ => None
    end.
Proof.
  induction cs as [| c0 cs IH]; simpl.
  - destruct (split_at_equals c) as [[key value] |]; reflexivity.
  - rewrite IH.
    destruct (split_at_equals c0) as [[k0 v0] |]; [| reflexivity].
    destruct (parse_clauses cs) as [kvs |]; [| reflexivity].
    destruct (split_at_equals c) as [[key value] |]; reflexivity.
Qed.

Lemma strip_options_no_comma fuel _name base options :
  no_comma base -> strip_options fuel _name base options = Ok (base, options).
Proof.
  intros Hb. destruct fuel; simpl; rewrite rfind_none by exact Hb; reflexivity.
Qed.

(** The loop, on a base followed by its clauses: enough fuel is one unit
    per clause. *)
Lemma strip_options_spec _name base clauses :
  no_comma base -> Forall no_comma clauses ->
  forall fuel options,
    (List.length clauses <= fuel)%nat ->
    strip_options fuel _name (join_clauses base clauses) options
    = match parse_clauses clauses with
      | None => Fail (ObservableNameError _name)
      | Some kvs => Ok (base, record_right_to_left kvs options)
      end.
Proof.
  intros Hb. unfold join_clauses.
  induction clauses as [| c cs IH] using rev_ind; intros Hcs fuel options Hfuel.
  - simpl. rewrite app_nil_r. apply strip_options_no_comma. exact Hb.
  - apply Forall_app in Hcs. destruct Hcs as [Hcs Hc].
    inversion Hc as [| ? ? Hc' _]; subst.
    rewrite length_app in Hfuel. simpl in Hfuel.
    destruct fuel as [| fuel]; [lia |].
    rewrite map_app, List.concat_app. cbn [map List.concat].
    rewrite app_nil_r, app_assoc.
    rewrite strip_options_last by exact Hc'.
    rewrite parse_clauses_snoc.
    destruct (split_at_equals c) as [[key value] |].
    + rewrite IH by (auto; lia).
      destruct (parse_clauses cs) as [kvs |]; [| reflexivity].
      unfold record_right_to_left. rewrite fold_right_app. reflexivity.
    + destruct (parse_clauses cs); reflexivity.
Qed.

(** C8. [Observable::make] strips the trailing [,key=value] clauses of the
    name from the right to the left and records each as an option before the
    registry is searched; a clause without [=] raises
    [ObservableNameError]; and a stripped name that is not a key of the
    registry gives the null pointer, not an error.  The loop never runs out
    of its budget. *)
Theorem Observable_make_meets_contract _name parameters kinematics _options :
  Observable_make _name parameters kinematics _options
  = Observable_make_contract _name parameters kinematics _options.
Proof.
  unfold Observable_make, Observable_make_contract.
  pose proof (split_at_commas_join (list_ascii_of_string _name)) as Hsplit.
  destruct (split_at_commas (list_ascii_of_string _name)) as [base clauses].
  destruct Hsplit as (Hname & Hb & Hcs & Hlen).
  rewrite Hname at 2.
  rewrite (strip_options_spec _name base clauses Hb Hcs) by lia.
  destruct (parse_clauses clauses) as [kvs |]; reflexivity.
Qed.

Local Open Scope string_scope.

Example Observable_make_strips_options :
  Observable_make "B->K^*ll::A_FB@LowRecoil,model=SM,l=mu" O [] []
  = Ok (Some {| ObservableFactory.name := "B->K^*ll::A_FB@LowRecoil";
                ObservableFactory.parameters := O;
                ObservableFactory.kinematics := [];
                ObservableFactory.options := [("l", "mu"); ("model", "SM")] |}).
Proof. reflexivity. Qed.

Example Observable_make_malformed_clause :
  Observable_make "B->K^*ll::A_FB@LowRecoil,model,l=mu" O [] []
  = Fail (ObservableNameError "B->K^*ll::A_FB@LowRecoil,model,l=mu").
Proof. reflexivity. Qed.

Example Observable_make_unknown_name :
  Observable_make "B->K^*ll::no_such_observable,l=mu" O [] [] = Ok None.
Proof. reflexivity. Qed.

Local Close Scope string_scope.

(** ** The bootstrap p-value *)

Section BootstrapProperties.
Context {gsl : GSL}.

Lemma foldM_flat_map {A B S : Type} (f : S -> B -> result S) (g : A -> list B)
    (l : list A) (s : S) :
  foldM (fun s a => foldM f (g a) s) l s = foldM f (flat_map g l) s.
Proof.
  revert s. induction l as [| a l IH]; intros s; simpl; [reflexivity |].
  assert (Happ : forall l1 l2 s0,
             foldM f (l1 ++ l2) s0 = bind (foldM f l1 s0) (foldM f l2)).
  { induction l1 as [| x l1 IH1]; intros l2 s0; simpl; [reflexivity |].
    destruct (f s0 x); simpl; [apply IH1 | reflexivity]. }
  rewrite Happ. destruct (foldM f (g a) s); simpl; [apply IH | reflexivity].
Qed.

Lemma foldM_ext {A S : Type} (f f' : S -> A -> result S) (l : list A) (s : S) :
  (forall s a, f s a = f' s a) -> foldM f l s = foldM f' l s.
Proof.
  intros Hext. revert s. induction l as [| a l IH]; intros s; simpl; [reflexivity |].
  rewrite Hext. destruct (f' s a); simpl; [apply IH | reflexivity].
Qed.

Lemma simulated_statistic_flat fuel h constraints rng :
  LogLikelihood.simulated_statistic fuel h constraints rng
  = foldM (fun '(t, rng) b =>
             '(v, rng') <- LogLikelihoodBlock.sample fuel h b rng ;;
             Ok (t + v, rng'))
          (flat_map Constraint.blocks constraints) (0, rng).
Proof.
  unfold LogLikelihood.simulated_statistic.
  rewrite <- foldM_flat_map. apply foldM_ext.
  intros [t r] c. reflexivity.
Qed.

Lemma Rsum_cons x l : Rsum (x :: l) = x + Rsum l.
Proof. reflexivity. Qed.

Lemma sample_ok_evaluate_ok fuel h b rng :
  is_ok (LogLikelihoodBlock.sample fuel h b rng) ->
  is_ok (LogLikelihoodBlock.evaluate h b).
Proof. destruct b; simpl; intros H; try exact I; contradiction. Qed.

Lemma observed_statistic_total h blocks (rng0 : gsl_rng) fuel t0 :
  (forall b, In b blocks -> supports_sample fuel h b) ->
  foldM (fun t_obs b =>
           if Z.eqb (LogLikelihoodBlock.number_of_observations b) 0
           then Ok t_obs
           else v <- LogLikelihoodBlock.evaluate h b ;; Ok (t_obs + v))
        blocks t0
  = Ok (t0 + observed_total h blocks).
Proof.
  unfold observed_total, has_observations.
  revert t0. induction blocks as [| b blocks IH]; intros t0 Hs.
  - unfold Rsum. simpl. f_equal. lra.
  - assert (Hrest : forall b', In b' blocks -> supports_sample fuel h b')
      by (intros; apply Hs; right; assumption).
    cbn [foldM filter].
    destruct (Z.eqb _ 0); cbn [negb bind].
    + apply IH; assumption.
    + pose proof (sample_ok_evaluate_ok fuel h b rng0 (Hs b (or_introl eq_refl) rng0))
        as Hev.
      assert (Hv : LogLikelihoodBlock.evaluate h b = Ok (evaluate_value h b)).
      { unfold evaluate_value.
        destruct (LogLikelihoodBlock.evaluate h b); [reflexivity | contradiction]. }
      rewrite Hv. cbn [bind map]. rewrite IH by assumption.
      rewrite Rsum_cons. f_equal. lra.
Qed.

Lemma simulated_statistic_total fuel h blocks t0 rng :
  (forall b, In b blocks -> supports_sample fuel h b) ->
  foldM (fun '(t, rng) b =>
           '(v, rng') <- LogLikelihoodBlock.sample fuel h b rng ;;
           Ok (t + v, rng'))
        blocks (t0, rng)
  = Ok (t0 + fst (toy_total fuel h blocks rng), snd (toy_total fuel h blocks rng)).
Proof.
  revert t0 rng. induction blocks as [| b blocks IH]; intros t0 rng Hs; simpl.
  - f_equal. f_equal. lra.
  - assert (Hrest : forall b', In b' blocks -> supports_sample fuel h b')
      by (intros; apply Hs; right; assumption).
    pose proof (Hs b (or_introl eq_refl) rng) as Hb.
    unfold sample_value.
    destruct (LogLikelihoodBlock.sample fuel h b rng) as [[v rng'] |];
      [| contradiction].
    simpl. rewrite IH by assumption.
    destruct (toy_total fuel h blocks rng') as [t rng'']. simpl.
    f_equal. f_equal. lra.
Qed.

Lemma wrap_small z : (0 <= z < UINT_MODULUS)%Z -> wrap z = z.
Proof. intros H. unfold wrap. apply Z.mod_small. exact H. Qed.

Lemma collect_samples_count fuel h constraints t_obs :
  (forall b, In b (flat_map Constraint.blocks constraints) ->
             supports_sample fuel h b) ->
  forall remaining rng n_low,
    (0 <= n_low)%Z -> (n_low + Z.of_nat remaining < UINT_MODULUS)%Z ->
    LogLikelihood.collect_samples fuel h constraints t_obs remaining rng n_low
    = Ok (n_low + count_below t_obs
                    (toy_totals fuel h (flat_map Constraint.blocks constraints)
                       remaining rng))%Z.
Proof.
  intros Hs. induction remaining as [| remaining IH]; intros rng n_low H0 Hmax.
  - simpl. unfold count_below. simpl. f_equal. lia.
  - cbn [LogLikelihood.collect_samples toy_totals].
    rewrite simulated_statistic_flat.
    rewrite simulated_statistic_total by assumption.
    destruct (toy_total fuel h (flat_map Constraint.blocks constraints) rng)
      as [t rng'].
    cbn [bind fst snd]. rewrite Rplus_0_l.
    unfold count_below. cbn [filter].
    destruct (Rlt_dec t t_obs).
    + rewrite wrap_small by lia.
      rewrite IH by lia. f_equal. unfold count_below. cbn [List.length]. lia.
    + rewrite IH by lia. reflexivity.
Qed.

(** The value returned by [bootstrap_p_value], with the unsigned additions
    of the last lines left as the code has them. *)
Lemma bootstrap_p_value_unfold fuel h L datasets :
  (forall b, In b (all_blocks L) -> supports_sample fuel h b) ->
  (0 <= datasets < UINT_MODULUS)%Z ->
  let t_obs := observed_total h (all_blocks L) in
  let n_low :=
    count_below t_obs
      (toy_totals fuel h (all_blocks L) (Z.to_nat datasets) (gsl_rng_set datasets)) in
  let p_expected :=
    to_double (wrap (n_low + 1)) / to_double (wrap (datasets + 2)) in
  LogLikelihood.bootstrap_p_value fuel h L datasets
  = Ok (to_double n_low / to_double datasets,
        sqrt (p_expected * (1 - p_expected) / to_double (wrap (datasets + 3)))).
Proof.
  intros Hs Hrange t_obs n_low p_expected.
  unfold LogLikelihood.bootstrap_p_value, LogLikelihood.observed_statistic.
  rewrite (foldM_flat_map
             (fun t_obs b =>
                if Z.eqb (LogLikelihoodBlock.number_of_observations b) 0
                then Ok t_obs
                else v <- LogLikelihoodBlock.evaluate h b ;; Ok (t_obs + v))
             Constraint.blocks).
  rewrite (observed_statistic_total h _ (gsl_rng_set 0) fuel) by exact Hs.
  cbn [bind]. rewrite Rplus_0_l.
  rewrite (collect_samples_count fuel h _ _ Hs) by lia.
  cbn [bind]. reflexivity.
Qed.

Lemma count_below_bounds t_obs totals :
  (0 <= count_below t_obs totals <= Z.of_nat (List.length totals))%Z.
Proof.
  unfold count_below. split; [lia |].
  apply inj_le. apply filter_length_le.
Qed.

Lemma toy_totals_length fuel h blocks n rng :
  List.length (toy_totals fuel h blocks n rng) = n.
Proof.
  revert rng. induction n as [| n IH]; intros rng; simpl; [reflexivity |].
  destruct (toy_total fuel h blocks rng). simpl. f_equal. apply IH.
Qed.

(** As long as [datasets + 3] does not wrap, the value is the one of the
    specification: [p = n_low / n], [p_expected = (n_low + 1) / (n + 2)] and
    [uncertainty = sqrt (p_expected * (1 - p_expected) / (n + 3))]. *)
Lemma bootstrap_p_value_small_datasets fuel h L datasets :
  (forall b, In b (all_blocks L) -> supports_sample fuel h b) ->
  (0 <= datasets)%Z -> (datasets + 3 < UINT_MODULUS)%Z ->
  let t_obs := observed_total h (all_blocks L) in
  let n_low :=
    count_below t_obs
      (toy_totals fuel h (all_blocks L) (Z.to_nat datasets) (gsl_rng_set datasets)) in
  let p_expected := (IZR n_low + 1) / (IZR datasets + 2) in
  LogLikelihood.bootstrap_p_value fuel h L datasets
  = Ok (IZR n_low / IZR datasets,
        sqrt (p_expected * (1 - p_expected) / (IZR datasets + 3))).
Proof.
  intros Hs H0 Hmax t_obs n_low p_expected.
  rewrite bootstrap_p_value_unfold by (auto; lia).
  fold t_obs. fold n_low.
  pose proof (count_below_bounds t_obs
                (toy_totals fuel h (all_blocks L) (Z.to_nat datasets)
                   (gsl_rng_set datasets))) as Hn.
  rewrite toy_totals_length, Z2Nat.id in Hn by lia. fold n_low in Hn.
  rewrite !wrap_small by lia.
  unfold to_double, p_expected. rewrite !plus_IZR. reflexivity.
Qed.
End BootstrapProperties.

(** C1, at [datasets = 4294967294]: the unsigned sum [datasets + 2] wraps to
    [0] and [datasets + 3] to [1], so the code divides [n_low + 1] by
    [double(0)] and the product by [double(1)]; the uncertainty it returns
    is not [sqrt (p_expected * (1 - p_expected) / (n + 3))] with
    [p_expected = (n_low + 1) / (n + 2)]. *)
Theorem bootstrap_p_value_wraps_at_4294967294 {gsl : GSL} fuel h L :
  (forall b, In b (all_blocks L) -> supports_sample fuel h b) ->
  let datasets := 4294967294%Z in
  let n_low :=
    count_below (observed_total h (all_blocks L))
      (toy_totals fuel h (all_blocks L) (Z.to_nat datasets) (gsl_rng_set datasets)) in
  let p_code := to_double (n_low + 1)%Z / to_double 0%Z in
  let p_expected := (IZR n_low + 1) / (IZR datasets + 2) in
  LogLikelihood.bootstrap_p_value fuel h L datasets
  = Ok (to_double n_low / to_double datasets,
        sqrt (p_code * (1 - p_code) / to_double 1%Z))
  /\ sqrt (p_code * (1 - p_code) / to_double 1%Z)
     <> sqrt (p_expected * (1 - p_expected) / (IZR datasets + 3)).
Proof.
  intros Hs datasets n_low p_code p_expected.
  assert (Hrange : (0 <= datasets < UINT_MODULUS)%Z)
    by (unfold datasets, UINT_MODULUS; lia).
  pose proof (count_below_bounds (observed_total h (all_blocks L))
                (toy_totals fuel h (all_blocks L) (Z.to_nat datasets)
                   (gsl_rng_set datasets))) as Hn.
  rewrite toy_totals_length, Z2Nat.id in Hn by (apply Hrange).
  fold n_low in Hn.
  split.
  - rewrite bootstrap_p_value_unfold by assumption.
    fold n_low.
    rewrite (wrap_small (n_low + 1))
      by (unfold UINT_MODULUS, datasets in *; lia).
    replace (wrap (datasets + 2)) with 0%Z by reflexivity.
    replace (wrap (datasets + 3)) with 1%Z by reflexivity.
    reflexivity.
  - assert (Hcode : sqrt (p_code * (1 - p_code) / to_double 1%Z) = 0).
    { unfold p_code, to_double, Rdiv. rewrite Rinv_0, Rmult_0_r, Rmult_0_l, Rmult_0_l.
      apply sqrt_0. }
    rewrite Hcode. apply Rlt_not_eq. apply sqrt_lt_R0.
    assert (H0 : 0 <= IZR n_low) by (apply IZR_le; lia).
    assert (H1 : IZR n_low <= IZR datasets) by (apply IZR_le; lia).
    assert (Hd : IZR datasets = 4294967294) by reflexivity.
    assert (Hp : 0 < p_expected < 1).
    { unfold p_expected. split.
      - apply Rdiv_lt_0_compat; lra.
      - apply Rmult_lt_reg_r with (IZR datasets + 2); [lra |].
        unfold Rdiv. rewrite Rmult_assoc, Rinv_l by lra. lra. }
    apply Rdiv_lt_0_compat; [| lra].
    apply Rmult_lt_0_compat; lra.
Qed.

Lemma bootstrap_p_value_wraps_at_4294967294_witness :
  let datasets := 4294967294%Z in
  let n_low :=
    count_below (observed_total registered_heap (all_blocks example_likelihood))
      (@toy_totals example_gsl O registered_heap (all_blocks example_likelihood)
         (Z.to_nat datasets) (@gsl_rng_set example_gsl datasets)) in
  let p_code := to_double (n_low + 1)%Z / to_double 0%Z in
  let p_expected := (IZR n_low + 1) / (IZR datasets + 2) in
  @LogLikelihood.bootstrap_p_value example_gsl O registered_heap example_likelihood
    datasets
  = Ok (to_double n_low / to_double datasets,
        sqrt (p_code * (1 - p_code) / to_double 1%Z))
  /\ sqrt (p_code * (1 - p_code) / to_double 1%Z)
     <> sqrt (p_expected * (1 - p_expected) / (IZR datasets + 3)).
Proof.
  apply (@bootstrap_p_value_wraps_at_4294967294 example_gsl O registered_heap
           example_likelihood).
  intros b [<- | []] rng. exact I.
Defined.

(** ** Cloning *)

Section Cloning.
Context {gsl : GSL}.

Lemma caches_extend_refl h : caches_extend h h.
Proof. intros c. split; [reflexivity |]. exists []. rewrite app_nil_r. reflexivity. Qed.

Lemma caches_extend_trans h1 h2 h3 :
  caches_extend h1 h2 -> caches_extend h2 h3 -> caches_extend h1 h3.
Proof.
  intros H12 H23 c.
  destruct (H12 c) as [Hp12 [e12 Ho12]].
  destruct (H23 c) as [Hp23 [e23 Ho23]].
  split; [congruence |].
  exists (e12 ++ e23). rewrite Ho23, Ho12, app_assoc. reflexivity.
Qed.

Lemma cache_add_extends h c o : caches_extend h (snd (cache_add h c o)).
Proof.
  intros c'. unfold cache_add, ObservableCache.add, set_cache. simpl.
  destruct (Nat.eqb c' c) eqn:E.
  - apply Nat.eqb_eq in E. subst c'. simpl. split; [reflexivity |].
    exists [o]. reflexivity.
  - split; [reflexivity |]. exists []. rewrite app_nil_r. reflexivity.
Qed.

Lemma observable_extend h s c id o :
  caches_extend h s ->
  ObservableCache.observable (cache_at h c) id = Some o ->
  ObservableCache.observable (cache_at s c) id = Some o.
Proof.
  intros Hext Ho. destruct (Hext c) as [_ [extra Hobs]].
  unfold ObservableCache.observable in *. rewrite Hobs.
  rewrite nth_error_app1; [exact Ho |].
  apply nth_error_Some. congruence.
Qed.

Lemma slot_registered_extend h s c id :
  caches_extend h s -> slot_registered h c id -> slot_registered s c id.
Proof. intros Hext [o Ho]. exists o. eapply observable_extend; eassumption. Qed.

Lemma slot_value s c id o :
  up_to_date s ->
  ObservableCache.observable (cache_at s c) id = Some o ->
  cache_get s c id = observable_evaluate s o.
Proof.
  intros Hfresh Ho. unfold cache_get, ObservableCache.get. rewrite Hfresh.
  unfold ObservableCache.observable in Ho.
  rewrite (nth_indep _ 0 (observable_evaluate s o)).
  - rewrite map_nth. f_equal. apply nth_error_nth. exact Ho.
  - rewrite length_map. apply nth_error_Some. congruence.
Qed.

(** Re-registering the observable of a slot on the target cache: in every
    later state whose caches are up to date, the new slot holds the value of
    the old one as soon as the two parameter sets hold the same values. *)
Lemma clone_observable_value h source id target :
  slot_registered h source id ->
  exists id' h',
    clone_observable h source id target = Ok (id', h')
    /\ caches_extend h h'
    /\ slot_registered h' target id'
    /\ forall s,
         caches_extend h' s -> up_to_date s ->
         (forall o,
             ObservableCache.observable (cache_at s source) id = Some o ->
             parameters_at s (Observable.parameters o)
             = parameters_at s (ObservableCache.parameters (cache_at s target))) ->
         cache_get s target id' = cache_get s source id.
Proof.
  intros [o Ho]. unfold clone_observable. rewrite Ho.
  set (o' := Observable.clone o (ObservableCache.parameters (cache_at h target))).
  exists (fst (cache_add h target o')), (snd (cache_add h target o')).
  split; [destruct (cache_add h target o'); reflexivity |].
  split; [apply cache_add_extends |].
  assert (Ho' : ObservableCache.observable
                  (cache_at (snd (cache_add h target o')) target)
                  (fst (cache_add h target o')) = Some o').
  { unfold cache_add, ObservableCache.add, set_cache, ObservableCache.observable.
    simpl. rewrite Nat.eqb_refl. simpl.
    rewrite nth_error_app2 by lia. rewrite Nat.sub_diag. reflexivity. }
  split; [exists o'; exact Ho' |].
  intros s Hext Hfresh Hparams.
  pose proof (cache_add_extends h target o') as Hadd.
  pose proof (caches_extend_trans _ _ _ Hadd Hext) as Hhs.
  rewrite (slot_value s target _ o' Hfresh (observable_extend _ _ _ _ _ Hext Ho')).
  pose proof (observable_extend _ _ _ _ _ Hhs Ho) as Hos.
  rewrite (slot_value s source id o Hfresh Hos).
  unfold observable_evaluate, o'. simpl.
  rewrite (Hparams o Hos).
  destruct (Hhs target) as [Hp _]. rewrite Hp. reflexivity.
Qed.

Lemma LogLikelihoodBlockPtr_nested_ind (P : LogLikelihoodBlockPtr -> Prop) :
  (forall g, P (BGaussian g)) ->
  (forall l, P (BLogGamma l)) ->
  (forall a, P (BAmoroso a)) ->
  (forall components weights, Forall P components -> P (BMixture components weights)) ->
  (forall m, P (BMultivariateGaussian m)) ->
  forall b, P b.
Proof.
  intros HG HL HA HM HV.
  fix IH 1. intros [g | l | a | cs ws | m].
  - apply HG.
  - apply HL.
  - apply HA.
  - apply HM. induction cs as [| c cs IHcs]; constructor; [apply IH | exact IHcs].
  - apply HV.
Qed.

Lemma constructed_mixture h components weights :
  constructed h (BMixture components weights)
  <-> Forall (constructed h) components.
Proof.
  simpl. induction components as [| c cs IH].
  - split; [constructor | trivial].
  - split.
    + intros [Hc Hcs]. constructor; [exact Hc | apply IH; exact Hcs].
    + intros H. inversion H; subst. split; [assumption | apply IH; assumption].
Qed.

Lemma constructed_extend h s b :
  caches_extend h s -> constructed h b -> constructed s b.
Proof.
  intros Hext. induction b as [g | l | a | cs ws IH | m]
    using LogLikelihoodBlockPtr_nested_ind.
  - intros [Hslot Hmake]. split; [eapply slot_registered_extend; eassumption | exact Hmake].
  - intros [Hslot Hmake]. split; [eapply slot_registered_extend; eassumption | exact Hmake].
  - intros [Hslot Hmake]. split; [eapply slot_registered_extend; eassumption | exact Hmake].
  - rewrite !constructed_mixture. intros Hcs.
    induction IH as [| c cs Hc _ IHcs]; [constructor |].
    inversion Hcs; subst. constructor; auto.
  - intros [Hslots Hmake]. split; [| exact Hmake].
    eapply Forall_impl; [| exact Hslots].
    intros id. apply slot_registered_extend. exact Hext.
Qed.

Lemma Gaussian_clone_correct h g target :
  constructed h (BGaussian g) -> clone_correct h (BGaussian g) target.
Proof.
  intros [Hslot Hmake].
  destruct (clone_observable_value h _ _ target Hslot)
    as (id' & h' & Hclone & Hext & _ & Hval).
  unfold clone_correct. cbn [LogLikelihoodBlock.clone].
  unfold GaussianBlock.clone. rewrite Hclone. cbn [bind].
  eexists. eexists. split; [reflexivity |]. split; [exact Hext |].
  intros s Hs Hfresh Hparams. cbn [LogLikelihoodBlock.evaluate]. f_equal.
  assert (Hv : cache_get s target id'
               = cache_get s (GaussianBlock.cache g) (GaussianBlock.id g)).
  { apply Hval; try assumption. intros o Ho.
    apply (Hparams (GaussianBlock.cache g) (GaussianBlock.id g) o); [left; reflexivity | exact Ho]. }
  destruct g as [c i mode sl su cu cl norm n].
  cbn [GaussianBlock.cache GaussianBlock.id GaussianBlock.mode
       GaussianBlock.sigma_lower GaussianBlock.sigma_upper
       GaussianBlock._number_of_observations] in *.
  unfold GaussianBlock.make in Hmake. injection Hmake as Hsl Hsu Hcu Hcl Hnorm.
  unfold GaussianBlock.evaluate, GaussianBlock.make.
  cbn [GaussianBlock.cache GaussianBlock.id GaussianBlock.mode
       GaussianBlock.sigma_lower GaussianBlock.sigma_upper GaussianBlock.norm].
  rewrite Hv, Hnorm, Hsl, Hsu. reflexivity.
Qed.

Lemma LogGamma_make_rebind c i c' i' min central max lambda alpha n l :
  LogGammaBlock.make c i min central max lambda alpha n = Ok l ->
  exists l',
    LogGammaBlock.make c' i' min central max lambda alpha n = Ok l'
    /\ forall s,
         cache_get s c' i' = cache_get s c i ->
         LogGammaBlock.evaluate s l' = LogGammaBlock.evaluate s l.
Proof.
  unfold LogGammaBlock.make.
  destruct (Rgt_dec _ _); [discriminate |].
  destruct (Rgt_dec _ _); [discriminate |].
  intros H. injection H as <-.
  eexists. split; [reflexivity |].
  intros s Hv. unfold LogGammaBlock.evaluate. simpl. rewrite Hv. reflexivity.
Qed.

Lemma LogGamma_clone_correct h l target :
  constructed h (BLogGamma l) -> clone_correct h (BLogGamma l) target.
Proof.
  intros [Hslot Hmake].
  destruct (clone_observable_value h _ _ target Hslot)
    as (id' & h' & Hclone & Hext & _ & Hval).
  destruct (LogGamma_make_rebind _ _ target id' _ _ _ _ _ _ _ Hmake)
    as (l' & Hmake' & Heval).
  unfold clone_correct. cbn [LogLikelihoodBlock.clone].
  unfold LogGammaBlock.clone. rewrite Hclone. cbn [bind]. rewrite Hmake'. cbn [bind].
  eexists. eexists. split; [reflexivity |]. split; [exact Hext |].
  intros s Hs Hfresh Hparams. cbn [LogLikelihoodBlock.evaluate]. f_equal.
  apply Heval. apply Hval; try assumption. intros o Ho.
  apply (Hparams (LogGammaBlock.cache l) (LogGammaBlock.id l) o);
    [left; reflexivity | exact Ho].
Qed.

(** [LogGammaBlock::clone] runs the checking constructor again: when the
    fields of the block do not pass its two checks, as can be the case after
    the fitting constructor, [clone] throws what the constructor throws. *)
Lemma LogGamma_clone_rechecks h l target f :
  slot_registered h (LogGammaBlock.cache l) (LogGammaBlock.id l) ->
  (forall c i,
      LogGammaBlock.make c i
        (LogGammaBlock.central l - LogGammaBlock.sigma_lower l)
        (LogGammaBlock.central l)
        (LogGammaBlock.central l + LogGammaBlock.sigma_upper l)
        (LogGammaBlock.lambda l) (LogGammaBlock.alpha l)
        (LogGammaBlock._number_of_observations l) = Fail f) ->
  LogLikelihoodBlock.clone h (BLogGamma l) target = Fail f.
Proof.
  intros Hslot Hmake.
  destruct (clone_observable_value h _ _ target Hslot)
    as (id' & h' & Hclone & _).
  cbn [LogLikelihoodBlock.clone]. unfold LogGammaBlock.clone.
  rewrite Hclone. cbn [bind]. rewrite Hmake. reflexivity.
Qed.

Lemma Amoroso_make_rebind c i c' i' pl theta alpha beta n a :
  AmorosoBlock.make c i pl theta alpha beta n = Ok a ->
  exists a',
    AmorosoBlock.make c' i' pl theta alpha beta n = Ok a'
    /\ forall s,
         cache_get s c' i' = cache_get s c i ->
         AmorosoBlock.evaluate s a' = AmorosoBlock.evaluate s a.
Proof.
  unfold AmorosoBlock.make.
  destruct (Rle_dec theta 0); [discriminate |].
  destruct (Rle_dec alpha 0); [discriminate |].
  destruct (Rle_dec beta 0); [discriminate |].
  intros H. injection H as <-.
  eexists. split; [reflexivity |].
  intros s Hv. unfold AmorosoBlock.evaluate. simpl. rewrite Hv. reflexivity.
Qed.

Lemma Amoroso_clone_correct h a target :
  constructed h (BAmoroso a) -> clone_correct h (BAmoroso a) target.
Proof.
  intros [Hslot Hmake].
  destruct (clone_observable_value h _ _ target Hslot)
    as (id' & h' & Hclone & Hext & _ & Hval).
  destruct (Amoroso_make_rebind _ _ target id' _ _ _ _ _ _ Hmake)
    as (a' & Hmake' & Heval).
  unfold clone_correct. cbn [LogLikelihoodBlock.clone].
  unfold AmorosoBlock.clone. rewrite Hclone. cbn [bind]. rewrite Hmake'. cbn [bind].
  eexists. eexists. split; [reflexivity |]. split; [exact Hext |].
  intros s Hs Hfresh Hparams. cbn [LogLikelihoodBlock.evaluate]. f_equal.
  apply Heval. apply Hval; try assumption. intros o Ho.
  apply (Hparams (AmorosoBlock.cache a) (AmorosoBlock.id a) o);
    [left; reflexivity | exact Ho].
Qed.

(** The observables of a multivariate block, re-registered one by one. *)
Lemma clone_ids_value source target ids :
  forall h,
    Forall (slot_registered h source) ids ->
    exists ids' h',
      MultivariateGaussianBlock.clone_ids h source ids target = Ok (ids', h')
      /\ caches_extend h h'
      /\ List.length ids' = List.length ids
      /\ forall s,
           caches_extend h' s -> up_to_date s ->
           (forall id o,
               In id ids ->
               ObservableCache.observable (cache_at s source) id = Some o ->
               parameters_at s (Observable.parameters o)
               = parameters_at s (ObservableCache.parameters (cache_at s target))) ->
           map (cache_get s target) ids' = map (cache_get s source) ids.
Proof.
  induction ids as [| id ids IH]; intros h Hreg.
  - exists [], h.
    split; [reflexivity |]. split; [apply caches_extend_refl |].
    split; [reflexivity |]. intros; reflexivity.
  - inversion Hreg as [| ? ? Hid Hids]; subst.
    destruct (clone_observable_value h source id target Hid)
      as (id' & h1 & Hclone & Hext1 & _ & Hval).
    assert (Hids1 : Forall (slot_registered h1 source) ids).
    { eapply Forall_impl; [| exact Hids].
      intros i. apply slot_registered_extend. exact Hext1. }
    destruct (IH h1 Hids1) as (ids' & h2 & Hrest & Hext2 & Hlen & Hvals).
    exists (id' :: ids'), h2.
    cbn [MultivariateGaussianBlock.clone_ids]. rewrite Hclone. cbn [bind].
    rewrite Hrest. cbn [bind].
    split; [reflexivity |].
    split; [eapply caches_extend_trans; eassumption |].
    split; [simpl; f_equal; exact Hlen |].
    intros s Hs Hfresh Hparams. cbn [map]. f_equal.
    + apply Hval; [eapply caches_extend_trans; eassumption | assumption |].
      intros o Ho. apply (Hparams id o); [left; reflexivity | exact Ho].
    + apply Hvals; try assumption.
      intros i o Hi Ho. apply (Hparams i o); [right; exact Hi | exact Ho].
Qed.

Lemma MultivariateGaussian_make_rebind c ids c' ids' mean covariance n m :
  MultivariateGaussianBlock.make c ids mean covariance n = Ok m ->
  List.length ids' = List.length ids ->
  exists m',
    MultivariateGaussianBlock.make c' ids' mean covariance n = Ok m'
    /\ forall s,
         map (cache_get s c') ids' = map (cache_get s c) ids ->
         MultivariateGaussianBlock.evaluate s m'
         = MultivariateGaussianBlock.evaluate s m.
Proof.
  intros Hmake Hlen.
  pose proof (MultivariateGaussian_make_cholesky _ _ _ _ _ _ Hmake) as Hchol.
  destruct (MultivariateGaussian_make_inv _ _ _ _ _ _ Hmake)
    as (Hids & Hs1 & Hs2 & ->).
  unfold MultivariateGaussianBlock.make, MultivariateGaussianBlock.compute_norm,
    MultivariateGaussianBlock.gsl_matrix_memcpy.
  rewrite Hs1, Hs2, Hlen, Hids, !Nat.eqb_refl. cbn [andb bind negb].
  rewrite Hchol.
  eexists. split; [reflexivity |].
  intros s Hv.
  unfold MultivariateGaussianBlock.evaluate, MultivariateGaussianBlock.chi_square.
  cbn [MultivariateGaussianBlock._norm MultivariateGaussianBlock._mean
       MultivariateGaussianBlock._ids MultivariateGaussianBlock._cache
       MultivariateGaussianBlock._covariance_inv].
  assert (Hread : forall cache (l : list ObservableCache.Id),
             List.length l = List.length mean ->
             map (fun i => cache_get s cache (nth i l O)) (seq 0 (List.length mean))
             = map (cache_get s cache) l).
  { intros cache l Hl. rewrite <- Hl. apply map_nth_seq. }
  rewrite (Hread c' ids') by congruence.
  rewrite (Hread c ids) by congruence.
  rewrite Hv. reflexivity.
Qed.

Lemma MultivariateGaussian_clone_correct h m target :
  constructed h (BMultivariateGaussian m) ->
  clone_correct h (BMultivariateGaussian m) target.
Proof.
  intros [Hslots Hmake].
  destruct (MultivariateGaussian_make_inv _ _ _ _ _ _ Hmake) as (Hids & _ & _ & _).
  destruct (clone_ids_value (MultivariateGaussianBlock._cache m) target
              (MultivariateGaussianBlock._ids m) h Hslots)
    as (ids' & h' & Hclone & Hext & Hlen & Hvals).
  destruct (MultivariateGaussian_make_rebind _ _ target ids' _ _ _ _ Hmake Hlen)
    as (m' & Hmake' & Heval).
  unfold clone_correct. cbn [LogLikelihoodBlock.clone].
  unfold MultivariateGaussianBlock.clone.
  rewrite <- Hids, firstn_all, Hclone. cbn [bind]. rewrite Hmake'. cbn [bind].
  eexists. eexists. split; [reflexivity |]. split; [exact Hext |].
  intros s Hs Hfresh Hparams. cbn [LogLikelihoodBlock.evaluate]. f_equal.
  apply Heval. apply Hvals; try assumption.
  intros id o Hid Ho.
  apply (Hparams (MultivariateGaussianBlock._cache m) id o); [| exact Ho].
  cbn [block_slots]. apply in_map. exact Hid.
Qed.

Lemma clone_mixture h components weights target :
  LogLikelihoodBlock.clone h (BMixture components weights) target
  = bind ((fix each (h : Heap) (cs : list LogLikelihoodBlockPtr)
             : result (list LogLikelihoodBlockPtr * Heap) :=
             match cs with
             | [] => Ok ([], h)
             | c :: cs' =>
                 '(c', h') <- LogLikelihoodBlock.clone h c target ;;
                 '(cs'', h'') <- each h' cs' ;;
                 Ok (c' :: cs'', h'')
             end) h components)
         (fun '(clones, h') => Ok (BMixture clones weights, h')).
Proof. reflexivity. Qed.

Lemma identical_parameters_component s c components weights target :
  In c components ->
  identical_parameters s (BMixture components weights) target ->
  identical_parameters s c target.
Proof.
  intros Hin Hparams cache id o Hslot Ho.
  apply (Hparams cache id o); [| exact Ho].
  cbn [block_slots]. apply in_flat_map. exists c. split; assumption.
Qed.

Lemma Mixture_clone_correct components weights target :
  Forall (fun c => forall h, constructed h c -> clone_correct h c target) components ->
  forall h,
    constructed h (BMixture components weights) ->
    clone_correct h (BMixture components weights) target.
Proof.
  intros IH h Hcons. apply constructed_mixture in Hcons.
  unfold clone_correct. rewrite clone_mixture.
  assert (Heach :
    exists clones h',
      (fix each (h : Heap) (cs : list LogLikelihoodBlockPtr)
         : result (list LogLikelihoodBlockPtr * Heap) :=
         match cs with
         | [] => Ok ([], h)
         | c :: cs' =>
             '(c', h') <- LogLikelihoodBlock.clone h c target ;;
             '(cs'', h'') <- each h' cs' ;;
             Ok (c' :: cs'', h'')
         end) h components = Ok (clones, h')
      /\ caches_extend h h'
      /\ forall s,
           caches_extend h' s -> up_to_date s ->
           (forall c, In c components -> identical_parameters s c target) ->
           mapM (LogLikelihoodBlock.evaluate s) clones
           = mapM (LogLikelihoodBlock.evaluate s) components).
  { revert h Hcons. induction IH as [| c cs Hc _ IHcs]; intros h Hcons.
    - exists [], h.
      split; [reflexivity |]. split; [apply caches_extend_refl |].
      intros; reflexivity.
    - inversion Hcons as [| ? ? Hcc Hccs]; subst.
      destruct (Hc h Hcc) as (c' & h1 & Hclone & Hext1 & Hev).
      assert (Hccs1 : Forall (constructed h1) cs).
      { eapply Forall_impl; [| exact Hccs].
        intros x. apply constructed_extend. exact Hext1. }
      destruct (IHcs h1 Hccs1) as (cs' & h2 & Hrest & Hext2 & Hevs).
      exists (c' :: cs'), h2.
      rewrite Hclone. cbn [bind]. rewrite Hrest. cbn [bind].
      split; [reflexivity |].
      split; [eapply caches_extend_trans; eassumption |].
      intros s Hs Hfresh Hparams. cbn [mapM].
      rewrite Hev;
        [| eapply caches_extend_trans; eassumption | assumption
         | apply Hparams; left; reflexivity ].
      rewrite Hevs; [reflexivity | assumption | assumption |].
      intros x Hx. apply Hparams. right. exact Hx. }
  destruct Heach as (clones & h' & Heach & Hext & Hevs).
  rewrite Heach. cbn [bind].
  eexists. eexists. split; [reflexivity |]. split; [exact Hext |].
  intros s Hs Hfresh Hparams.
  rewrite !evaluate_mixture. rewrite Hevs; [reflexivity | assumption | assumption |].
  intros c Hc. eapply identical_parameters_component; eassumption.
Qed.

Lemma clone_correct_constructed target b :
  forall h, constructed h b -> clone_correct h b target.
Proof.
  induction b as [g | l | a | cs ws IH | m] using LogLikelihoodBlockPtr_nested_ind;
    intros h Hcons.
  - apply Gaussian_clone_correct. exact Hcons.
  - apply LogGamma_clone_correct. exact Hcons.
  - apply Amoroso_clone_correct. exact Hcons.
  - apply Mixture_clone_correct; assumption.
  - apply MultivariateGaussian_clone_correct. exact Hcons.
Qed.

(** Every slot that a clone reads lies in the cache it was cloned onto. *)
Lemma clone_slots_on_target target b :
  forall h b' h',
    LogLikelihoodBlock.clone h b target = Ok (b', h') ->
    Forall (fun slot => fst slot = target) (block_slots b').
Proof.
  induction b as [g | l | a | cs ws IH | m] using LogLikelihoodBlockPtr_nested_ind;
    intros h b' h'.
  - cbn [LogLikelihoodBlock.clone]. unfold GaussianBlock.clone.
    destruct (clone_observable h _ _ target) as [[id' h1] |]; cbn [bind];
      [| discriminate].
    intros H. injection H as <- _. repeat constructor.
  - cbn [LogLikelihoodBlock.clone]. unfold LogGammaBlock.clone.
    destruct (clone_observable h _ _ target) as [[id' h1] |]; cbn [bind];
      [| discriminate].
    unfold LogGammaBlock.make.
    destruct (Rgt_dec _ _); [discriminate |].
    destruct (Rgt_dec _ _); [discriminate |].
    cbn [bind]. intros H. injection H as <- _. repeat constructor.
  - cbn [LogLikelihoodBlock.clone]. unfold AmorosoBlock.clone.
    destruct (clone_observable h _ _ target) as [[id' h1] |]; cbn [bind];
      [| discriminate].
    unfold AmorosoBlock.make.
    destruct (Rle_dec _ _); [discriminate |].
    destruct (Rle_dec _ _); [discriminate |].
    destruct (Rle_dec _ _); [discriminate |].
    cbn [bind]. intros H. injection H as <- _. repeat constructor.
  - rewrite clone_mixture.
    revert h b' h'. induction IH as [| c cs Hc _ IHcs]; intros h b' h'.
    + cbn [bind]. intros H. injection H as <- _. constructor.
    + destruct (LogLikelihoodBlock.clone h c target) as [[c' h1] |] eqn:Hclone;
        cbn [bind]; [| discriminate].
      specialize (IHcs h1).
      destruct ((fix each (h : Heap) (cs : list LogLikelihoodBlockPtr)
                   : result (list LogLikelihoodBlockPtr * Heap) :=
                   match cs with
                   | [] => Ok ([], h)
                   | c :: cs' =>
                       '(c', h') <- LogLikelihoodBlock.clone h c target ;;
                       '(cs'', h'') <- each h' cs' ;;
                       Ok (c' :: cs'', h'')
                   end) h1 cs) as [[cs' h2] |]; cbn [bind]; [| discriminate].
      intros H. injection H as <- _.
      cbn [block_slots flat_map]. apply Forall_app. split.
      * eapply Hc. exact Hclone.
      * apply (IHcs (BMixture cs' ws) h2). reflexivity.
  - cbn [LogLikelihoodBlock.clone]. unfold MultivariateGaussianBlock.clone.
    destruct (MultivariateGaussianBlock.clone_ids h _ _ target) as [[ids' h1] |];
      cbn [bind]; [| discriminate].
    destruct (MultivariateGaussianBlock.make target ids' _ _ _) as [m' |] eqn:Hmake;
      cbn [bind]; [| discriminate].
    intros H. injection H as <- _.
    destruct (MultivariateGaussian_make_inv _ _ _ _ _ _ Hmake) as (_ & _ & _ & ->).
    cbn [block_slots MultivariateGaussianBlock._cache MultivariateGaussianBlock._ids].
    apply Forall_forall. intros slot Hin. apply in_map_iff in Hin.
    destruct Hin as (id & <- & _). reflexivity.
Qed.

(** The checks of the explicit LogGamma constructor read neither the cache
    nor the id. *)
Lemma LogGamma_make_fails_anywhere c i c' i' min central max lambda alpha n f :
  LogGammaBlock.make c i min central max lambda alpha n = Fail f ->
  LogGammaBlock.make c' i' min central max lambda alpha n = Fail f.
Proof.
  unfold LogGammaBlock.make.
  destruct (Rgt_dec _ _); [trivial |].
  destruct (Rgt_dec _ _); [trivial | discriminate].
Qed.

(** C7. A block of any of the five kinds that passes the checks of its
    constructor is cloned: [clone] onto a cache returns a block that reads
    that cache only, and in every later state in which the caches are up to
    date and the parameters of the target cache hold the values of the
    parameters of the block's observables, [evaluate] of the clone equals
    [evaluate] of the original.  [clone] of a LogGamma block runs the checks
    of the explicit constructor again: for a block whose fields miss them,
    as the fitting constructor can leave it, [clone] throws what that
    constructor throws. *)
Theorem clone_preserves_evaluate (h : Heap) (b : LogLikelihoodBlockPtr)
    (target : Handle) :
  (constructed h b ->
   exists b' h',
     LogLikelihoodBlock.clone h b target = Ok (b', h')
     /\ Forall (fun slot => fst slot = target) (block_slots b')
     /\ forall s,
          caches_extend h' s -> up_to_date s -> identical_parameters s b target ->
          LogLikelihoodBlock.evaluate s b' = LogLikelihoodBlock.evaluate s b)
  /\ (forall l f,
         b = BLogGamma l ->
         slot_registered h (LogGammaBlock.cache l) (LogGammaBlock.id l) ->
         LogGammaBlock.make (LogGammaBlock.cache l) (LogGammaBlock.id l)
           (LogGammaBlock.central l - LogGammaBlock.sigma_lower l)
           (LogGammaBlock.central l)
           (LogGammaBlock.central l + LogGammaBlock.sigma_upper l)
           (LogGammaBlock.lambda l) (LogGammaBlock.alpha l)
           (LogGammaBlock._number_of_observations l) = Fail f ->
         LogLikelihoodBlock.clone h b target = Fail f).
Proof.
  split.
  - intros Hcons.
    destruct (clone_correct_constructed target b h Hcons)
      as (b' & h' & Hclone & _ & Hev).
    exists b', h'. split; [exact Hclone |]. split; [| exact Hev].
    eapply clone_slots_on_target. exact Hclone.
  - intros l f -> Hslot Hmake.
    apply LogGamma_clone_rechecks; [exact Hslot |].
    intros c i. eapply LogGamma_make_fails_anywhere. exact Hmake.
Qed.

(** The blocks that the checking factory functions return pass the checks of
    their constructors. *)
Lemma Gaussian_make_constructed c i min central max n :
  let g := GaussianBlock.make c i min central max n in
  GaussianBlock.make c i (GaussianBlock.mode g - GaussianBlock.sigma_lower g)
    (GaussianBlock.mode g) (GaussianBlock.mode g + GaussianBlock.sigma_upper g) n
  = g.
Proof.
  simpl. unfold GaussianBlock.make.
  replace (central - (central - (central - min))) with (central - min) by ring.
  replace (central + (max - central) - central) with (max - central) by ring.
  reflexivity.
Qed.

Lemma cache_add_registered h c o :
  slot_registered (snd (cache_add h c o)) c (fst (cache_add h c o)).
Proof.
  exists o. unfold cache_add, ObservableCache.add, set_cache, ObservableCache.observable.
  simpl. rewrite Nat.eqb_refl. simpl.
  rewrite nth_error_app2 by lia. rewrite Nat.sub_diag. reflexivity.
Qed.

Lemma Gaussian_factory_constructed h c o min central max n b h' :
  LogLikelihoodBlock.Gaussian h c o min central max n = Ok (b, h') ->
  constructed h' b.
Proof.
  unfold LogLikelihoodBlock.Gaussian.
  destruct (Rge_dec min central); [discriminate |].
  destruct (Rle_dec max central); [discriminate |].
  pose proof (cache_add_registered h c o) as Hreg.
  destruct (cache_add h c o) as [index h0]. intros H. injection H as <- <-.
  split; [exact Hreg | apply Gaussian_make_constructed].
Qed.

Lemma LogGamma_factory_constructed h c o min central max lambda alpha n b h' :
  LogLikelihoodBlock.LogGamma h c o min central max lambda alpha n = Ok (b, h') ->
  constructed h' b.
Proof.
  unfold LogLikelihoodBlock.LogGamma.
  destruct (Rge_dec min central); [discriminate |].
  destruct (Rle_dec max central); [discriminate |].
  destruct (Rle_dec alpha 0); [discriminate |].
  pose proof (cache_add_registered h c o) as Hreg.
  destruct (cache_add h c o) as [index h0].
  destruct (LogGammaBlock.make c index min central max lambda alpha n) as [l |] eqn:Hmake;
    [| discriminate].
  cbn [bind]. intros H. injection H as <- <-.
  assert (Hfields : LogGammaBlock.cache l = c /\ LogGammaBlock.id l = index
                    /\ LogGammaBlock.central l = central
                    /\ LogGammaBlock.sigma_lower l = central - min
                    /\ LogGammaBlock.sigma_upper l = max - central
                    /\ LogGammaBlock.lambda l = lambda
                    /\ LogGammaBlock.alpha l = alpha
                    /\ LogGammaBlock._number_of_observations l = n).
  { revert Hmake. unfold LogGammaBlock.make.
    destruct (Rgt_dec _ _); [discriminate |].
    destruct (Rgt_dec _ _); [discriminate |].
    intros H. injection H as <-. simpl. repeat split; reflexivity. }
  destruct Hfields as (Hk & Hi & Hc & Hsl & Hsu & Hl & Ha & Hn).
  cbn [constructed]. rewrite Hk, Hi, Hc, Hsl, Hsu, Hl, Ha, Hn.
  simpl in Hreg. split; [exact Hreg |].
  replace (central - (central - min)) with min by ring.
  replace (central + (max - central)) with max by ring.
  exact Hmake.
Qed.

Lemma Amoroso_make_constructed h c i pl theta alpha beta n a :
  slot_registered h c i ->
  AmorosoBlock.make c i pl theta alpha beta n = Ok a ->
  constructed h (BAmoroso a).
Proof.
  intros Hreg Hmake.
  destruct (Amoroso_make_inv _ _ _ _ _ _ _ _ Hmake)
    as (_ & _ & _ & Hk & Hi & Hpl & Ht & Ha & Hb & Hn).
  cbn [constructed]. rewrite Hk, Hi, Hpl, Ht, Ha, Hb, Hn.
  split; assumption.
Qed.

Lemma AmorosoLimit_factory_constructed h c o pl ul90 ul95 theta alpha n b h' :
  LogLikelihoodBlock.AmorosoLimit h c o pl ul90 ul95 theta alpha n = Ok (b, h') ->
  constructed h' b.
Proof.
  intros Hbuilt.
  destruct (AmorosoLimit_inv _ _ _ _ _ _ _ _ _ _ _ Hbuilt) as (a & -> & Hmake).
  assert (Hh' : h' = snd (cache_add h c o)).
  { revert Hbuilt. unfold LogLikelihoodBlock.AmorosoLimit.
    destruct (Rle_dec ul90 pl); [discriminate |].
    destruct (Rle_dec ul95 pl); [discriminate |].
    destruct (Rle_dec ul95 ul90); [discriminate |].
    destruct (cache_add h c o) as [index h0]. simpl.
    destruct (AmorosoBlock.make c index pl theta alpha (1 / alpha) n) as [a0 |];
      simpl; [| discriminate].
    destruct (AmorosoBlock.cdf a0 ul90); simpl; [| discriminate].
    destruct (Rgt_dec _ _); [discriminate |].
    destruct (AmorosoBlock.cdf a0 ul95); simpl; [| discriminate].
    destruct (Rgt_dec _ _); [discriminate |].
    intros H. injection H as _ <-. reflexivity. }
  subst h'. eapply Amoroso_make_constructed; [apply cache_add_registered | exact Hmake].
Qed.

Lemma AmorosoMode_factory_constructed {rounding : Rounding}
    h c o pl mode ul90 ul95 theta alpha beta n b h' :
  LogLikelihoodBlock.AmorosoMode h c o pl mode ul90 ul95 theta alpha beta n = Ok (b, h') ->
  constructed h' b.
Proof.
  unfold LogLikelihoodBlock.AmorosoMode.
  destruct (Rle_dec mode pl); [discriminate |].
  destruct (Rle_dec ul90 pl); [discriminate |].
  destruct (Rle_dec ul95 ul90); [discriminate |].
  pose proof (cache_add_registered h c o) as Hreg.
  destruct (cache_add h c o) as [index h0]. simpl in Hreg.
  destruct (AmorosoBlock.make c index pl theta alpha beta n) as [a |] eqn:Hmake;
    simpl; [| discriminate].
  destruct (LogLikelihoodBlock.mode_deviates (AmorosoBlock.mode a) mode);
    simpl; [| discriminate].
  destruct (AmorosoBlock.cdf a ul90); simpl; [| discriminate].
  destruct (Rgt_dec _ _); [discriminate |].
  destruct (AmorosoBlock.cdf a ul95); simpl; [| discriminate].
  destruct (Rgt_dec _ _); [discriminate |].
  intros H. injection H as <- <-.
  eapply Amoroso_make_constructed; eassumption.
Qed.

Lemma Amoroso_quantiles_factory_constructed
    h c o pl ul10 ul50 ul90 theta alpha beta n b h' :
  LogLikelihoodBlock.Amoroso_quantiles h c o pl ul10 ul50 ul90 theta alpha beta n
  = Ok (b, h') ->
  constructed h' b.
Proof.
  unfold LogLikelihoodBlock.Amoroso_quantiles.
  destruct (Rle_dec ul10 pl); [discriminate |].
  destruct (Rle_dec ul50 pl); [discriminate |].
  destruct (Rle_dec ul90 ul50); [discriminate |].
  pose proof (cache_add_registered h c o) as Hreg.
  destruct (cache_add h c o) as [index h0]. simpl in Hreg.
  destruct (AmorosoBlock.make c index pl theta alpha beta n) as [a |] eqn:Hmake;
    simpl; [| discriminate].
  destruct (AmorosoBlock.cdf a ul10); simpl; [| discriminate].
  destruct (Rgt_dec _ _); [discriminate |].
  destruct (AmorosoBlock.cdf a ul50); simpl; [| discriminate].
  destruct (Rgt_dec _ _); [discriminate |].
  destruct (AmorosoBlock.cdf a ul90); simpl; [| discriminate].
  destruct (Rgt_dec _ _); [discriminate |].
  intros H. injection H as <- <-.
  eapply Amoroso_make_constructed; eassumption.
Qed.

Lemma Amoroso_factory_constructed h c o pl theta alpha beta n b h' :
  LogLikelihoodBlock.Amoroso h c o pl theta alpha beta n = Ok (b, h') ->
  constructed h' b.
Proof.
  unfold LogLikelihoodBlock.Amoroso.
  pose proof (cache_add_registered h c o) as Hreg.
  destruct (cache_add h c o) as [index h0]. simpl in Hreg.
  destruct (AmorosoBlock.make c index pl theta alpha beta n) as [a |] eqn:Hmake;
    simpl; [| discriminate].
  intros H. injection H as <- <-.
  eapply Amoroso_make_constructed; eassumption.
Qed.

(** The loop of the [MultivariateGaussian] factory registers every
    observable. *)
Lemma register_all c observables :
  forall indices h,
    let r := fold_left
               (fun '(indices, h) o =>
                  let '(i, h') := cache_add h c o in (indices ++ [i], h'))
               observables (indices, h) in
    caches_extend h (snd r)
    /\ exists new, fst r = indices ++ new /\ Forall (slot_registered (snd r) c) new.
Proof.
  induction observables as [| o os IH]; intros indices h; cbn [fold_left].
  - split; [apply caches_extend_refl |].
    exists []. split; [rewrite app_nil_r; reflexivity | constructor].
  - pose proof (cache_add_registered h c o) as Hreg.
    pose proof (cache_add_extends h c o) as Hext.
    destruct (cache_add h c o) as [i h1]. simpl in Hreg, Hext.
    destruct (IH (indices ++ [i]) h1) as (Hext1 & new & Hfst & Hnew).
    split; [eapply caches_extend_trans; eassumption |].
    exists (i :: new). split; [rewrite Hfst, <- app_assoc; reflexivity |].
    constructor; [| exact Hnew].
    eapply slot_registered_extend; eassumption.
Qed.

Lemma MultivariateGaussian_factory_constructed h c observables mean covariance n b h' :
  LogLikelihoodBlock.MultivariateGaussian h c observables mean covariance n
  = Ok (b, h') ->
  constructed h' b.
Proof.
  unfold LogLikelihoodBlock.MultivariateGaussian.
  destruct (register_all c observables [] h) as (_ & new & Hfst & Hnew).
  destruct (fold_left _ observables ([], h)) as [indices h0].
  simpl in Hfst, Hnew. subst indices.
  destruct (MultivariateGaussianBlock.make c new mean covariance n) as [m |] eqn:Hmake;
    simpl; [| discriminate].
  intros H. injection H as <- <-.
  destruct (MultivariateGaussian_make_inv _ _ _ _ _ _ Hmake) as (_ & _ & _ & Hm).
  assert (Hc : MultivariateGaussianBlock._cache m = c) by (rewrite Hm; reflexivity).
  assert (Hi : MultivariateGaussianBlock._ids m = new) by (rewrite Hm; reflexivity).
  assert (Hmean : MultivariateGaussianBlock._mean m = mean) by (rewrite Hm; reflexivity).
  assert (Hcov : MultivariateGaussianBlock._covariance m = covariance)
    by (rewrite Hm; reflexivity).
  assert (Hn : MultivariateGaussianBlock._number_of_observations m = n)
    by (rewrite Hm; reflexivity).
  cbn [constructed]. rewrite Hc, Hi, Hmean, Hcov, Hn.
  split; [exact Hnew | exact Hmake].
Qed.

Lemma Mixture_factory_constructed h components weights b :
  LogLikelihoodBlock.Mixture components weights = Ok b ->
  Forall (constructed h) components ->
  constructed h b.
Proof.
  rewrite Mixture_factory_unfold.
  destruct (Nat.eqb _ _); [| discriminate].
  intros H Hcs. injection H as <-. apply constructed_mixture. exact Hcs.
Qed.

Lemma registered_heap_up_to_date : up_to_date registered_heap.
Proof. intros c. reflexivity. Qed.
End Cloning.

(** The fitting LogGamma factory, called for the interval [-1, 2] around 0
    with a solver whose search stops without converging at [lambda = -1/10],
    [alpha = 1], returns a block: the failed fit is only logged.  Between
    [-1] and [2] that block holds more than 86% of the probability, and the
    explicit constructor rejects its fields. *)
Lemma stalled_fit_leaves_unchecked_block :
  exists l h',
    LogLikelihoodBlock.LogGamma_fitted (gsl := example_gsl)
      (solver := stalled_solver (- / 10) 1)
      example_heap O example_observable (-1) 0 2 1%Z = Ok (BLogGamma l, h')
    /\ slot_registered h' (LogGammaBlock.cache l) (LogGammaBlock.id l)
    /\ LogGammaBlock.make (gsl := example_gsl)
         (LogGammaBlock.cache l) (LogGammaBlock.id l)
         (LogGammaBlock.central l - LogGammaBlock.sigma_lower l)
         (LogGammaBlock.central l)
         (LogGammaBlock.central l + LogGammaBlock.sigma_upper l)
         (LogGammaBlock.lambda l) (LogGammaBlock.alpha l)
         (LogGammaBlock._number_of_observations l)
       = Fail (InternalError "LogLikelihoodBlock::LogGamma.ctor: For the current parameter values, the interval [lower, upper] doesn't contain approx. 68%").
Proof.
  unfold LogLikelihoodBlock.LogGamma_fitted.
  destruct (Rge_dec (-1) 0) as [H | _]; [lra |].
  destruct (Rle_dec 2 0) as [H | _]; [lra |].
  cbn.
  eexists. eexists. split; [reflexivity |].
  split; [exists example_observable; reflexivity |].
  cbn [LogGammaBlock.central LogGammaBlock.sigma_lower LogGammaBlock.sigma_upper
       LogGammaBlock.lambda LogGammaBlock.alpha LogGammaBlock._number_of_observations
       LogGammaBlock.cache LogGammaBlock.id].
  destruct (Rgt_dec (2 - 0) (0 - -1)) as [_ | H]; [| exfalso; lra].
  unfold LogGammaBlock.make.
  replace ((0 - -1) / 1 * - / 10) with (- / 10) by field.
  rewrite ln_1.
  replace (0 - - / 10 * 0) with 0 by ring.
  unfold LogGammaBlock.cdf_of.
  destruct (Rlt_dec (- / 10) 0) as [_ | H]; [| exfalso; lra].
  cbn [gsl_sf_gamma_inc_Q example_gsl].
  replace ((0 + (0 + (2 - 0) - 0) - 0) / - / 10) with (Ropp 20) by field.
  replace ((0 - (0 - (0 - (0 - -1))) - 0) / - / 10) with 10 by field.
  destruct (Rgt_dec _ LogGammaBlock.eps) as [_ | Hsmall]; [reflexivity |].
  exfalso. apply Hsmall. clear Hsmall.
  unfold LogGammaBlock.one_sigma_coverage, LogGammaBlock.eps.
  pose proof (exp_ineq1_le 20) as H20.
  pose proof (exp_ineq1_le 10) as H10.
  pose proof (exp_ineq1_le (- exp (Ropp 20))) as Hup.
  pose proof (exp_ineq1_le (exp 10)) as Hlow.
  assert (Hinv20 : exp (Ropp 20) <= / 21).
  { rewrite exp_Ropp. apply Rinv_le_contravar; lra. }
  assert (Hinv10 : exp (- exp 10) <= / 12).
  { rewrite exp_Ropp. apply Rinv_le_contravar; lra. }
  rewrite Rabs_pos_eq; lra.
Qed.

Lemma clone_preserves_evaluate_witness :
  exists b' h',
    @LogLikelihoodBlock.clone example_gsl registered_heap
      (BMixture example_components [/ 4; 3 / 4]) O = Ok (b', h')
    /\ Forall (fun slot => fst slot = O) (block_slots b')
    /\ forall s,
         caches_extend h' s -> up_to_date s ->
         identical_parameters s (BMixture example_components [/ 4; 3 / 4]) O ->
         LogLikelihoodBlock.evaluate s b'
         = LogLikelihoodBlock.evaluate s (BMixture example_components [/ 4; 3 / 4]).
Proof.
  apply (proj1 (@clone_preserves_evaluate example_gsl registered_heap
                  (BMixture example_components [/ 4; 3 / 4]) O)).
  assert (Hg : @constructed example_gsl registered_heap (BGaussian example_gaussian)).
  { split; [exists example_observable; reflexivity |].
    apply (Gaussian_make_constructed O O 0.9 1 1.2 1%Z). }
  simpl. repeat split; apply Hg.
Defined.

(** C7, the counterexample.  The block that the fitting LogGamma factory
    returns for the interval [-1, 2] around 0, when the search of the solver
    stops without converging at [lambda = -1/10], [alpha = 1], is a block
    whose [clone] throws the InternalError of the explicit constructor
    instead of returning a block. *)
Lemma fitted_LogGamma_clone_throws :
  exists l h',
    LogLikelihoodBlock.LogGamma_fitted (gsl := example_gsl)
      (solver := stalled_solver (- / 10) 1)
      example_heap O example_observable (-1) 0 2 1%Z = Ok (BLogGamma l, h')
    /\ LogLikelihoodBlock.clone (gsl := example_gsl) h' (BLogGamma l) 1%nat
       = Fail (InternalError "LogLikelihoodBlock::LogGamma.ctor: For the current parameter values, the interval [lower, upper] doesn't contain approx. 68%").
Proof.
  destruct stalled_fit_leaves_unchecked_block as (l & h' & Hfit & Hslot & Hmake).
  exists l, h'. split; [exact Hfit |].
  apply LogGamma_clone_rechecks; [exact Hslot |].
  intros c i. eapply LogGamma_make_fails_anywhere. exact Hmake.
Qed.

(** * Further properties *)

(** ** The observable factory: which names are found, which throw *)

Lemma Observable_make_unfold _name parameters kinematics _options :
  Observable_make _name parameters kinematics _options
  = Observable_make_contract _name parameters kinematics _options.
Proof.
  unfold Observable_make, Observable_make_contract.
  pose proof (split_at_commas_join (list_ascii_of_string _name)) as Hsplit.
  destruct (split_at_commas (list_ascii_of_string _name)) as [base clauses].
  destruct Hsplit as (Hname & Hb & Hcs & Hlen).
  rewrite Hname at 2.
  rewrite (strip_options_spec _name base clauses Hb Hcs) by lia.
  destruct (parse_clauses clauses) as [kvs |]; reflexivity.
Qed.

Lemma split_at_commas_no_comma (s : list ascii) :
  no_comma s -> split_at_commas s = (s, []).
Proof.
  unfold no_comma. induction s as [| a s IH]; intros H; simpl; [reflexivity |].
  rewrite IH by (intros Hin; apply H; right; exact Hin).
  destruct (Ascii.eqb a comma) eqn:E; [| reflexivity].
  apply Ascii.eqb_eq in E. exfalso. apply H. left. exact E.
Qed.

Lemma no_comma_check (s : list ascii) :
  existsb (Ascii.eqb comma) s = false -> no_comma s.
Proof.
  intros H Hin.
  assert (existsb (Ascii.eqb comma) s = true).
  { apply existsb_exists. exists comma. split; [exact Hin | apply Ascii.eqb_refl]. }
  congruence.
Qed.

Lemma simple_observables_have_no_comma :
  forallb (fun n => negb (existsb (Ascii.eqb comma) (list_ascii_of_string n)))
          simple_observables = true.
Proof. vm_compute. reflexivity. Qed.

Lemma In_of_existsb_string (n : string) (l : list string) :
  existsb (String.eqb n) l = true -> In n l.
Proof.
  intros H. apply existsb_exists in H. destruct H as (x & Hin & Heq).
  apply String.eqb_eq in Heq. subst x. exact Hin.
Qed.

(** X1. Every key of the registry is found under its own name: no key
    contains a comma, so nothing is stripped, no option is recorded and the
    factory of that key is called with the caller's options. *)
Theorem Observable_make_finds_registered_names name parameters kinematics _options :
  In name simple_observables ->
  Observable_make name parameters kinematics _options
  = Ok (Some {| ObservableFactory.name := name;
                ObservableFactory.parameters := parameters;
                ObservableFactory.kinematics := kinematics;
                ObservableFactory.options := Options.merge [] _options |}).
Proof.
  intros Hin.
  pose proof simple_observables_have_no_comma as Hall.
  rewrite forallb_forall in Hall. specialize (Hall name Hin).
  apply negb_true_iff in Hall. apply no_comma_check in Hall.
  rewrite Observable_make_unfold. unfold Observable_make_contract.
  rewrite (split_at_commas_no_comma _ Hall). cbn [parse_clauses].
  rewrite string_of_list_ascii_of_string.
  assert (Hfound : existsb (String.eqb name) simple_observables = true).
  { apply existsb_exists. exists name. split; [exact Hin | apply String.eqb_refl]. }
  rewrite Hfound. reflexivity.
Qed.

Lemma Observable_make_finds_registered_names_witness :
  Observable_make "B->K^*ll::A_FB@LowRecoil" O [] []
  = Ok (Some {| ObservableFactory.name := "B->K^*ll::A_FB@LowRecoil";
                ObservableFactory.parameters := O;
                ObservableFactory.kinematics := [];
                ObservableFactory.options := Options.merge [] [] |}).
Proof.
  apply (Observable_make_finds_registered_names "B->K^*ll::A_FB@LowRecoil" O [] []).
  apply In_of_existsb_string. vm_compute. reflexivity.
Defined.

Lemma split_at_equals_None (c : list ascii) :
  split_at_equals c = None <-> ~ In equals_sign c.
Proof.
  induction c as [| a c IH]; simpl.
  - split; [intros _ [] | reflexivity].
  - destruct (Ascii.eqb a equals_sign) eqn:E.
    + apply Ascii.eqb_eq in E. subst a.
      split; [discriminate | intros H; exfalso; apply H; left; reflexivity].
    + apply Ascii.eqb_neq in E.
      destruct (split_at_equals c) as [[key value] |].
      * split; [discriminate |].
        intros H. exfalso.
        assert (Hc : ~ In equals_sign c) by (intros Hin; apply H; right; exact Hin).
        apply IH in Hc. discriminate.
      * split; [| reflexivity].
        intros _ [Heq | Hin]; [congruence |].
        destruct IH as [IH _]. apply (IH eq_refl). exact Hin.
Qed.

Lemma parse_clauses_None (clauses : list (list ascii)) :
  parse_clauses clauses = None
  <-> exists c, In c clauses /\ ~ In equals_sign c.
Proof.
  induction clauses as [| c cs IH]; simpl.
  - split; [discriminate | intros (c & [] & _)].
  - destruct (split_at_equals c) as [[key value] |] eqn:Hc.
    + destruct (parse_clauses cs) as [kvs |].
      * split; [discriminate |].
        intros (c' & [<- | Hin] & Hno).
        -- apply split_at_equals_None in Hno. congruence.
        -- destruct IH as [_ IH].
           assert (@None (list (string * string)) = None) by reflexivity.
           discriminate (IH (ex_intro _ c' (conj Hin Hno))).
      * split; [| reflexivity].
        intros _. destruct IH as [IH _].
        destruct (IH eq_refl) as (c' & Hin & Hno).
        exists c'. split; [right; exact Hin | exact Hno].
    + split; [| reflexivity].
      intros _. exists c. split; [left; reflexivity |].
      apply split_at_equals_None. exact Hc.
Qed.

(** X2. [Observable::make] throws exactly when one of the clauses that the
    commas of the name introduce holds no equals sign; the exception is
    [ObservableNameError] with the whole name as given, and the call fails in
    no other way. *)
Theorem Observable_make_throws_iff name parameters kinematics _options :
  (Observable_make name parameters kinematics _options
   = Fail (ObservableNameError name)
   <-> exists clause,
         In clause (snd (split_at_commas (list_ascii_of_string name)))
         /\ ~ In equals_sign clause)
  /\ (forall f,
         Observable_make name parameters kinematics _options = Fail f ->
         f = ObservableNameError name).
Proof.
  rewrite Observable_make_unfold. unfold Observable_make_contract.
  destruct (split_at_commas (list_ascii_of_string name)) as [base clauses].
  cbn [snd]. rewrite <- parse_clauses_None.
  destruct (parse_clauses clauses) as [kvs |].
  - split.
    + split; [| discriminate].
      destruct (existsb _ simple_observables); discriminate.
    + intros f. destruct (existsb _ simple_observables); discriminate.
  - split.
    + split; reflexivity.
    + intros f H. injection H as <-. reflexivity.
Qed.

Lemma list_ascii_of_string_app (a b : string) :
  list_ascii_of_string (a ++ b)%string
  = list_ascii_of_string a ++ list_ascii_of_string b.
Proof. induction a as [| c a IH]; simpl; [reflexivity | f_equal; exact IH]. Qed.

Lemma split_at_commas_snoc (s c : list ascii) :
  no_comma c ->
  split_at_commas (s ++ comma :: c)
  = (fst (split_at_commas s), snd (split_at_commas s) ++ [c]).
Proof.
  intros Hc. induction s as [| a s IH]; simpl.
  - rewrite (split_at_commas_no_comma c Hc). reflexivity.
  - rewrite IH. destruct (split_at_commas s) as [base clauses]. simpl.
    destruct (Ascii.eqb a comma); reflexivity.
Qed.

Lemma split_at_equals_key (key value : list ascii) :
  ~ In equals_sign key ->
  split_at_equals (key ++ equals_sign :: value) = Some (key, value).
Proof.
  induction key as [| a key IH]; intros H; simpl.
  - reflexivity.
  - destruct (Ascii.eqb a equals_sign) eqn:E.
    + apply Ascii.eqb_eq in E. exfalso. apply H. left. exact E.
    + rewrite IH by (intros Hin; apply H; right; exact Hin). reflexivity.
Qed.

(** X3. A further clause [,key=value] at the end of a name, with no comma
    nor equals sign in the key and no comma in the value, changes neither
    whether an observable is found nor which one: a null result stays null,
    a found observable is found under the same registry name, and a name
    that throws still throws. *)
Theorem Observable_make_option_suffix_keeps_lookup
    name key value parameters kinematics _options :
  ~ In comma (list_ascii_of_string key) ->
  ~ In equals_sign (list_ascii_of_string key) ->
  ~ In comma (list_ascii_of_string value) ->
  let longer := with_option name key value in
  (Observable_make name parameters kinematics _options = Ok None ->
   Observable_make longer parameters kinematics _options = Ok None)
  /\ (forall m,
         Observable_make name parameters kinematics _options = Ok (Some m) ->
         exists m',
           Observable_make longer parameters kinematics _options = Ok (Some m')
           /\ ObservableFactory.name m' = ObservableFactory.name m)
  /\ (forall f,
         Observable_make name parameters kinematics _options = Fail f ->
         Observable_make longer parameters kinematics _options
         = Fail (ObservableNameError longer)).
Proof.
  intros Hkc Hke Hvc longer.
  rewrite !Observable_make_unfold. unfold Observable_make_contract.
  assert (Hlonger : list_ascii_of_string longer
                    = list_ascii_of_string name
                      ++ comma :: (list_ascii_of_string key
                                   ++ equals_sign :: list_ascii_of_string value)).
  { unfold longer, with_option. rewrite !list_ascii_of_string_app. reflexivity. }
  rewrite Hlonger.
  rewrite split_at_commas_snoc.
  2:{ unfold no_comma. intros Hin. apply in_app_or in Hin.
      destruct Hin as [Hin | [Heq | Hin]]; [tauto | discriminate | tauto]. }
  destruct (split_at_commas (list_ascii_of_string name)) as [base clauses].
  cbn [fst snd]. rewrite parse_clauses_snoc, split_at_equals_key by exact Hke.
  destruct (parse_clauses clauses) as [kvs |].
  - destruct (existsb _ simple_observables).
    + split; [discriminate |]. split; [| discriminate].
      intros m H. injection H as <-. eexists. split; reflexivity.
    + split; [reflexivity |]. split; discriminate.
  - split; [discriminate |]. split; [discriminate |]. reflexivity.
Qed.

Local Open Scope string_scope.

Lemma Observable_make_option_suffix_keeps_lookup_witness :
  let longer := with_option "B_q->ll::BR,model=SM" "l" "mu" in
  (Observable_make "B_q->ll::BR,model=SM" O [] [] = Ok None ->
   Observable_make longer O [] [] = Ok None)
  /\ (forall m,
         Observable_make "B_q->ll::BR,model=SM" O [] [] = Ok (Some m) ->
         exists m',
           Observable_make longer O [] [] = Ok (Some m')
           /\ ObservableFactory.name m' = ObservableFactory.name m)
  /\ (forall f,
         Observable_make "B_q->ll::BR,model=SM" O [] [] = Fail f ->
         Observable_make longer O [] []
         = Fail (ObservableNameError longer)).
Proof.
  apply (Observable_make_option_suffix_keeps_lookup
           "B_q->ll::BR,model=SM" "l" "mu" O [] []).
  - simpl. intros [H | []]. discriminate.
  - simpl. intros [H | []]. discriminate.
  - simpl. intros [H | [H | []]]; discriminate.
Defined.

Local Close Scope string_scope.

(** ** The Gaussian block: maximum, significance, sampling *)

Lemma Gaussian_factory_inv h cache o min central max n g h' :
  LogLikelihoodBlock.Gaussian h cache o min central max n = Ok (BGaussian g, h') ->
  min < central /\ central < max
  /\ g = GaussianBlock.make cache (fst (cache_add h cache o)) min central max n.
Proof.
  unfold LogLikelihoodBlock.Gaussian.
  destruct (Rge_dec min central) as [| Hlo]; [discriminate |].
  destruct (Rle_dec max central) as [| Hhi]; [discriminate |].
  destruct (cache_add h cache o) as [index h0].
  intros H. injection H as <- _. repeat split; lra.
Qed.

Lemma Gaussian_factory_sigmas h cache o min central max n g h' :
  LogLikelihoodBlock.Gaussian h cache o min central max n = Ok (BGaussian g, h') ->
  0 < GaussianBlock.sigma_lower g /\ 0 < GaussianBlock.sigma_upper g
  /\ GaussianBlock.c_upper g
     = 2 * GaussianBlock.sigma_upper g
       / (GaussianBlock.sigma_upper g + GaussianBlock.sigma_lower g)
  /\ GaussianBlock.c_lower g
     = GaussianBlock.sigma_lower g / GaussianBlock.sigma_upper g
       * GaussianBlock.c_upper g.
Proof.
  intros Hbuilt.
  destruct (Gaussian_factory_inv _ _ _ _ _ _ _ _ _ Hbuilt) as (Hlo & Hhi & ->).
  cbn [GaussianBlock.make GaussianBlock.sigma_lower GaussianBlock.sigma_upper
       GaussianBlock.c_upper GaussianBlock.c_lower].
  repeat split; lra.
Qed.

(** X4. A Gaussian block built by the factory never evaluates above its
    [norm], in any state of the cache, and evaluates to [norm] exactly when
    the cached value is the mode. *)
Theorem Gaussian_evaluate_maximal_at_mode h cache o min central max n g h' :
  LogLikelihoodBlock.Gaussian h cache o min central max n = Ok (BGaussian g, h') ->
  forall s : Heap,
    GaussianBlock.evaluate s g <= GaussianBlock.norm g
    /\ (GaussianBlock.evaluate s g = GaussianBlock.norm g
        <-> cache_get s (GaussianBlock.cache g) (GaussianBlock.id g)
            = GaussianBlock.mode g).
Proof.
  intros Hbuilt s.
  destruct (Gaussian_factory_sigmas _ _ _ _ _ _ _ _ _ Hbuilt) as (Ha & Hb & _).
  unfold GaussianBlock.evaluate, power_of_2.
  set (value := cache_get s (GaussianBlock.cache g) (GaussianBlock.id g)).
  set (sigma := if Rgt_dec value (GaussianBlock.mode g)
                then GaussianBlock.sigma_upper g else GaussianBlock.sigma_lower g).
  assert (Hsigma : 0 < sigma)
    by (unfold sigma; destruct (Rgt_dec value (GaussianBlock.mode g)); lra).
  cbv zeta.
  set (chi := (value - GaussianBlock.mode g) / sigma).
  assert (Hsq : 0 <= chi * chi) by nra.
  split; [lra |].
  split.
  - intros Heq. assert (Hchi : chi = 0) by nra.
    unfold chi, Rdiv in Hchi.
    apply Rmult_integral in Hchi. destruct Hchi as [Hz | Hinv]; [lra |].
    exfalso. apply (Rinv_neq_0_compat sigma); lra.
  - intros Heq. unfold chi. rewrite Heq.
    replace (GaussianBlock.mode g - GaussianBlock.mode g) with 0 by ring.
    unfold Rdiv. lra.
Qed.

Lemma Gaussian_evaluate_maximal_at_mode_witness :
  let s := registered_heap in
  let g := GaussianBlock.make O O 0.9 1 1.2 1%Z in
  GaussianBlock.evaluate s g <= GaussianBlock.norm g
  /\ (GaussianBlock.evaluate s g = GaussianBlock.norm g
      <-> cache_get s (GaussianBlock.cache g) (GaussianBlock.id g)
          = GaussianBlock.mode g).
Proof.
  intros s g.
  apply (Gaussian_evaluate_maximal_at_mode example_heap O example_observable
           0.9 1 1.2 1%Z g (snd (cache_add example_heap O example_observable)))
    with (s := s).
  unfold LogLikelihoodBlock.Gaussian.
  destruct (Rge_dec 0.9 1); [lra |].
  destruct (Rle_dec 1.2 1); [lra |].
  reflexivity.
Defined.

(** X5. For a Gaussian block built by the factory, [evaluate] is
    [norm - significance^2 / 2], the chi-square test statistic is
    [2 * (norm - evaluate)], and [significance] is positive exactly when the
    cached value lies below the mode and zero exactly at the mode. *)
Theorem Gaussian_significance_and_evaluate h cache o min central max n g h' :
  LogLikelihoodBlock.Gaussian h cache o min central max n = Ok (BGaussian g, h') ->
  forall s : Heap,
    let value := cache_get s (GaussianBlock.cache g) (GaussianBlock.id g) in
    let z := GaussianBlock.significance s g in
    GaussianBlock.evaluate s g = GaussianBlock.norm g - z * z / 2
    /\ GaussianBlock_primary_test_statistic s g
       = TestStatistic.ChiSquare (2 * (GaussianBlock.norm g - GaussianBlock.evaluate s g))
    /\ (0 < z <-> value < GaussianBlock.mode g)
    /\ (z = 0 <-> value = GaussianBlock.mode g).
Proof.
  intros Hbuilt s.
  destruct (Gaussian_factory_sigmas _ _ _ _ _ _ _ _ _ Hbuilt) as (Ha & Hb & _).
  unfold GaussianBlock_primary_test_statistic, GaussianBlock.evaluate,
    GaussianBlock.significance, power_of_2.
  set (value := cache_get s (GaussianBlock.cache g) (GaussianBlock.id g)).
  set (sigma := if Rgt_dec value (GaussianBlock.mode g)
                then GaussianBlock.sigma_upper g else GaussianBlock.sigma_lower g).
  assert (Hsigma : 0 < sigma)
    by (unfold sigma; destruct (Rgt_dec value (GaussianBlock.mode g)); lra).
  assert (Hinv : 0 < / sigma) by (apply Rinv_0_lt_compat; exact Hsigma).
  cbv zeta. unfold Rdiv.
  split; [ring |].
  split; [f_equal; field; lra |].
  split.
  - split; intros H.
    + destruct (Rlt_dec value (GaussianBlock.mode g)) as [| Hge]; [assumption |].
      exfalso. assert ((GaussianBlock.mode g - value) * / sigma <= 0) by nra. lra.
    + apply Rmult_lt_0_compat; lra.
  - split; intros H.
    + apply Rmult_integral in H. destruct H as [H | H]; lra.
    + rewrite H. ring.
Qed.

Lemma Gaussian_significance_and_evaluate_witness :
  let s := registered_heap in
  let g := GaussianBlock.make O O 0.9 1 1.2 1%Z in
  let value := cache_get s (GaussianBlock.cache g) (GaussianBlock.id g) in
  let z := GaussianBlock.significance s g in
  GaussianBlock.evaluate s g = GaussianBlock.norm g - z * z / 2
  /\ GaussianBlock_primary_test_statistic s g
     = TestStatistic.ChiSquare (2 * (GaussianBlock.norm g - GaussianBlock.evaluate s g))
  /\ (0 < z <-> value < GaussianBlock.mode g)
  /\ (z = 0 <-> value = GaussianBlock.mode g).
Proof.
  intros s g.
  apply (Gaussian_significance_and_evaluate example_heap O example_observable
           0.9 1 1.2 1%Z g (snd (cache_add example_heap O example_observable)))
    with (s := s).
  unfold LogLikelihoodBlock.Gaussian.
  destruct (Rge_dec 0.9 1); [lra |].
  destruct (Rle_dec 1.2 1); [lra |].
  reflexivity.
Defined.

(** X6. [GaussianBlock::sample] does not depend on the cached prediction:
    the prediction is added to the pseudo-measurement and subtracted again, so
    two states of the cache give the same value and the same generator; the
    value is never above [norm]. *)
Theorem Gaussian_sample_ignores_prediction {gsl : GSL}
    (s s' : Heap) (g : GaussianBlock.t) (rng : gsl_rng) :
  GaussianBlock.sample s g rng = GaussianBlock.sample s' g rng
  /\ fst (GaussianBlock.sample s g rng) <= GaussianBlock.norm g.
Proof.
  unfold GaussianBlock.sample.
  destruct (gsl_rng_uniform rng) as [u rng'].
  destruct (Rlt_dec u _).
  - cbn. split.
    + f_equal. f_equal. unfold power_of_2. f_equal. f_equal; f_equal; ring.
    + unfold power_of_2.
      match goal with |- _ - ?c * ?c / 2 <= _ => assert (0 <= c * c) by nra end.
      lra.
  - cbn. split.
    + f_equal. f_equal. unfold power_of_2. f_equal. f_equal; f_equal; ring.
    + unfold power_of_2.
      match goal with |- _ - ?c * ?c / 2 <= _ => assert (0 <= c * c) by nra end.
      lra.
Qed.

(** X7. The coefficients that the constructor derives for the two halves:
    [c_upper = 2 sigma_upper / (sigma_upper + sigma_lower)],
    [c_lower = 2 sigma_lower / (sigma_upper + sigma_lower)]; they are positive,
    add up to 2 (the density is normalized) and satisfy
    [c_upper / sigma_upper = c_lower / sigma_lower] (the two halves meet at
    the mode). *)
Theorem Gaussian_coefficients h cache o min central max n g h' :
  LogLikelihoodBlock.Gaussian h cache o min central max n = Ok (BGaussian g, h') ->
  let a := GaussianBlock.sigma_lower g in
  let b := GaussianBlock.sigma_upper g in
  0 < a /\ 0 < b
  /\ GaussianBlock.c_upper g = 2 * b / (a + b)
  /\ GaussianBlock.c_lower g = 2 * a / (a + b)
  /\ 0 < GaussianBlock.c_upper g /\ 0 < GaussianBlock.c_lower g
  /\ GaussianBlock.c_upper g + GaussianBlock.c_lower g = 2
  /\ GaussianBlock.c_upper g / b = GaussianBlock.c_lower g / a.
Proof.
  intros Hbuilt.
  destruct (Gaussian_factory_sigmas _ _ _ _ _ _ _ _ _ Hbuilt) as (Ha & Hb & Hcu & Hcl).
  cbv zeta. rewrite Hcl, Hcu.
  set (a := GaussianBlock.sigma_lower g) in *.
  set (b := GaussianBlock.sigma_upper g) in *.
  assert (Hab : 0 < b + a) by lra.
  assert (Hpos : 0 < 2 * b / (b + a)) by (apply Rdiv_lt_0_compat; lra).
  split; [exact Ha |]. split; [exact Hb |].
  split; [f_equal; lra |].
  split; [field; lra |].
  split; [exact Hpos |].
  split.
  { replace (a / b * (2 * b / (b + a))) with (2 * a / (b + a)) by (field; lra).
    apply Rdiv_lt_0_compat; lra. }
  split; field; lra.
Qed.

Lemma Gaussian_coefficients_witness :
  let g := GaussianBlock.make O O 0.9 1 1.2 1%Z in
  let a := GaussianBlock.sigma_lower g in
  let b := GaussianBlock.sigma_upper g in
  0 < a /\ 0 < b
  /\ GaussianBlock.c_upper g = 2 * b / (a + b)
  /\ GaussianBlock.c_lower g = 2 * a / (a + b)
  /\ 0 < GaussianBlock.c_upper g /\ 0 < GaussianBlock.c_lower g
  /\ GaussianBlock.c_upper g + GaussianBlock.c_lower g = 2
  /\ GaussianBlock.c_upper g / b = GaussianBlock.c_lower g / a.
Proof.
  intros g.
  apply (Gaussian_coefficients example_heap O example_observable
           0.9 1 1.2 1%Z g (snd (cache_add example_heap O example_observable))).
  unfold LogLikelihoodBlock.Gaussian.
  destruct (Rge_dec 0.9 1); [lra |].
  destruct (Rle_dec 1.2 1); [lra |].
  reflexivity.
Defined.

(** ** Mixtures: bounds, rescaling of the weights, observation counts *)

Lemma ln_le_compat (x y : R) : 0 < x -> x <= y -> ln x <= ln y.
Proof.
  intros Hx [Hlt | ->]; [| lra].
  left. apply ln_increasing; assumption.
Qed.

Lemma exp_le_compat (x y : R) : x <= y -> exp x <= exp y.
Proof.
  intros [Hlt | ->]; [| lra].
  left. apply exp_increasing. exact Hlt.
Qed.

Lemma weighted_exp_bounds (lo hi : R) (ws vs : list R) :
  Forall (fun w => 0 <= w) ws ->
  Forall (fun l => lo <= l <= hi) vs ->
  List.length vs = List.length ws ->
  exp lo * Rsum ws <= Rsum (map (fun '(w, l) => w * exp l) (combine ws vs))
  /\ Rsum (map (fun '(w, l) => w * exp l) (combine ws vs)) <= exp hi * Rsum ws.
Proof.
  intros Hws. revert vs.
  induction Hws as [| w ws Hw Hws IH]; intros vs Hvs Hlen.
  - unfold Rsum. simpl. lra.
  - destruct vs as [| v vs]; [discriminate |].
    inversion Hvs as [| ? ? Hv Hvs']; subst.
    simpl in Hlen. injection Hlen as Hlen.
    destruct (IH vs Hvs' Hlen) as [IHlo IHhi].
    simpl combine. simpl map. rewrite !Rsum_cons.
    pose proof (exp_le_compat lo v (proj1 Hv)) as Hl.
    pose proof (exp_le_compat v hi (proj2 Hv)) as Hh.
    pose proof (exp_pos lo). pose proof (exp_pos v).
    split; nra.
Qed.

Section MixtureProperties.
Context {gsl : GSL}.

Lemma Mixture_evaluate_plain
    (h : Heap) (components : list LogLikelihoodBlockPtr)
    (raw_weights values : list R) (blk : LogLikelihoodBlockPtr) :
  LogLikelihoodBlock.Mixture components raw_weights = Ok blk ->
  Forall (fun w => 0 <= w) raw_weights ->
  0 < Rsum raw_weights ->
  mapM (LogLikelihoodBlock.evaluate h) components = Ok values ->
  exists weights,
    blk = BMixture components weights
    /\ Forall (fun w => 0 <= w) weights
    /\ Rsum weights = 1
    /\ List.length values = List.length weights
    /\ LogLikelihoodBlock.evaluate h blk = Ok (plain_mixture weights values).
Proof.
  intros Hbuilt Hnonneg Hpos Hvalues.
  rewrite Mixture_factory_unfold in Hbuilt.
  destruct (Nat.eqb _ _) eqn:Hlen; [| discriminate].
  apply Nat.eqb_eq in Hlen.
  injection Hbuilt as <-.
  rewrite fold_left_Rplus_Rsum.
  set (weights := map (fun w => 1 / Rsum raw_weights * w) raw_weights).
  assert (Hc : 0 < 1 / Rsum raw_weights) by (apply Rdiv_lt_0_compat; lra).
  assert (Hw : Forall (fun w => 0 <= w) weights).
  { unfold weights. apply Forall_map.
    eapply Forall_impl; [| exact Hnonneg]. simpl. intros w Hw0. nra. }
  assert (Hsum : Rsum weights = 1).
  { unfold weights. rewrite Rsum_scale. field. lra. }
  assert (Hl : List.length values = List.length weights).
  { unfold weights. rewrite length_map, <- Hlen. eapply mapM_length; eassumption. }
  exists weights. repeat split; try assumption.
  rewrite evaluate_mixture, Hvalues. simpl.
  unfold MixtureBlock.evaluate_values.
  rewrite fill_temp_same_length by assumption. simpl.
  apply log_sum_exp_plain; [assumption | lra | assumption].
Qed.

(** X8. The value of a mixture lies between the smallest and the largest of
    its components' values: for a mixture built by the factory from
    non-negative weights with a positive sum, if every component evaluates to
    a value in [[lo, hi]], so does the mixture. *)
Theorem Mixture_evaluate_between_components
    (h : Heap) (components : list LogLikelihoodBlockPtr)
    (raw_weights values : list R) (blk : LogLikelihoodBlockPtr) (lo hi : R) :
  LogLikelihoodBlock.Mixture components raw_weights = Ok blk ->
  Forall (fun w => 0 <= w) raw_weights ->
  0 < Rsum raw_weights ->
  mapM (LogLikelihoodBlock.evaluate h) components = Ok values ->
  Forall (fun l => lo <= l <= hi) values ->
  exists v, LogLikelihoodBlock.evaluate h blk = Ok v /\ lo <= v <= hi.
Proof.
  intros Hbuilt Hnonneg Hpos Hvalues Hbounds.
  destruct (Mixture_evaluate_plain h components raw_weights values blk
              Hbuilt Hnonneg Hpos Hvalues)
    as (weights & _ & Hw & Hsum & Hlen & Hev).
  exists (plain_mixture weights values). split; [exact Hev |].
  destruct (weighted_exp_bounds lo hi weights values Hw Hbounds Hlen) as [Hlo Hhi].
  rewrite Hsum, Rmult_1_r in Hlo, Hhi.
  unfold plain_mixture.
  pose proof (exp_pos lo) as Hplo.
  split.
  - apply Rle_trans with (ln (exp lo)); [rewrite ln_exp; lra |].
    apply ln_le_compat; assumption.
  - apply Rle_trans with (ln (exp hi)); [| rewrite ln_exp; lra].
    apply ln_le_compat; [lra | assumption].
Qed.

Lemma Mixture_evaluate_between_components_witness :
  exists v,
    LogLikelihoodBlock.evaluate example_heap
      (BMixture example_components
         (map (fun w => 1 / fold_left Rplus [1; 3] 0 * w) [1; 3])) = Ok v
    /\ GaussianBlock.evaluate example_heap example_gaussian <= v
       <= GaussianBlock.evaluate example_heap example_gaussian.
Proof.
  apply (Mixture_evaluate_between_components example_heap example_components
           [1; 3]
           [GaussianBlock.evaluate example_heap example_gaussian;
            GaussianBlock.evaluate example_heap example_gaussian]).
  - reflexivity.
  - repeat constructor; lra.
  - unfold Rsum. simpl. lra.
  - reflexivity.
  - repeat constructor; lra.
Defined.

(** X9. Only the ratios of the weights matter: multiplying every weight given
    to the factory by the same non-zero number gives the same block, as long
    as the weights do not sum to zero. *)
Theorem Mixture_factory_rescaled_weights
    (components : list LogLikelihoodBlockPtr) (raw_weights : list R) (c : R) :
  c <> 0 ->
  Rsum raw_weights <> 0 ->
  LogLikelihoodBlock.Mixture components (map (fun w => c * w) raw_weights)
  = LogLikelihoodBlock.Mixture components raw_weights.
Proof.
  intros Hc Hsum.
  rewrite !Mixture_factory_unfold, length_map.
  destruct (Nat.eqb _ _); [| reflexivity].
  rewrite !fold_left_Rplus_Rsum, Rsum_scale, map_map.
  f_equal. f_equal. apply map_ext. intros w. field. split; assumption.
Qed.

Lemma Mixture_factory_rescaled_weights_witness :
  LogLikelihoodBlock.Mixture example_components (map (fun w => 2 * w) [1; 3])
  = LogLikelihoodBlock.Mixture example_components [1; 3].
Proof.
  apply (Mixture_factory_rescaled_weights example_components [1; 3] 2).
  - lra.
  - unfold Rsum. simpl. lra.
Defined.

Lemma fold_wrap_sum (ns : list Z) (acc : Z) :
  fold_left (fun ret_val n => wrap (ret_val + n)) ns (wrap acc)
  = wrap (acc + fold_right Z.add 0%Z ns).
Proof.
  revert acc. induction ns as [| n ns IH]; intros acc; simpl.
  - rewrite Z.add_0_r. reflexivity.
  - replace (wrap (wrap acc + n)) with (wrap (acc + n)).
    + rewrite IH. f_equal. lia.
    + unfold wrap. rewrite Zplus_mod_idemp_l. reflexivity.
Qed.

(** X10. A mixture counts the observations of its components: its
    [number_of_observations] is the sum of theirs, modulo [2^32]. *)
Theorem Mixture_number_of_observations
    (components : list LogLikelihoodBlockPtr) (weights : list R) :
  LogLikelihoodBlock.number_of_observations (BMixture components weights)
  = wrap (fold_right Z.add 0%Z
            (map LogLikelihoodBlock.number_of_observations components)).
Proof.
  cbn [LogLikelihoodBlock.number_of_observations].
  rewrite <- (Z.add_0_l (fold_right _ _ _)).
  rewrite <- fold_wrap_sum.
  change (wrap 0) with 0%Z.
  generalize 0%Z.
  induction components as [| c cs IH]; intros acc; simpl; [reflexivity |].
  apply IH.
Qed.
End MixtureProperties.

(** ** The likelihood: test statistic, p-value, adding constraints *)

Section LikelihoodProperties.
Context {gsl : GSL}.

Lemma foldM_app {A S : Type} (f : S -> A -> result S) (l1 l2 : list A) (s : S) :
  foldM f (l1 ++ l2) s = bind (foldM f l1 s) (foldM f l2).
Proof.
  revert s. induction l1 as [| x l1 IH]; intros s; simpl; [reflexivity |].
  destruct (f s x); simpl; [apply IH | reflexivity].
Qed.

Lemma foldM_ext_in {A S : Type} (f f' : S -> A -> result S) (l : list A) (s : S) :
  (forall s a, In a l -> f s a = f' s a) -> foldM f l s = foldM f' l s.
Proof.
  revert s. induction l as [| a l IH]; intros s Hext; simpl; [reflexivity |].
  rewrite Hext by (left; reflexivity).
  destruct (f' s a); simpl; [| reflexivity].
  apply IH. intros s' a' Hin. apply Hext. right. exact Hin.
Qed.

Lemma foldM_fails_at {A S : Type} (f : S -> A -> result S) (l : list A) (x : A) :
  In x l -> (forall s, ~ is_ok (f s x)) -> forall s, ~ is_ok (foldM f l s).
Proof.
  intros Hin Hx. induction l as [| a l IH]; intros s; [contradiction |].
  simpl. destruct Hin as [-> | Hin].
  - specialize (Hx s). destruct (f s x); simpl; [exfalso; apply Hx; exact I | auto].
  - destruct (f s a); simpl; [apply IH; exact Hin | auto].
Qed.

Lemma log_likelihood_flat h L :
  LogLikelihood.log_likelihood h L
  = foldM (fun result b => v <- LogLikelihoodBlock.evaluate h b ;; Ok (result + v))
          (all_blocks L) 0.
Proof.
  unfold LogLikelihood.log_likelihood, all_blocks.
  apply (foldM_flat_map
           (fun result b => v <- LogLikelihoodBlock.evaluate h b ;; Ok (result + v))
           Constraint.blocks).
Qed.

(** X11. When every block has a non-zero number of observations, the observed
    test statistic of [bootstrap_p_value] is the value of [log_likelihood]:
    the two loops differ by the skipped blocks only. *)
Theorem observed_statistic_is_log_likelihood (h : Heap) (L : LogLikelihood.t) :
  (forall b, In b (all_blocks L) ->
             LogLikelihoodBlock.number_of_observations b <> 0%Z) ->
  LogLikelihood.observed_statistic h (LogLikelihood.constraints L)
  = LogLikelihood.log_likelihood h L.
Proof.
  intros Hobs.
  rewrite log_likelihood_flat.
  unfold LogLikelihood.observed_statistic.
  rewrite (foldM_flat_map
             (fun t_obs b =>
                if Z.eqb (LogLikelihoodBlock.number_of_observations b) 0
                then Ok t_obs
                else v <- LogLikelihoodBlock.evaluate h b ;; Ok (t_obs + v))
             Constraint.blocks).
  apply foldM_ext_in. intros s b Hin.
  destruct (Z.eqb_spec (LogLikelihoodBlock.number_of_observations b) 0) as [E |];
    [| reflexivity].
  exfalso. exact (Hobs b Hin E).
Qed.

(** X12. A likelihood that holds a mixture block cannot be bootstrapped: with
    at least one data set to simulate, [bootstrap_p_value] does not return. *)
Theorem bootstrap_p_value_fails_on_mixture (fuel : nat) (h : Heap)
    (L : LogLikelihood.t) (datasets : unsigned)
    (components : list LogLikelihoodBlockPtr) (weights : list R) :
  In (BMixture components weights) (all_blocks L) ->
  (1 <= datasets)%Z ->
  ~ is_ok (LogLikelihood.bootstrap_p_value fuel h L datasets).
Proof.
  intros Hin Hn.
  unfold LogLikelihood.bootstrap_p_value.
  destruct (LogLikelihood.observed_statistic h (LogLikelihood.constraints L))
    as [t_obs |]; cbn [bind]; [| auto].
  destruct (Z.to_nat datasets) as [| remaining] eqn:E; [lia |].
  cbn [LogLikelihood.collect_samples].
  rewrite simulated_statistic_flat.
  pose proof (foldM_fails_at
                (fun '(t, rng) b =>
                   '(v, rng') <- LogLikelihoodBlock.sample fuel h b rng ;;
                   Ok (t + v, rng'))
                (flat_map Constraint.blocks (LogLikelihood.constraints L))
                (BMixture components weights) Hin) as Hfail.
  assert (Hstep : forall s : R * gsl_rng,
             ~ is_ok ((fun '(t, rng) b =>
                         '(v, rng') <- LogLikelihoodBlock.sample fuel h b rng ;;
                         Ok (t + v, rng')) s (BMixture components weights))).
  { intros [t rng]. simpl. auto. }
  specialize (Hfail Hstep (0, gsl_rng_set datasets)).
  destruct (foldM _ _ _) as [[t rng'] |]; [exfalso; apply Hfail; exact I |].
  cbn [bind]. auto.
Qed.

(** X13. As long as [datasets + 3] does not wrap and there is a data set, the
    p-value is a proportion and the uncertainty is that of a binomial
    posterior: [0 <= p <= 1], [0 <= uncertainty] and
    [uncertainty^2 <= 1 / (4 (datasets + 3))]. *)
Theorem bootstrap_p_value_bounds (fuel : nat) (h : Heap) (L : LogLikelihood.t)
    (datasets : unsigned) :
  (forall b, In b (all_blocks L) -> supports_sample fuel h b) ->
  (1 <= datasets)%Z -> (datasets + 3 < UINT_MODULUS)%Z ->
  exists p uncertainty,
    LogLikelihood.bootstrap_p_value fuel h L datasets = Ok (p, uncertainty)
    /\ 0 <= p <= 1
    /\ 0 <= uncertainty
    /\ uncertainty * uncertainty <= 1 / (4 * (IZR datasets + 3)).
Proof.
  intros Hs H1 Hmax.
  rewrite bootstrap_p_value_small_datasets by (auto; lia).
  set (n_low := count_below _ _).
  pose proof (count_below_bounds (observed_total h (all_blocks L))
                (toy_totals fuel h (all_blocks L) (Z.to_nat datasets)
                   (gsl_rng_set datasets))) as Hn.
  rewrite toy_totals_length, Z2Nat.id in Hn by lia. fold n_low in Hn.
  assert (Hd : 1 <= IZR datasets) by (apply IZR_le; exact H1).
  assert (Hn0 : 0 <= IZR n_low) by (apply IZR_le; lia).
  assert (Hnd : IZR n_low <= IZR datasets) by (apply IZR_le; lia).
  eexists. eexists. split; [reflexivity |].
  set (pe := (IZR n_low + 1) / (IZR datasets + 2)).
  assert (Hpe : 0 < pe < 1).
  { unfold pe. split.
    - apply Rdiv_lt_0_compat; lra.
    - apply Rmult_lt_reg_r with (IZR datasets + 2); [lra |].
      unfold Rdiv. rewrite Rmult_assoc, Rinv_l by lra. lra. }
  assert (Hq : 0 <= pe * (1 - pe) / (IZR datasets + 3)).
  { apply Rmult_le_pos; [nra |]. left. apply Rinv_0_lt_compat. lra. }
  split; [split |].
  - apply Rmult_le_pos; [exact Hn0 |]. left. apply Rinv_0_lt_compat. lra.
  - apply Rmult_le_reg_r with (IZR datasets); [lra |].
    unfold Rdiv. rewrite Rmult_assoc, Rinv_l by lra. lra.
  - split; [apply sqrt_pos |].
    rewrite sqrt_sqrt by exact Hq.
    pose proof (Rle_0_sqr (2 * pe - 1)) as Hsquare. unfold Rsqr in Hsquare.
    assert (Hquarter : pe * (1 - pe) <= / 4) by (clearbody pe; lra).
    replace (1 / (4 * (IZR datasets + 3))) with (/ 4 * / (IZR datasets + 3))
      by (field; lra).
    unfold Rdiv. apply Rmult_le_compat_r; [| exact Hquarter].
    left. apply Rinv_0_lt_compat. lra.
Qed.

Lemma number_of_observations_flat (L : LogLikelihood.t) :
  LogLikelihoodInterface.number_of_observations L
  = fold_left (fun result n => wrap (result + n))
              (map LogLikelihoodBlock.number_of_observations (all_blocks L)) 0%Z.
Proof.
  unfold LogLikelihoodInterface.number_of_observations, all_blocks.
  generalize 0%Z.
  induction (LogLikelihood.constraints L) as [| c cs IH]; intros acc; simpl;
    [reflexivity |].
  rewrite map_app, fold_left_app, IH. f_equal.
  generalize acc. induction (Constraint.blocks c) as [| b bs IHb]; intros a; simpl;
    [reflexivity |].
  apply IHb.
Qed.

(** X14. [number_of_observations] of the likelihood is the sum of the numbers
    of observations of all blocks of all constraints, modulo [2^32]. *)
Theorem LogLikelihood_number_of_observations_is_sum (L : LogLikelihood.t) :
  LogLikelihoodInterface.number_of_observations L
  = wrap (fold_right Z.add 0%Z
            (map LogLikelihoodBlock.number_of_observations (all_blocks L))).
Proof.
  rewrite number_of_observations_flat.
  rewrite <- (Z.add_0_l (fold_right _ _ _)).
  rewrite <- fold_wrap_sum. reflexivity.
Qed.

Lemma cache_get_after_update h c o :
  let h1 := snd (cache_add h c o) in
  cache_get (cache_update h1 c) c (fst (cache_add h c o)) = observable_evaluate h o.
Proof.
  unfold cache_get, cache_update, cache_add, ObservableCache.add, set_cache,
    ObservableCache.get.
  cbn. rewrite !Nat.eqb_refl. cbn.
  rewrite map_app, app_nth2 by (rewrite length_map; lia).
  rewrite length_map, Nat.sub_diag. reflexivity.
Qed.

(** X15. Adding a measurement and evaluating: after
    [add(observable, min, central, max, n)], [operator()] returns the sum of
    the earlier blocks plus the logarithm of the split normal density at the
    observable's prediction [x],
    [ln (sqrt (2 / PI) / (max - min)) - ((x - central) / sigma)^2 / 2], with
    [sigma = max - central] above [central] and [central - min] otherwise. *)
Theorem add_then_call (h : Heap) (L : LogLikelihood.t) (o : Observable.t)
    (min central max : R) (n : unsigned) (L' : LogLikelihood.t) (h1 : Heap) :
  LogLikelihoodInterface.add h L o min central max n = Ok (L', h1) ->
  let x := observable_evaluate h o in
  let sigma := if Rgt_dec x central then max - central else central - min in
  let s := cache_update h1 (LogLikelihood.cache L) in
  LogLikelihoodInterface.call h1 L'
  = (v <- LogLikelihood.log_likelihood s L ;;
     Ok (v + (ln (sqrt (2 / PI) / (max - min))
              - (x - central) / sigma * ((x - central) / sigma) / 2), s)).
Proof.
  intros Hadd x sigma s. unfold LogLikelihoodInterface.add in Hadd.
  destruct (LogLikelihoodBlock.Gaussian h (LogLikelihood.cache L) o min central max n)
    as [[b h'] |] eqn:Hb; [| discriminate].
  cbn [bind] in Hadd. injection Hadd as <- <-.
  unfold LogLikelihoodBlock.Gaussian in Hb.
  destruct (Rge_dec min central); [discriminate |].
  destruct (Rle_dec max central); [discriminate |].
  destruct (cache_add h (LogLikelihood.cache L) o) as [index h0] eqn:Hc.
  injection Hb as <- <-.
  unfold LogLikelihoodInterface.call. fold s.
  unfold LogLikelihood.log_likelihood at 1.
  cbn [LogLikelihood.constraints LogLikelihood.cache].
  rewrite foldM_app.
  change (foldM _ (LogLikelihood.constraints L) 0)
    with (LogLikelihood.log_likelihood s L).
  destruct (LogLikelihood.log_likelihood s L) as [v |]; cbn; [| reflexivity].
  f_equal. f_equal. f_equal.
  pose proof (cache_get_after_update h (LogLikelihood.cache L) o) as Hget.
  rewrite Hc in Hget. cbn [fst snd] in Hget. fold s in Hget.
  unfold GaussianBlock.evaluate, power_of_2. cbn.
  fold s. rewrite Hget. fold x. fold sigma.
  f_equal. f_equal. f_equal. ring.
Qed.

Lemma add_constraint_blocks target :
  forall (blocks : list LogLikelihoodBlockPtr) (h : Heap)
         (acc : list LogLikelihoodBlockPtr),
    Forall (constructed h) blocks ->
    exists clones h',
      foldM (fun '(blocks, h) b =>
               '(b', h') <- LogLikelihoodBlock.clone h b target ;;
               Ok (blocks ++ [b'], h'))
            blocks (acc, h) = Ok (acc ++ clones, h')
      /\ caches_extend h h'
      /\ forall s,
           caches_extend h' s -> up_to_date s ->
           (forall b, In b blocks -> identical_parameters s b target) ->
           mapM (LogLikelihoodBlock.evaluate s) clones
           = mapM (LogLikelihoodBlock.evaluate s) blocks.
Proof.
  induction blocks as [| b blocks IH]; intros h acc Hcons.
  - exists [], h. rewrite app_nil_r.
    split; [reflexivity |]. split; [apply caches_extend_refl |].
    intros; reflexivity.
  - inversion Hcons as [| ? ? Hb Hbs]; subst.
    destruct (clone_correct_constructed target b h Hb)
      as (b' & h1 & Hclone & Hext1 & Hev).
    assert (Hbs1 : Forall (constructed h1) blocks).
    { eapply Forall_impl; [| exact Hbs].
      intros x. apply constructed_extend. exact Hext1. }
    destruct (IH h1 (acc ++ [b']) Hbs1) as (clones & h2 & Hrest & Hext2 & Hevs).
    exists (b' :: clones), h2.
    cbn [foldM]. rewrite Hclone. cbn [bind]. rewrite Hrest.
    rewrite <- app_assoc.
    split; [reflexivity |].
    split; [eapply caches_extend_trans; eassumption |].
    intros s Hs Hfresh Hparams. cbn [mapM].
    rewrite Hev;
      [| eapply caches_extend_trans; eassumption | assumption
       | apply Hparams; left; reflexivity ].
    rewrite Hevs; [reflexivity | assumption | assumption |].
    intros y Hy. apply Hparams. right. exact Hy.
Qed.

(** The loop of [add(constraint)] stops at a LogGamma block that the explicit
    constructor rejects. *)
Lemma add_constraint_blocks_rejects target l post f :
  forall (pre : list LogLikelihoodBlockPtr) (h : Heap)
         (acc : list LogLikelihoodBlockPtr),
    Forall (constructed h) pre ->
    slot_registered h (LogGammaBlock.cache l) (LogGammaBlock.id l) ->
    LogGammaBlock.make (LogGammaBlock.cache l) (LogGammaBlock.id l)
      (LogGammaBlock.central l - LogGammaBlock.sigma_lower l)
      (LogGammaBlock.central l)
      (LogGammaBlock.central l + LogGammaBlock.sigma_upper l)
      (LogGammaBlock.lambda l) (LogGammaBlock.alpha l)
      (LogGammaBlock._number_of_observations l) = Fail f ->
    foldM (fun '(blocks, h) b =>
             '(b', h') <- LogLikelihoodBlock.clone h b target ;;
             Ok (blocks ++ [b'], h'))
          (pre ++ BLogGamma l :: post) (acc, h) = Fail f.
Proof.
  induction pre as [| b pre IH]; intros h acc Hcons Hslot Hmake.
  - cbn [app foldM].
    rewrite (LogGamma_clone_rechecks h l target f Hslot); [reflexivity |].
    intros c i. eapply LogGamma_make_fails_anywhere. exact Hmake.
  - inversion Hcons as [| ? ? Hb Hbs]; subst.
    destruct (clone_correct_constructed target b h Hb)
      as (b' & h1 & Hclone & Hext1 & _).
    cbn [app foldM]. rewrite Hclone. cbn [bind].
    apply IH; [| eapply slot_registered_extend; eassumption | exact Hmake].
    eapply Forall_impl; [| exact Hbs].
    intros x. apply constructed_extend. exact Hext1.
Qed.

(** X16. [add(constraint)] copies a constraint onto the likelihood.  When
    every block passes the checks of its constructor it returns, the
    constraint it appends has the name and the observables of the given one,
    and in every later state in which the caches are up to date and the
    parameters of the likelihood hold the values of the parameters of the
    constraint's observables, its blocks evaluate as the given ones.  When
    the first block that does not pass them is a LogGamma block whose fields
    miss the checks of the explicit constructor, as the fitting constructor
    can leave it, [add(constraint)] throws the error of that constructor. *)
Theorem add_constraint_preserves_values (h : Heap) (L : LogLikelihood.t)
    (c : Constraint.t) :
  (Forall (constructed h) (Constraint.blocks c) ->
   exists L' h' c',
     LogLikelihoodInterface.add_constraint h L c = Ok (L', h')
     /\ caches_extend h h'
     /\ LogLikelihood.constraints L' = LogLikelihood.constraints L ++ [c']
     /\ Constraint.name c' = Constraint.name c
     /\ Constraint.observables c' = Constraint.observables c
     /\ forall s,
          caches_extend h' s -> up_to_date s ->
          (forall b, In b (Constraint.blocks c) ->
                     identical_parameters s b (LogLikelihood.cache L)) ->
          mapM (LogLikelihoodBlock.evaluate s) (Constraint.blocks c')
          = mapM (LogLikelihoodBlock.evaluate s) (Constraint.blocks c))
  /\ (forall pre l post f,
         Constraint.blocks c = pre ++ BLogGamma l :: post ->
         Forall (constructed h) pre ->
         slot_registered h (LogGammaBlock.cache l) (LogGammaBlock.id l) ->
         LogGammaBlock.make (LogGammaBlock.cache l) (LogGammaBlock.id l)
           (LogGammaBlock.central l - LogGammaBlock.sigma_lower l)
           (LogGammaBlock.central l)
           (LogGammaBlock.central l + LogGammaBlock.sigma_upper l)
           (LogGammaBlock.lambda l) (LogGammaBlock.alpha l)
           (LogGammaBlock._number_of_observations l) = Fail f ->
         LogLikelihoodInterface.add_constraint h L c = Fail f).
Proof.
  split.
  - intros Hcons.
    destruct (add_constraint_blocks (LogLikelihood.cache L) (Constraint.blocks c) h []
                Hcons) as (clones & h' & Hfold & Hext & Hev).
    unfold LogLikelihoodInterface.add_constraint.
    rewrite Hfold. cbn [bind app].
    eexists. exists h'. eexists.
    split; [reflexivity |].
    split; [exact Hext |].
    cbn [LogLikelihood.constraints Constraint.name Constraint.observables
         Constraint.blocks].
    split; [reflexivity |].
    split; [reflexivity |].
    split; [reflexivity |].
    exact Hev.
  - intros pre l post f Hblocks Hcons Hslot Hmake.
    unfold LogLikelihoodInterface.add_constraint. rewrite Hblocks.
    rewrite (add_constraint_blocks_rejects (LogLikelihood.cache L) l post f pre h []
               Hcons Hslot Hmake).
    reflexivity.
Qed.
End LikelihoodProperties.

Lemma observed_statistic_is_log_likelihood_witness :
  LogLikelihood.observed_statistic registered_heap
    (LogLikelihood.constraints example_likelihood)
  = LogLikelihood.log_likelihood registered_heap example_likelihood.
Proof.
  apply (observed_statistic_is_log_likelihood registered_heap
           example_likelihood).
  intros b [<- | []]. simpl. discriminate.
Defined.

Lemma bootstrap_p_value_fails_on_mixture_witness :
  ~ is_ok (@LogLikelihood.bootstrap_p_value example_gsl O registered_heap
             example_mixture_likelihood 1%Z).
Proof.
  apply (@bootstrap_p_value_fails_on_mixture example_gsl O registered_heap
           example_mixture_likelihood 1%Z example_components [/ 4; 3 / 4]).
  - left. reflexivity.
  - lia.
Defined.

Lemma bootstrap_p_value_bounds_witness :
  exists p uncertainty,
    @LogLikelihood.bootstrap_p_value example_gsl O registered_heap
      example_likelihood 2%Z = Ok (p, uncertainty)
    /\ 0 <= p <= 1
    /\ 0 <= uncertainty
    /\ uncertainty * uncertainty <= 1 / (4 * (IZR 2 + 3)).
Proof.
  apply (@bootstrap_p_value_bounds example_gsl O registered_heap
           example_likelihood 2%Z).
  - intros b [<- | []] rng. exact I.
  - lia.
  - unfold UINT_MODULUS. lia.
Defined.

Lemma add_then_call_witness :
  let L' :=
    {| LogLikelihood.parameters := O;
       LogLikelihood.cache := O;
       LogLikelihood.constraints :=
         [example_constraint;
          {| Constraint.name := "B_q->ll::BR";
             Constraint.observables := [example_observable];
             Constraint.blocks := [BGaussian (GaussianBlock.make O 1%nat 0.9 1 1.2 1%Z)]
          |}] |} in
  let h1 := snd (cache_add registered_heap O example_observable) in
  let x := observable_evaluate registered_heap example_observable in
  let sigma := if Rgt_dec x 1 then 1.2 - 1 else 1 - 0.9 in
  let s := cache_update h1 O in
  LogLikelihoodInterface.call h1 L'
  = (v <- LogLikelihood.log_likelihood s example_likelihood ;;
     Ok (v + (ln (sqrt (2 / PI) / (1.2 - 0.9))
              - (x - 1) / sigma * ((x - 1) / sigma) / 2), s)).
Proof.
  apply (add_then_call registered_heap example_likelihood
           example_observable 0.9 1 1.2 1%Z).
  unfold LogLikelihoodInterface.add, LogLikelihoodBlock.Gaussian.
  destruct (Rge_dec 0.9 1); [lra |].
  destruct (Rle_dec 1.2 1); [lra |].
  reflexivity.
Defined.

Lemma add_constraint_preserves_values_witness :
  (exists L' h' c',
      @LogLikelihoodInterface.add_constraint example_gsl registered_heap
        example_likelihood example_constraint = Ok (L', h')
      /\ caches_extend registered_heap h'
      /\ LogLikelihood.constraints L'
         = LogLikelihood.constraints example_likelihood ++ [c']
      /\ Constraint.name c' = Constraint.name example_constraint
      /\ Constraint.observables c' = Constraint.observables example_constraint
      /\ forall s,
           caches_extend h' s -> up_to_date s ->
           (forall b, In b (Constraint.blocks example_constraint) ->
                      identical_parameters s b (LogLikelihood.cache example_likelihood)) ->
           mapM (LogLikelihoodBlock.evaluate s) (Constraint.blocks c')
           = mapM (LogLikelihoodBlock.evaluate s)
               (Constraint.blocks example_constraint))
  /\ (exists l h',
        LogLikelihoodBlock.LogGamma_fitted (gsl := example_gsl)
          (solver := stalled_solver (- / 10) 1)
          example_heap O example_observable (-1) 0 2 1%Z = Ok (BLogGamma l, h')
        /\ @LogLikelihoodInterface.add_constraint example_gsl h' example_likelihood
             {| Constraint.name := "B_q->ll::BR";
                Constraint.observables := [example_observable];
                Constraint.blocks := [BLogGamma l] |}
           = Fail (InternalError "LogLikelihoodBlock::LogGamma.ctor: For the current parameter values, the interval [lower, upper] doesn't contain approx. 68%")).
Proof.
  split.
  - apply (proj1 (@add_constraint_preserves_values example_gsl registered_heap
                    example_likelihood example_constraint)).
    constructor; [| constructor].
    split; [exists example_observable; reflexivity |].
    apply (Gaussian_make_constructed O O 0.9 1 1.2 1%Z).
  - destruct stalled_fit_leaves_unchecked_block as (l & h' & Hfit & Hslot & Hmake).
    exists l, h'. split; [exact Hfit |].
    apply (proj2 (@add_constraint_preserves_values example_gsl h' example_likelihood
                    {| Constraint.name := "B_q->ll::BR";
                       Constraint.observables := [example_observable];
                       Constraint.blocks := [BLogGamma l] |})
             [] l [] _ eq_refl (Forall_nil _) Hslot Hmake).
Defined.

(** ** The LogGamma block: mode, cumulative, derivative of the mirror
    function *)

Lemma derivable_pt_lim_eq (f g : R -> R) (x l : R) :
  (forall y, f y = g y) -> derivable_pt_lim f x l -> derivable_pt_lim g x l.
Proof.
  intros Heq Hf eps Heps. destruct (Hf eps Heps) as [delta Hdelta].
  exists delta. intros h Hh Hlt. rewrite <- !Heq. apply Hdelta; assumption.
Qed.

Lemma exp_above_tangent (t : R) : t <> 0 -> 1 + t < exp t.
Proof.
  intros Ht. destruct (Rlt_dec 0 t) as [Hpos | Hnpos].
  - apply exp_ineq1. lra.
  - apply exp_ineq1. lra.
Qed.

Section LogGammaProperties.
Context {gsl : GSL}.

Lemma LogGamma_make_inv cache id min central max lambda alpha n b :
  LogGammaBlock.make cache id min central max lambda alpha n = Ok b ->
  LogGammaBlock.central b = central
  /\ LogGammaBlock.lambda b = lambda
  /\ LogGammaBlock.alpha b = alpha
  /\ LogGammaBlock.nu b = central - lambda * ln alpha.
Proof.
  unfold LogGammaBlock.make.
  destruct (Rgt_dec _ _); [discriminate |].
  destruct (Rgt_dec _ _); [discriminate |].
  intros H. injection H as <-. cbn. repeat split.
Qed.

Lemma LogGamma_make_fitted_inv {solver : EquationSolver.Solver}
    cache id min central max n b :
  LogGammaBlock.make_fitted cache id min central max n = Ok b ->
  LogGammaBlock.nu b
  = LogGammaBlock.central b - LogGammaBlock.lambda b * ln (LogGammaBlock.alpha b).
Proof.
  unfold LogGammaBlock.make_fitted.
  destruct (EquationSolver.solve _ _) as [solution |]; [| discriminate].
  cbn [bind]. intros H. injection H as <-. reflexivity.
Qed.

(** X17. The density of a LogGamma block peaks at [central]: with
    [nu = central - lambda * ln alpha], as both constructors set it, a
    positive [alpha] and a non-zero [lambda], [evaluate] is at most
    [norm + alpha * ln alpha - alpha] in every state of the cache, and equal
    to it exactly when the cached value is [central]. *)
Theorem LogGamma_evaluate_maximal_at_central (b : LogGammaBlock.t) (s : Heap) :
  LogGammaBlock.nu b
  = LogGammaBlock.central b - LogGammaBlock.lambda b * ln (LogGammaBlock.alpha b) ->
  0 < LogGammaBlock.alpha b ->
  LogGammaBlock.lambda b <> 0 ->
  let alpha := LogGammaBlock.alpha b in
  LogGammaBlock.evaluate s b <= LogGammaBlock.norm b + alpha * ln alpha - alpha
  /\ (LogGammaBlock.evaluate s b = LogGammaBlock.norm b + alpha * ln alpha - alpha
      <-> cache_get s (LogGammaBlock.cache b) (LogGammaBlock.id b)
          = LogGammaBlock.central b).
Proof.
  intros Hnu Ha Hl alpha.
  unfold LogGammaBlock.evaluate. rewrite Hnu. fold alpha in Ha |- *.
  set (lambda := LogGammaBlock.lambda b) in *.
  set (central := LogGammaBlock.central b).
  set (value := cache_get s (LogGammaBlock.cache b) (LogGammaBlock.id b)).
  set (t := (value - central) / lambda).
  assert (Hz : (value - (central - lambda * ln alpha)) / lambda = t + ln alpha).
  { unfold t. field. exact Hl. }
  rewrite Hz, exp_plus, exp_ln by exact Ha.
  assert (Ht0 : t = 0 <-> value = central).
  { unfold t. split; intros H.
    - apply Rmult_integral in H. destruct H as [H | H]; [lra |].
      exfalso. apply (Rinv_neq_0_compat lambda); assumption.
    - rewrite H. unfold Rdiv. ring. }
  pose proof (exp_ineq1_le t) as Hle.
  split; [nra |].
  split.
  - intros Heq. apply Ht0.
    destruct (Req_dec_T t 0) as [E | Hne]; [exact E |].
    pose proof (exp_above_tangent t Hne). nra.
  - intros Heq. apply Ht0 in Heq. rewrite Heq, exp_0. ring.
Qed.

(** X18. [LogGammaBlock::cdf] is monotone whatever the sign of [lambda]: with
    an upper incomplete gamma function [Q] that decreases in its second
    argument, [x <= y] gives [cdf x <= cdf y]; the branch on [lambda < 0]
    compensates the reversal of the standardized coordinate. *)
Theorem LogGamma_cdf_monotone (b : LogGammaBlock.t) (x y : R) :
  (forall a u v, 0 < u <= v -> gsl_sf_gamma_inc_Q a v <= gsl_sf_gamma_inc_Q a u) ->
  LogGammaBlock.lambda b <> 0 ->
  x <= y ->
  LogGammaBlock.cdf b x <= LogGammaBlock.cdf b y.
Proof.
  intros HQ Hl Hxy.
  unfold LogGammaBlock.cdf, LogGammaBlock.cdf_of.
  set (lambda := LogGammaBlock.lambda b) in *.
  set (nu := LogGammaBlock.nu b).
  destruct (Rlt_dec lambda 0) as [Hneg | Hnneg].
  - apply HQ. split; [apply exp_pos |].
    apply exp_le_compat.
    assert (Hinv : / lambda < 0) by (apply Rinv_lt_0_compat; exact Hneg).
    unfold Rdiv. nra.
  - assert (Hpos : 0 < lambda) by lra.
    assert (Hinv : 0 < / lambda) by (apply Rinv_0_lt_compat; exact Hpos).
    assert (Hq : gsl_sf_gamma_inc_Q (LogGammaBlock.alpha b) (exp ((y - nu) / lambda))
                 <= gsl_sf_gamma_inc_Q (LogGammaBlock.alpha b) (exp ((x - nu) / lambda))).
    { apply HQ. split; [apply exp_pos |].
      apply exp_le_compat. unfold Rdiv. nra. }
    lra.
Qed.

(** X19. The derivative handed to the root solver is the derivative of the
    function handed to it: at every [x], [significance_function_df] is the
    derivative of [significance_function_f]; [significance_function_fdf]
    returns the two values; and the cached value itself is a root. *)
Theorem LogGamma_significance_function_derivative
    (h : Heap) (b : LogGammaBlock.t) (x : R) :
  derivable_pt_lim (LogGammaSignificance.significance_function_f h b) x
    (LogGammaSignificance.significance_function_df b x)
  /\ LogGammaSignificance.significance_function_fdf h b x
     = (LogGammaSignificance.significance_function_f h b x,
        LogGammaSignificance.significance_function_df b x)
  /\ LogGammaSignificance.significance_function_f h b
       (cache_get h (LogGammaBlock.cache b) (LogGammaBlock.id b)) = 0.
Proof.
  split; [| split; [reflexivity |]].
  - unfold LogGammaSignificance.significance_function_f,
      LogGammaSignificance.significance_function_df.
    set (value := cache_get h (LogGammaBlock.cache b) (LogGammaBlock.id b)).
    set (nu := LogGammaBlock.nu b).
    set (lambda := LogGammaBlock.lambda b).
    set (alpha := LogGammaBlock.alpha b).
    set (zp := (value - nu) / lambda).
    set (zm := plus_fct (mult_real_fct (/ lambda) id) (fct_cte (- nu / lambda))).
    assert (Hzm : derivable_pt_lim zm x (/ lambda)).
    { unfold zm.
      replace (/ lambda) with (/ lambda * 1 + 0) at 2 by ring.
      apply derivable_pt_lim_plus.
      - apply derivable_pt_lim_scal. apply derivable_pt_lim_id.
      - apply derivable_pt_lim_const. }
    assert (Hexp : derivable_pt_lim (comp exp zm) x (exp (zm x) * / lambda)).
    { apply derivable_pt_lim_comp; [exact Hzm | apply derivable_pt_lim_exp]. }
    assert (Hlin : derivable_pt_lim
                     (minus_fct (fct_cte (alpha * zp - exp zp))
                                (mult_real_fct alpha zm)) x
                     (0 - alpha * / lambda)).
    { apply derivable_pt_lim_minus.
      - apply derivable_pt_lim_const.
      - apply derivable_pt_lim_scal. exact Hzm. }
    pose proof (derivable_pt_lim_plus _ _ _ _ _ Hlin Hexp) as Hsum.
    assert (Hzmx : forall y, zm y = (y - nu) / lambda).
    { intros y. unfold zm, plus_fct, mult_real_fct, fct_cte, id, Rdiv. ring. }
    replace ((exp ((x - nu) / lambda) - alpha) / lambda)
      with (0 - alpha * / lambda + exp (zm x) * / lambda)
      by (rewrite Hzmx; unfold Rdiv; ring).
    eapply derivable_pt_lim_eq; [| exact Hsum].
    intros y. unfold plus_fct, minus_fct, mult_real_fct, fct_cte, comp.
    rewrite Hzmx. unfold Rdiv. ring.
  - unfold LogGammaSignificance.significance_function_f. ring.
Qed.
End LogGammaProperties.

Lemma LogGamma_cdf_monotone_witness :
  @LogGammaBlock.cdf example_gsl example_loggamma 0
  <= @LogGammaBlock.cdf example_gsl example_loggamma 1.
Proof.
  apply (@LogGamma_cdf_monotone example_gsl example_loggamma 0 1).
  - intros a u v [_ Huv]. simpl. apply exp_le_compat. lra.
  - simpl. lra.
  - lra.
Defined.

Lemma LogGamma_evaluate_maximal_at_central_witness :
  let b := example_loggamma in
  let s := registered_heap in
  let alpha := LogGammaBlock.alpha b in
  LogGammaBlock.evaluate s b <= LogGammaBlock.norm b + alpha * ln alpha - alpha
  /\ (LogGammaBlock.evaluate s b = LogGammaBlock.norm b + alpha * ln alpha - alpha
      <-> cache_get s (LogGammaBlock.cache b) (LogGammaBlock.id b)
          = LogGammaBlock.central b).
Proof.
  intros b s.
  apply (LogGamma_evaluate_maximal_at_central b s).
  - reflexivity.
  - simpl. lra.
  - simpl. lra.
Defined.

(** ** The Amoroso block: mode, sampling, upper limits *)

Lemma ln_below_tangent (t : R) : 0 < t -> ln t <= t - 1.
Proof.
  intros Ht. pose proof (exp_ineq1_le (ln t)) as H.
  rewrite exp_ln in H by exact Ht. lra.
Qed.

Lemma Rpower_inverse_exponent (w beta : R) :
  0 < w -> 0 < beta -> Rpower (Rpower w (1 / beta)) beta = w.
Proof.
  intros Hw Hb. rewrite Rpower_mult.
  replace (1 / beta * beta) with 1 by (field; lra).
  apply Rpower_1. exact Hw.
Qed.

Section AmorosoProperties.
Context {gsl : GSL} {rounding : Rounding}.

(** X20. [AmorosoBlock::mode] is where the density peaks: for a block whose
    constructor returned and with [alpha * beta > 1], [mode()] returns a
    value, and [evaluate] with the cached value at [mode()] is at least
    [evaluate] with any cached value above the physical limit. *)
Theorem Amoroso_evaluate_maximal_at_mode
    cache id pl theta alpha beta n (a : AmorosoBlock.t) :
  AmorosoBlock.make cache id pl theta alpha beta n = Ok a ->
  1 < alpha * beta ->
  exists mode_a,
    AmorosoBlock.mode a = Ok mode_a
    /\ forall s s' : Heap,
         cache_get s' (AmorosoBlock.cache a) (AmorosoBlock.id a) = mode_a ->
         pl < cache_get s (AmorosoBlock.cache a) (AmorosoBlock.id a) ->
         AmorosoBlock.evaluate s a <= AmorosoBlock.evaluate s' a.
Proof.
  intros Hmake Hab.
  destruct (Amoroso_make_inv _ _ _ _ _ _ _ _ Hmake)
    as (Ht & Ha & Hb & _ & _ & Hpl & Htheta & Halpha & Hbeta & _).
  set (c := alpha - 1 / beta).
  assert (Hc : 0 < c).
  { unfold c. apply Rmult_lt_reg_r with beta; [exact Hb |].
    replace ((alpha - 1 / beta) * beta) with (alpha * beta - 1) by (field; lra).
    lra. }
  exists (pl + theta * Rpower c (1 / beta)).
  split.
  { unfold AmorosoBlock.mode. rewrite Hpl, Htheta, Halpha, Hbeta. fold c.
    destruct (Req_dec_T c 0) as [Hzero | _]; [lra |].
    rewrite std_pow_checked_pos by exact Hc. reflexivity. }
  intros s s' Hmode Hv.
  unfold AmorosoBlock.evaluate. rewrite Hmode.
  rewrite Hpl, Htheta, Halpha, Hbeta.
  set (v := cache_get s (AmorosoBlock.cache a) (AmorosoBlock.id a)) in *.
  assert (Hcb : alpha * beta - 1 = c * beta) by (unfold c; field; lra).
  replace ((pl + theta * Rpower c (1 / beta) - pl) / theta)
    with (Rpower c (1 / beta)) by (field; lra).
  set (z := (v - pl) / theta).
  assert (Hz : 0 < z) by (unfold z; apply Rdiv_lt_0_compat; lra).
  assert (Hzm : 0 < Rpower c (1 / beta)) by (unfold Rpower; apply exp_pos).
  rewrite !std_pow_pos by assumption.
  rewrite Rpower_inverse_exponent by assumption.
  set (w := Rpower z beta).
  assert (Hw : 0 < w) by (unfold w, Rpower; apply exp_pos).
  assert (Hlnw : ln w = beta * ln z) by (unfold w, Rpower; apply ln_exp).
  assert (Hlnm : ln (Rpower c (1 / beta)) = 1 / beta * ln c)
    by (unfold Rpower; apply ln_exp).
  rewrite Hlnm, Hcb.
  replace (c * beta * ln z) with (c * ln w) by (rewrite Hlnw; ring).
  replace (c * beta * (1 / beta * ln c)) with (c * ln c) by (field; lra).
  pose proof (ln_below_tangent (w / c) (Rdiv_lt_0_compat _ _ Hw Hc)) as Htan.
  unfold Rdiv in Htan. rewrite ln_mult in Htan;
    [| exact Hw | apply Rinv_0_lt_compat; exact Hc].
  rewrite ln_Rinv in Htan by exact Hc.
  assert (Hmul : c * (ln w + - ln c) <= c * (w * / c - 1))
    by (apply Rmult_le_compat_l; lra).
  replace (c * (w * / c - 1)) with (w - c) in Hmul by (field; lra).
  lra.
Qed.

(** X21. [AmorosoBlock::sample] returns the log-density at the simulated
    measurement: if the gamma variate [w] drawn from the generator is
    positive, the result is what [evaluate] returns when the cached value is
    [physical_limit + theta * w^(1/beta)]. *)
Theorem Amoroso_sample_is_evaluate_at_draw
    cache id pl theta alpha beta n (a : AmorosoBlock.t) (rng : gsl_rng) (s : Heap) :
  AmorosoBlock.make cache id pl theta alpha beta n = Ok a ->
  0 < fst (gsl_ran_gamma rng alpha 1) ->
  cache_get s (AmorosoBlock.cache a) (AmorosoBlock.id a)
  = pl + theta * std_pow (fst (gsl_ran_gamma rng alpha 1)) (1 / beta) ->
  fst (AmorosoBlock.sample a rng) = AmorosoBlock.evaluate s a.
Proof.
  intros Hmake Hw Hvalue.
  destruct (Amoroso_make_inv _ _ _ _ _ _ _ _ Hmake)
    as (Ht & Ha & Hb & _ & _ & Hpl & Htheta & Halpha & Hbeta & _).
  unfold AmorosoBlock.sample, AmorosoBlock.evaluate.
  rewrite Hvalue, Hpl, Htheta, Halpha, Hbeta.
  destruct (gsl_ran_gamma rng alpha 1) as [w rng']. cbn [fst] in *.
  replace ((pl + theta * std_pow w (1 / beta) - pl) / theta)
    with (std_pow w (1 / beta)) by (field; lra).
  rewrite (std_pow_pos w) by exact Hw.
  assert (Hz : 0 < Rpower w (1 / beta)) by (unfold Rpower; apply exp_pos).
  rewrite (std_pow_pos (Rpower w (1 / beta))) by exact Hz.
  rewrite Rpower_inverse_exponent by assumption.
  reflexivity.
Qed.

End AmorosoProperties.

Lemma Amoroso_evaluate_maximal_at_mode_witness :
  let a := {| AmorosoBlock.cache := O; AmorosoBlock.id := O;
              AmorosoBlock.physical_limit := 0; AmorosoBlock.theta := 1;
              AmorosoBlock.alpha := 2; AmorosoBlock.beta := 1;
              AmorosoBlock.norm :=
                -1 * @gsl_sf_lngamma example_gsl 2 + ln (Rabs (1 / 1));
              AmorosoBlock._number_of_observations := 1%Z |} in
  exists mode_a,
    @AmorosoBlock.mode example_rounding a = Ok mode_a
    /\ AmorosoBlock.evaluate (heap_with_value 3) a
       <= AmorosoBlock.evaluate (heap_with_value mode_a) a.
Proof.
  intros a.
  destruct (@Amoroso_evaluate_maximal_at_mode example_gsl example_rounding O O 0 1 2 1 1%Z a)
    as (mode_a & Hmode & Hmax).
  - unfold AmorosoBlock.make.
    destruct (Rle_dec 1 0); [lra |].
    destruct (Rle_dec 2 0); [lra |].
    reflexivity.
  - lra.
  - exists mode_a. split; [exact Hmode |].
    apply (Hmax (heap_with_value 3) (heap_with_value mode_a)).
    + reflexivity.
    + unfold cache_get, ObservableCache.get. simpl. lra.
Defined.

Lemma Amoroso_sample_is_evaluate_at_draw_witness :
  let a := {| AmorosoBlock.cache := O; AmorosoBlock.id := O;
              AmorosoBlock.physical_limit := 0; AmorosoBlock.theta := 1;
              AmorosoBlock.alpha := 2; AmorosoBlock.beta := 1;
              AmorosoBlock.norm :=
                -1 * @gsl_sf_lngamma example_gsl 2 + ln (Rabs (1 / 1));
              AmorosoBlock._number_of_observations := 1%Z |} in
  fst (@AmorosoBlock.sample example_gsl a O)
  = AmorosoBlock.evaluate
      (heap_with_value
         (0 + 1 * std_pow (fst (@gsl_ran_gamma example_gsl O 2 1)) (1 / 1))) a.
Proof.
  intros a.
  apply (@Amoroso_sample_is_evaluate_at_draw example_gsl O O 0 1 2 1 1%Z a O).
  - unfold AmorosoBlock.make.
    destruct (Rle_dec 1 0); [lra |].
    destruct (Rle_dec 2 0); [lra |].
    reflexivity.
  - simpl. lra.
  - reflexivity.
Defined.


(** ** The multivariate Gaussian block: constructor failures, value at the
    mean *)

Lemma gsl_blas_ddot_zero_l (x y : gsl_vector) :
  Forall (fun a => a = 0) x -> gsl_blas_ddot x y = 0.
Proof.
  intros Hx. revert y. induction Hx as [| a x Ha Hx IH]; intros y; [reflexivity |].
  destruct y as [| b y]; [reflexivity |].
  simpl. rewrite Ha, IH. ring.
Qed.

Lemma gsl_vector_sub_zero (f : nat -> R) (mean : gsl_vector) (start : nat) :
  (forall i, (i < List.length mean)%nat -> f (start + i)%nat = nth i mean 0) ->
  Forall (fun a => a = 0)
         (gsl_vector_sub (map f (seq start (List.length mean))) mean).
Proof.
  revert start. induction mean as [| m mean IH]; intros start Hf; [constructor |].
  cbn [List.length seq map gsl_vector_sub combine].
  constructor.
  - specialize (Hf O (Nat.lt_0_succ _)). rewrite Nat.add_0_r in Hf.
    rewrite Hf. simpl. ring.
  - apply IH. intros i Hi.
    specialize (Hf (S i) (proj1 (Nat.succ_lt_mono _ _) Hi)).
    rewrite Nat.add_succ_r in Hf. exact Hf.
Qed.

Section MultivariateProperties.
Context {gsl : GSL}.

(** X23. Of the three dimension errors of the constructor only the first can
    be raised: [_norm] is computed in the initializer list, where
    [gsl_matrix_memcpy] into a [k] by [k] matrix ([k] the size of the mean)
    already rejects every covariance of another shape.  The constructor either
    returns a block whose observables, mean and covariance have the same
    dimension and whose covariance the Cholesky decomposition accepted, or
    fails in [gsl_matrix_memcpy], or throws "dimensions of observables and
    mean are not identical", or, the dimensions being equal, fails in
    [gsl_linalg_cholesky_decomp] on a covariance that is not positive
    definite. *)
Theorem MultivariateGaussian_make_failures
    cache ids mean covariance n :
  match MultivariateGaussianBlock.make cache ids mean covariance n with
  | Ok b =>
      List.length (MultivariateGaussianBlock._ids b)
      = List.length (MultivariateGaussianBlock._mean b)
      /\ size1 (MultivariateGaussianBlock._covariance b)
         = List.length (MultivariateGaussianBlock._mean b)
      /\ size2 (MultivariateGaussianBlock._covariance b)
         = List.length (MultivariateGaussianBlock._mean b)
      /\ gsl_linalg_cholesky_decomp_status (MultivariateGaussianBlock._covariance b)
         = GSL_SUCCESS
  | Fail f =>
      (f = GslError "matrix sizes are different"
       /\ (size1 covariance <> List.length mean
           \/ size2 covariance <> List.length mean))
      \/ (f = InternalError "MultivariateGaussianBlock: dimensions of observables and mean are not identical"
          /\ List.length ids <> List.length mean)
      \/ (f = GslError "matrix must be positive definite"
          /\ List.length ids = List.length mean
          /\ size1 covariance = List.length mean
          /\ size2 covariance = List.length mean
          /\ gsl_linalg_cholesky_decomp_status covariance <> GSL_SUCCESS)
  end.
Proof.
  unfold MultivariateGaussianBlock.make, MultivariateGaussianBlock.compute_norm,
    MultivariateGaussianBlock.gsl_matrix_memcpy.
  destruct (Nat.eqb (size1 covariance) (List.length mean)) eqn:E1; simpl.
  2:{ apply Nat.eqb_neq in E1. left. split; [reflexivity | left; exact E1]. }
  destruct (Nat.eqb (size2 covariance) (List.length mean)) eqn:E2; simpl.
  2:{ apply Nat.eqb_neq in E2. left. split; [reflexivity | right; exact E2]. }
  apply Nat.eqb_eq in E1, E2.
  destruct (Nat.eqb (List.length ids) (List.length mean)) eqn:E3; simpl.
  2:{ apply Nat.eqb_neq in E3. right. left. split; [reflexivity | exact E3]. }
  apply Nat.eqb_eq in E3.
  rewrite E1, E2, E3, !Nat.eqb_refl. simpl.
  destruct (gsl_linalg_cholesky_decomp_status covariance) eqn:Echol;
    cbn [MultivariateGaussianBlock._ids MultivariateGaussianBlock._mean
         MultivariateGaussianBlock._covariance];
    try (right; right; repeat split; try assumption; discriminate).
  repeat split; assumption.
Qed.

(** X24. At the mean the chi-square vanishes, whatever the covariance: when
    every cached value equals the corresponding entry of the mean,
    [chi_square] is [0] and [evaluate] returns [_norm]. *)
Theorem MultivariateGaussian_evaluate_at_mean
    (h : Heap) (b : MultivariateGaussianBlock.t) :
  (forall i, (i < List.length (MultivariateGaussianBlock._mean b))%nat ->
             cache_get h (MultivariateGaussianBlock._cache b)
               (nth i (MultivariateGaussianBlock._ids b) O)
             = nth i (MultivariateGaussianBlock._mean b) 0) ->
  MultivariateGaussianBlock.chi_square h b = 0
  /\ MultivariateGaussianBlock.evaluate h b = MultivariateGaussianBlock._norm b.
Proof.
  intros Hmean.
  assert (Hchi : MultivariateGaussianBlock.chi_square h b = 0).
  { unfold MultivariateGaussianBlock.chi_square.
    apply gsl_blas_ddot_zero_l.
    apply (gsl_vector_sub_zero
             (fun i => cache_get h (MultivariateGaussianBlock._cache b)
                         (nth i (MultivariateGaussianBlock._ids b) O))
             (MultivariateGaussianBlock._mean b) O).
    exact Hmean. }
  split; [exact Hchi |].
  unfold MultivariateGaussianBlock.evaluate. rewrite Hchi. ring.
Qed.
End MultivariateProperties.

(** A one by one covariance with a negative entry is not positive definite:
    the constructor fails in the Cholesky decomposition. *)
Lemma MultivariateGaussian_rejects_negative_variance :
  @MultivariateGaussianBlock.make example_gsl O [O] [0] [[-1]] 1%Z
  = Fail (GslError "matrix must be positive definite").
Proof.
  unfold MultivariateGaussianBlock.make, MultivariateGaussianBlock.compute_norm,
    MultivariateGaussianBlock.gsl_matrix_memcpy.
  cbn [size1 size2 List.length Nat.eqb andb negb bind].
  cbn [gsl_linalg_cholesky_decomp_status example_gsl].
  unfold all_positive, diagonal_of. cbn [List.length seq combine map nth forallb].
  destruct (Rlt_dec 0 (-1)) as [H | _]; [lra | reflexivity].
Qed.

Lemma MultivariateGaussian_evaluate_at_mean_witness :
  let b := {| MultivariateGaussianBlock._cache := O;
              MultivariateGaussianBlock._ids := [O];
              MultivariateGaussianBlock._mean := [1];
              MultivariateGaussianBlock._covariance := [[4]];
              MultivariateGaussianBlock._number_of_observations := 1%Z;
              MultivariateGaussianBlock._norm := 0;
              MultivariateGaussianBlock._chol := [[2]];
              MultivariateGaussianBlock._covariance_inv := [[/ 4]] |} in
  MultivariateGaussianBlock.chi_square registered_heap b = 0
  /\ MultivariateGaussianBlock.evaluate registered_heap b
     = MultivariateGaussianBlock._norm b.
Proof.
  intros b.
  apply (MultivariateGaussian_evaluate_at_mean registered_heap b).
  intros i Hi. simpl in Hi.
  destruct i as [| i]; [reflexivity | lia].
Defined.

(** ** Parameters: construction, lookup, assignment, cloning *)

Section ParametersProperties.
Import ParametersImplementation.

Lemma map_find_assign (m : map_t) (key key' : string) (idx : nat) :
  map_find (map_assign m key idx) key'
  = if String.eqb key key' then Some idx else map_find m key'.
Proof.
  induction m as [| [k i] m IH]; simpl.
  - reflexivity.
  - destruct (String.eqb_spec k key) as [-> | Hne]; simpl.
    + destruct (String.eqb key key'); reflexivity.
    + rewrite IH.
      destruct (String.eqb_spec k key') as [-> | Hne'].
      * destruct (String.eqb_spec key key') as [E | _]; [| reflexivity].
        exfalso. apply Hne. symmetry. exact E.
      * reflexivity.
Qed.

Lemma update_same st p d : data_at (update st p d) p = d.
Proof. simpl. rewrite Nat.eqb_refl. reflexivity. Qed.

Lemma update_other st p d q : q <> p -> data_at (update st p d) q = data_at st q.
Proof.
  intros Hne. simpl. destruct (Nat.eqb_spec q p); [contradiction | reflexivity].
Qed.

(** What the loop of the constructor leaves. *)
Lemma make_loop_spec p :
  forall (list : list ParameterTemplate.t) idx st m ps,
    let '(st', m', ps') := make_loop p list idx st m ps in
    data_at st' p = data_at st p ++ map Data_of list
    /\ (forall q, q <> p -> data_at st' q = data_at st q)
    /\ next_free st' = next_free st
    /\ ps' = ps ++ map (fun i => {| _parameters_data := p; _index := i |})
                       (seq idx (List.length list))
    /\ (forall name,
          map_find m' name
          = match last_index list name idx with
            | Some j => Some j
            | None => map_find m name
            end).
Proof.
  induction list as [| t rest IH]; intros idx st m ps.
  - simpl. rewrite !app_nil_r. repeat split; reflexivity.
  - cbn [make_loop].
    specialize (IH (S idx) (update st p (data_at st p ++ [Data_of t]))
                  (map_assign m (ParameterTemplate.name t) idx)
                  (ps ++ [ {| _parameters_data := p; _index := idx |} ])).
    destruct (make_loop p rest (S idx) _ _ _) as [[st' m'] ps'].
    destruct IH as (Hdata & Hother & Hnext & Hps & Hmap).
    split; [| split; [| split; [| split]]].
    + rewrite Hdata, update_same, <- app_assoc. reflexivity.
    + intros q Hq. rewrite Hother by exact Hq. apply update_other. exact Hq.
    + rewrite Hnext. reflexivity.
    + rewrite Hps, <- app_assoc. reflexivity.
    + intros name. rewrite Hmap. cbn [last_index].
      destruct (last_index rest name (S idx)); [reflexivity |].
      rewrite map_find_assign.
      destruct (String.eqb (ParameterTemplate.name t) name); reflexivity.
Qed.

Lemma last_index_range list name idx j :
  last_index list name idx = Some j -> (idx <= j < idx + List.length list)%nat.
Proof.
  revert idx. induction list as [| t rest IH]; intros idx; simpl; [discriminate |].
  destruct (last_index rest name (S idx)) as [j' |] eqn:E.
  - intros H. injection H as <-. apply IH in E. lia.
  - destruct (String.eqb _ _); [| discriminate].
    intros H. injection H as <-. lia.
Qed.

Lemma last_index_absent list name idx :
  ~ In name (map ParameterTemplate.name list) -> last_index list name idx = None.
Proof.
  revert idx. induction list as [| t rest IH]; intros idx Hnot; simpl; [reflexivity |].
  rewrite IH by (intros Hin; apply Hnot; right; exact Hin).
  destruct (String.eqb_spec (ParameterTemplate.name t) name) as [E | _];
    [| reflexivity].
  exfalso. apply Hnot. left. exact E.
Qed.

Lemma last_index_found list idx i t :
  nth_error list i = Some t ->
  (forall j t', (i < j)%nat -> nth_error list j = Some t' ->
                ParameterTemplate.name t' <> ParameterTemplate.name t) ->
  last_index list (ParameterTemplate.name t) idx = Some (idx + i)%nat.
Proof.
  revert idx i. induction list as [| t0 rest IH]; intros idx i Hnth Hlast.
  - destruct i; discriminate.
  - destruct i as [| i]; cbn [nth_error last_index] in *.
    + injection Hnth as ->.
      assert (Hnone : last_index rest (ParameterTemplate.name t) (S idx) = None).
      { apply last_index_absent. intros Hin.
        apply in_map_iff in Hin. destruct Hin as (t' & Hname & Hin').
        apply In_nth_error in Hin'. destruct Hin' as [j Hj].
        apply (Hlast (S j) t'); [lia | exact Hj | exact Hname]. }
      rewrite Hnone, String.eqb_refl, Nat.add_0_r. reflexivity.
    + rewrite (IH (S idx) i Hnth).
      * f_equal. lia.
      * intros j t' Hij Hj. apply (Hlast (S j) t'); [lia | exact Hj].
Qed.

Lemma make_spec st list :
  let imp := fst (make st list) in
  let st' := snd (make st list) in
  parameters_data imp = next_free st
  /\ data_at st' (parameters_data imp) = map Data_of list
  /\ (forall q, q <> next_free st -> data_at st' q = data_at st q)
  /\ next_free st' = S (next_free st)
  /\ parameters imp
     = map (fun i => {| _parameters_data := next_free st; _index := i |})
           (seq 0 (List.length list))
  /\ (forall name, map_find (parameters_map imp) name = last_index list name 0).
Proof.
  unfold make, new_Data.
  pose proof (make_loop_spec (next_free st) list O
                {| data_at := fun q => if Nat.eqb q (next_free st) then []
                                       else data_at st q;
                   next_free := S (next_free st) |} [] []) as H.
  destruct (make_loop _ _ _ _ _ _) as [[st' m'] ps'].
  destruct H as (Hdata & Hother & Hnext & Hps & Hmap).
  cbn [fst snd parameters_data parameters_map parameters].
  cbn [data_at next_free] in Hdata, Hother, Hnext.
  rewrite Nat.eqb_refl in Hdata.
  split; [reflexivity |].
  split; [exact Hdata |].
  split.
  { intros q Hq. rewrite Hother by exact Hq.
    destruct (Nat.eqb_spec q (next_free st)); [contradiction | reflexivity]. }
  split; [exact Hnext |].
  split; [exact Hps |].
  intros name. rewrite Hmap. simpl.
  destruct (last_index list name 0); reflexivity.
Qed.

Lemma make_well_formed st list :
  well_formed (snd (make st list)) (fst (make st list)).
Proof.
  destruct (make_spec st list) as (_ & Hdata & _ & _ & _ & Hmap).
  intros name i Hfind. rewrite Hmap in Hfind.
  apply last_index_range in Hfind.
  rewrite Hdata, length_map. lia.
Qed.

Lemma make_lookup_found st list i t :
  nth_error list i = Some t ->
  (forall j t', (i < j)%nat -> nth_error list j = Some t' ->
                ParameterTemplate.name t' <> ParameterTemplate.name t) ->
  let imp := fst (make st list) in
  let st' := snd (make st list) in
  let q := {| _parameters_data := parameters_data imp; _index := i |} in
  lookup imp (ParameterTemplate.name t) = Returns q
  /\ value st' q = Returns (ParameterTemplate.central t)
  /\ central st' q = Returns (ParameterTemplate.central t)
  /\ min st' q = Returns (ParameterTemplate.min t)
  /\ max st' q = Returns (ParameterTemplate.max t)
  /\ name st' q = Returns (ParameterTemplate.name t).
Proof.
  intros Hnth Hlast imp st' q.
  destruct (make_spec st list) as (Hp & Hdata & _ & _ & Hps & Hmap).
  fold imp in Hp, Hdata, Hps, Hmap. fold st' in Hdata.
  assert (Hd : data st' q = Returns (Data_of t)).
  { unfold data, q. cbn [_parameters_data _index].
    rewrite Hdata, nth_error_map, Hnth. reflexivity. }
  split.
  - unfold lookup. rewrite Hmap, (last_index_found list 0 i t Hnth Hlast).
    reflexivity.
  - unfold value, central, min, max, name, field. rewrite Hd.
    repeat split; reflexivity.
Qed.

(** X25. A set built from a list of templates: a name that is not in the list
    is unknown to [operator[]]; every other name resolves to the index of the
    last template of that name, whose value is the central value of the
    template and whose [central], [min], [max] and [name] are the template's;
    and the range of [begin()] and [end()] holds one parameter per template,
    in order. *)
Theorem Parameters_make_lookup (st : Store) (list : list ParameterTemplate.t) :
  let imp := fst (make st list) in
  let st' := snd (make st list) in
  (forall name,
      ~ In name (map ParameterTemplate.name list) ->
      lookup imp name = Throws (UnknownParameterError name))
  /\ (forall i t,
        nth_error list i = Some t ->
        (forall j t', (i < j)%nat -> nth_error list j = Some t' ->
                      ParameterTemplate.name t' <> ParameterTemplate.name t) ->
        let q := {| _parameters_data := parameters_data imp; _index := i |} in
        lookup imp (ParameterTemplate.name t) = Returns q
        /\ value st' q = Returns (ParameterTemplate.central t)
        /\ central st' q = Returns (ParameterTemplate.central t)
        /\ min st' q = Returns (ParameterTemplate.min t)
        /\ max st' q = Returns (ParameterTemplate.max t)
        /\ name st' q = Returns (ParameterTemplate.name t))
  /\ range imp
     = map (fun i => {| _parameters_data := parameters_data imp; _index := i |})
           (seq 0 (List.length list)).
Proof.
  intros imp st'.
  destruct (make_spec st list) as (Hp & Hdata & _ & _ & Hps & Hmap).
  fold imp in Hp, Hdata, Hps, Hmap. fold st' in Hdata.
  split; [| split].
  - intros name Hnot. unfold lookup.
    rewrite Hmap, last_index_absent by exact Hnot. reflexivity.
  - intros i t Hnth Hlast. apply (make_lookup_found st list i t Hnth Hlast).
  - unfold range. rewrite Hps, Hp. reflexivity.
Qed.

Lemma nth_error_replace {A : Type} (l : list A) (i j : nat) (x : A) :
  (i < List.length l)%nat ->
  nth_error (firstn i l ++ x :: skipn (S i) l) j
  = if Nat.eqb j i then Some x else nth_error l j.
Proof.
  revert i j. induction l as [| a l IH]; intros i j Hi; [simpl in Hi; lia |].
  destruct i as [| i]; destruct j as [| j]; cbn; try reflexivity.
  apply IH. simpl in Hi. lia.
Qed.

Lemma length_replace {A : Type} (l : list A) (i : nat) (x : A) :
  (i < List.length l)%nat ->
  List.length (firstn i l ++ x :: skipn (S i) l) = List.length l.
Proof.
  intros Hi. rewrite length_app, length_firstn. cbn [List.length].
  rewrite length_skipn. lia.
Qed.

Lemma set_value_spec st p i v :
  (i < List.length (data_at st p))%nat ->
  exists d st',
    nth_error (data_at st p) i = Some d
    /\ set_value st p i v = Returns st'
    /\ next_free st' = next_free st
    /\ List.length (data_at st' p) = List.length (data_at st p)
    /\ (forall q, q <> p -> data_at st' q = data_at st q)
    /\ (forall j, j <> i -> nth_error (data_at st' p) j = nth_error (data_at st p) j)
    /\ nth_error (data_at st' p) i
       = Some {| EosParameter.name := EosParameter.name d;
                 EosParameter.min := EosParameter.min d;
                 EosParameter.central := EosParameter.central d;
                 EosParameter.max := EosParameter.max d;
                 EosParameter.value := v |}.
Proof.
  intros Hi. unfold set_value.
  destruct (nth_error (data_at st p) i) as [d |] eqn:Hd.
  2: { apply nth_error_None in Hd. lia. }
  eexists. eexists. split; [reflexivity |]. split; [reflexivity |].
  split; [reflexivity |].
  rewrite update_same.
  split; [apply length_replace; exact Hi |].
  split; [intros q Hq; apply update_other; exact Hq |].
  split.
  - intros j Hj. rewrite nth_error_replace by exact Hi.
    destruct (Nat.eqb_spec j i); [contradiction | reflexivity].
  - rewrite nth_error_replace by exact Hi. rewrite Nat.eqb_refl. reflexivity.
Qed.

(** X26. Assignment and reading back: on a set whose map holds indices of its
    data only, [set(name, v)] returns for a known name; afterwards the
    parameter of that name reads [v], its [central], [min], [max] and [name]
    are as before, every other parameter of this or of any other set is
    unchanged, and the set is as sound as before. *)
Theorem Parameters_set_then_get (st : Store) (imp : t) (name0 : string) (v : R)
    (q : ParameterObject) :
  well_formed st imp ->
  lookup imp name0 = Returns q ->
  exists st',
    set st imp name0 v = Returns st'
    /\ value st' q = Returns v
    /\ central st' q = central st q
    /\ min st' q = min st q
    /\ max st' q = max st q
    /\ name st' q = name st q
    /\ (forall q', q' <> q -> data st' q' = data st q')
    /\ well_formed st' imp.
Proof.
  intros Hwf Hlookup. unfold lookup in Hlookup.
  destruct (map_find (parameters_map imp) name0) as [i |] eqn:Hfind;
    [| discriminate].
  injection Hlookup as <-.
  pose proof (Hwf name0 i Hfind) as Hi.
  destruct (set_value_spec st (parameters_data imp) i v Hi)
    as (d & st' & Hd & Hset & _ & Hlen & Hother & Hframe & Hnew).
  exists st'. unfold set. rewrite Hfind.
  split; [exact Hset |].
  unfold value, central, min, max, name, field, data.
  cbn [_parameters_data _index]. rewrite Hnew, Hd.
  do 5 (split; [reflexivity |]).
  split.
  - intros [p' i'] Hne. cbn [_parameters_data _index].
    destruct (Nat.eq_dec p' (parameters_data imp)) as [-> | Hp].
    + rewrite Hframe; [reflexivity |]. intros ->. apply Hne. reflexivity.
    + rewrite Hother by exact Hp. reflexivity.
  - intros n j Hj. rewrite Hlen. apply (Hwf n j Hj).
Qed.

Lemma copy_loop_empty fuel p : copy_loop (S fuel) p O [] = Some [].
Proof. reflexivity. Qed.

(** X27. A clone is independent of the original: [clone()] returns a set on
    a new data object with the same names, indices and values; nothing that
    existed is changed by the copy; and from then on [set] on the clone
    changes no parameter outside the clone, while [set] on the original
    changes no parameter of the clone. *)
Theorem Parameters_clone_is_independent (fuel : nat) (st : Store) (imp : t) :
  (parameters_data imp < next_free st)%nat ->
  exists imp' st',
    clone (S fuel) st imp = Some (imp', st')
    /\ parameters_data imp' <> parameters_data imp
    /\ parameters_map imp' = parameters_map imp
    /\ (forall i,
          data st' {| _parameters_data := parameters_data imp'; _index := i |}
          = data st {| _parameters_data := parameters_data imp; _index := i |})
    /\ (forall q, (_parameters_data q < next_free st)%nat -> data st' q = data st q)
    /\ (forall name0 v st'',
          set st' imp' name0 v = Returns st'' ->
          forall q, _parameters_data q <> parameters_data imp' ->
                    data st'' q = data st' q)
    /\ (forall name0 v st'',
          set st' imp name0 v = Returns st'' ->
          forall i,
            data st'' {| _parameters_data := parameters_data imp'; _index := i |}
            = data st' {| _parameters_data := parameters_data imp'; _index := i |}).
Proof.
  intros Hlive.
  unfold clone, copy, new_Data. rewrite copy_loop_empty.
  eexists. eexists. split; [reflexivity |].
  cbn [parameters_data parameters_map].
  assert (Hset_frame : forall st1 p i v st2,
             set_value st1 p i v = Returns st2 ->
             forall q, _parameters_data q <> p -> data st2 q = data st1 q).
  { intros st1 p i v st2 Hset q Hq. unfold set_value in Hset.
    destruct (nth_error (data_at st1 p) i); [| discriminate].
    injection Hset as <-. unfold data.
    rewrite update_other by exact Hq. reflexivity. }
  split; [lia |].
  split; [reflexivity |].
  split.
  { intros i. unfold data. cbn. rewrite Nat.eqb_refl. reflexivity. }
  split.
  { intros q Hq. unfold data. cbn.
    destruct (Nat.eqb_spec (_parameters_data q) (next_free st)); [lia | reflexivity]. }
  split.
  - intros name0 v st'' Hset q Hq. unfold set in Hset.
    cbn [parameters_data parameters_map] in Hset.
    destruct (map_find (parameters_map imp) name0) as [i |]; [| discriminate].
    apply (Hset_frame _ _ _ _ _ Hset). exact Hq.
  - intros name0 v st'' Hset i. unfold set in Hset.
    destruct (map_find (parameters_map imp) name0) as [j |]; [| discriminate].
    apply (Hset_frame _ _ _ _ _ Hset). cbn [_parameters_data]. lia.
Qed.

(** X28. Iterating over a clone visits nothing: the loop of the copy
    constructor compares its counter with the size of the vector that it is
    about to fill, which is zero, so the range from [begin()] to [end()] of
    every clone is empty, whereas the set built from [n] templates iterates
    over [n] parameters. *)
Theorem Parameters_clone_range_is_empty (fuel : nat) (st : Store)
    (list : list ParameterTemplate.t) :
  let imp := fst (make st list) in
  let st1 := snd (make st list) in
  List.length (range imp) = List.length list
  /\ exists imp' st',
       clone (S fuel) st1 imp = Some (imp', st') /\ range imp' = [].
Proof.
  intros imp st1. split.
  - destruct (make_spec st list) as (_ & _ & _ & _ & Hps & _).
    unfold range. fold imp in Hps. rewrite Hps, length_map, length_seq. reflexivity.
  - unfold clone, copy, new_Data. rewrite copy_loop_empty.
    eexists. eexists. split; reflexivity.
Qed.

Lemma distinct_strings_NoDup (l : list string) :
  distinct_strings l = true -> NoDup l.
Proof.
  induction l as [| x l IH]; simpl; intros H; [constructor |].
  apply andb_prop in H. destruct H as [Hx Hl].
  constructor; [| apply IH; exact Hl].
  intros Hin. apply negb_true_iff in Hx.
  assert (Htrue : existsb (String.eqb x) l = true).
  { apply existsb_exists. exists x. split; [exact Hin | apply String.eqb_refl]. }
  congruence.
Qed.

Lemma NoDup_map_later {A B : Type} (f : A -> B) (l : list A) i j a b :
  NoDup (map f l) -> (i < j)%nat ->
  nth_error l i = Some a -> nth_error l j = Some b -> f b <> f a.
Proof.
  intros Hnd Hij Ha Hb Heq.
  assert (Hi : nth_error (map f l) i = Some (f a)) by (rewrite nth_error_map, Ha; reflexivity).
  assert (Hj : nth_error (map f l) j = Some (f b)) by (rewrite nth_error_map, Hb; reflexivity).
  rewrite Heq in Hj.
  assert (Hlt : (i < List.length (map f l))%nat)
    by (apply nth_error_Some; rewrite Hi; discriminate).
  pose proof (proj1 (NoDup_nth_error (map f l)) Hnd i j Hlt) as Hinj.
  rewrite Hi, Hj in Hinj. specialize (Hinj eq_refl). lia.
Qed.

Lemma defaults_names_distinct :
  NoDup (map ParameterTemplate.name defaults_table).
Proof.
  apply distinct_strings_NoDup.
  cbv [map defaults_table template ParameterTemplate.name].
  vm_compute. reflexivity.
Qed.

Lemma defaults_ranges :
  Forall (fun t => ParameterTemplate.min t <= ParameterTemplate.central t
                   /\ ParameterTemplate.central t <= ParameterTemplate.max t)
         defaults_table.
Proof.
  pose proof PI_RGT_0 as Hpi.
  unfold defaults_table, template.
  repeat (apply Forall_cons;
          [cbn [ParameterTemplate.min ParameterTemplate.central ParameterTemplate.max];
           split; lra |]).
  apply Forall_nil.
Qed.

(** X29. The default parameters: the 74 names of the table are pairwise
    different, every row has [min <= central <= max], and in the set that
    [Defaults()] returns every name of the table resolves to its own row and
    reads the central value of that row, which lies between its [min] and its
    [max]. *)
Theorem Defaults_resolve_to_central (st : Store) (i : nat)
    (t : ParameterTemplate.t) :
  nth_error defaults_table i = Some t ->
  let imp := fst (Defaults st) in
  let st' := snd (Defaults st) in
  let q := {| _parameters_data := parameters_data imp; _index := i |} in
  lookup imp (ParameterTemplate.name t) = Returns q
  /\ value st' q = Returns (ParameterTemplate.central t)
  /\ min st' q = Returns (ParameterTemplate.min t)
  /\ max st' q = Returns (ParameterTemplate.max t)
  /\ ParameterTemplate.min t <= ParameterTemplate.central t
     <= ParameterTemplate.max t.
Proof.
  intros Hnth imp st' q.
  destruct (make_lookup_found st defaults_table i t Hnth)
    as (Hl & Hv & _ & Hmin & Hmax & _).
  { intros j t' Hij Hj.
    apply (NoDup_map_later ParameterTemplate.name defaults_table i j t t'
             defaults_names_distinct Hij Hnth Hj). }
  split; [exact Hl |]. split; [exact Hv |].
  split; [exact Hmin |]. split; [exact Hmax |].
  pose proof (proj1 (Forall_forall _ _) defaults_ranges t (nth_error_In _ _ Hnth)) as H.
  exact H.
Qed.


Local Open Scope string_scope.

Lemma Parameters_set_then_get_witness :
  exists st',
    set example_store example_parameters "mu" 5 = Returns st'
    /\ value st' {| _parameters_data := O; _index := O |} = Returns 5
    /\ central st' {| _parameters_data := O; _index := O |}
       = central example_store {| _parameters_data := O; _index := O |}
    /\ min st' {| _parameters_data := O; _index := O |}
       = min example_store {| _parameters_data := O; _index := O |}
    /\ max st' {| _parameters_data := O; _index := O |}
       = max example_store {| _parameters_data := O; _index := O |}
    /\ name st' {| _parameters_data := O; _index := O |}
       = name example_store {| _parameters_data := O; _index := O |}
    /\ (forall q', q' <> {| _parameters_data := O; _index := O |} ->
                   data st' q' = data example_store q')
    /\ well_formed st' example_parameters.
Proof.
  apply (Parameters_set_then_get example_store example_parameters "mu" 5
           {| _parameters_data := O; _index := O |}).
  - apply (make_well_formed empty_store example_templates).
  - reflexivity.
Defined.

Lemma Parameters_clone_is_independent_witness :
  exists imp' st',
    clone 1 example_store example_parameters = Some (imp', st')
    /\ parameters_data imp' <> parameters_data example_parameters
    /\ parameters_map imp' = parameters_map example_parameters
    /\ (forall i,
          data st' {| _parameters_data := parameters_data imp'; _index := i |}
          = data example_store
              {| _parameters_data := parameters_data example_parameters;
                 _index := i |})
    /\ (forall q, (_parameters_data q < next_free example_store)%nat ->
                  data st' q = data example_store q)
    /\ (forall name0 v st'',
          set st' imp' name0 v = Returns st'' ->
          forall q, _parameters_data q <> parameters_data imp' ->
                    data st'' q = data st' q)
    /\ (forall name0 v st'',
          set st' example_parameters name0 v = Returns st'' ->
          forall i,
            data st'' {| _parameters_data := parameters_data imp'; _index := i |}
            = data st' {| _parameters_data := parameters_data imp'; _index := i |}).
Proof.
  apply (Parameters_clone_is_independent O example_store example_parameters).
  simpl. lia.
Defined.

Lemma Defaults_resolve_to_central_witness :
  let t := template "mu" 2.4 4.2 9.6 in
  let imp := fst (Defaults empty_store) in
  let st' := snd (Defaults empty_store) in
  let q := {| _parameters_data := parameters_data imp; _index := 16 |} in
  lookup imp (ParameterTemplate.name t) = Returns q
  /\ value st' q = Returns (ParameterTemplate.central t)
  /\ min st' q = Returns (ParameterTemplate.min t)
  /\ max st' q = Returns (ParameterTemplate.max t)
  /\ ParameterTemplate.min t <= ParameterTemplate.central t
     <= ParameterTemplate.max t.
Proof.
  intros t.
  apply (Defaults_resolve_to_central empty_store 16 t).
  reflexivity.
Defined.

Local Close Scope string_scope.
End ParametersProperties.

(** ** SwitchOption *)

Section SwitchOptionProperties.
Context {queries : OptionsQueries}.

Lemma not_found_false (allowed_values : list string) (v : string) :
  SwitchOption.not_found allowed_values v = false <-> In v allowed_values.
Proof.
  unfold SwitchOption.not_found. rewrite negb_false_iff, existsb_exists.
  split.
  - intros (x & Hin & Heq). apply String.eqb_eq in Heq. subst x. exact Hin.
  - intros Hin. exists v. split; [exact Hin | apply String.eqb_refl].
Qed.

Lemma not_found_true (allowed_values : list string) (v : string) :
  SwitchOption.not_found allowed_values v = true <-> ~ In v allowed_values.
Proof.
  rewrite <- not_found_false. destruct (SwitchOption.not_found allowed_values v).
  - split; [intros _ H; discriminate | reflexivity].
  - split; [discriminate | intros H; exfalso; apply H; reflexivity].
Qed.

(** X30. The value of a [SwitchOption] is always one of the allowed values.
    The first constructor returns only for a key that the options have,
    with the value stored under it.  The second one never throws
    [UnspecifiedOptionError]; it throws [InternalError] exactly when the list
    is empty or the default value is not allowed, whatever the options hold,
    and [InvalidOptionValueError] exactly when the default value is allowed
    and the value obtained from the options is not. *)
Theorem SwitchOption_value_is_allowed
    (options : Options.t) (key : string) (allowed_values : list string)
    (default_value : string) :
  match SwitchOption.make options key allowed_values with
  | Returns s =>
      In (SwitchOption.value s) allowed_values
      /\ Options_has options key = true
      /\ SwitchOption.value s = Options_index options key
  | Throws _ => True
  end
  /\ match SwitchOption.make_with_default options key allowed_values default_value with
     | Returns s =>
         In (SwitchOption.value s) allowed_values
         /\ In default_value allowed_values
         /\ SwitchOption.value s = Options_get options key default_value
     | Throws (SwitchOption.InternalError _) =>
         allowed_values = [] \/ ~ In default_value allowed_values
     | Throws (SwitchOption.UnspecifiedOptionError _ _) => False
     | Throws (SwitchOption.InvalidOptionValueError k v _) =>
         In default_value allowed_values
         /\ ~ In v allowed_values
         /\ k = key
         /\ v = Options_get options key default_value
     end.
Proof.
  split.
  - unfold SwitchOption.make.
    destruct allowed_values as [| a rest]; [exact I |].
    destruct (Options_has options key); cbn [negb]; [| exact I].
    destruct (SwitchOption.not_found (a :: rest) (Options_index options key)) eqn:E;
      [exact I |].
    apply not_found_false in E. repeat split. exact E.
  - unfold SwitchOption.make_with_default.
    destruct allowed_values as [| a rest]; [left; reflexivity |].
    destruct (SwitchOption.not_found (a :: rest) default_value) eqn:Ed.
    + right. apply not_found_true. exact Ed.
    + apply not_found_false in Ed.
      destruct (SwitchOption.not_found (a :: rest)
                  (Options_get options key default_value)) eqn:Ev.
      * apply not_found_true in Ev. repeat split; assumption.
      * apply not_found_false in Ev. repeat split; assumption.
Qed.
End SwitchOptionProperties.
